(** * email-service: the resilient delivery pipeline

    A shallow embedding of the consumer side of the email notification
    service: the Redis adapter ([RedisService]), the retry book-keeping
    ([RetryService]), the circuit breaker ([CircuitBreakerService]), the
    mail sender ([EmailSender]), the orchestrator ([EmailService]) and the
    queue consumer ([EmailController]).

    Asynchronous methods are modelled sequentially: an [await]ed call is a
    computation in a state-and-exception monad whose state survives a
    [throw], as a JavaScript heap does.  Logger calls are not modelled. *)

From Stdlib Require Import ZArith QArith Qround Qminmax Qpower Lqa Lia.
From stdpp Require Import base option list gmap strings.

Local Open Scope string_scope.
Local Open Scope Z_scope.

(** ** JavaScript exceptions *)

(** What a [catch] clause can tell about the value it caught: the
    [message], the optional [code] of a Node system error, and whether the
    value is an [AxiosError] (with the status of its response, if any). *)
Inductive ErrorKind : Type :=
| PlainError
| AxiosError (status : option Z).

Module JsError.
Record t : Type := mk {
  message : string;
  code : option string;
  kind : ErrorKind
}.
End JsError.

(** [new Error(msg)] *)
Definition Error (msg : string) : JsError.t :=
  JsError.mk msg None PlainError.

(** [new TypeError(msg)]: reading a property of [undefined]. *)
Definition TypeError (msg : string) : JsError.t :=
  JsError.mk msg None PlainError.

Inductive Res (A : Type) : Type :=
| Ok (a : A)
| Throw (e : JsError.t).
Arguments Ok {A} a.
Arguments Throw {A} e.

(** ** The monad of effectful code over a state [S] *)

Definition Eff (S A : Type) : Type := S -> Res A * S.

Definition ret {S A} (a : A) : Eff S A := fun s => (Ok a, s).

Definition throw {S A} (e : JsError.t) : Eff S A := fun s => (Throw e, s).

Definition bind {S A B} (c : Eff S A) (k : A -> Eff S B) : Eff S B :=
  fun s =>
    match c s with
    | (Ok a, s') => k a s'
    | (Throw e, s') => (Throw e, s')
    end.

(** [try { body } catch (error) { handler }] *)
Definition try_catch {S A} (body : Eff S A) (handler : JsError.t -> Eff S A)
  : Eff S A :=
  fun s =>
    match body s with
    | (Ok a, s') => (Ok a, s')
    | (Throw e, s') => handler e s'
    end.

Definition gets {S A} (f : S -> A) : Eff S A := fun s => (Ok (f s), s).

Definition modify {S} (f : S -> S) : Eff S unit := fun s => (Ok tt, f s).

Declare Scope eff_scope.
Delimit Scope eff_scope with eff.
Notation "'let*' x := c 'in' k" := (bind c (fun x => k))
  (at level 10, x name, c at level 100, k at level 200, only parsing)
  : eff_scope.
Notation "c ;; k" := (bind c (fun _ => k))
  (at level 100, k at level 200, right associativity, only parsing) : eff_scope.
Local Open Scope eff_scope.

(** ** src/email/types/index.ts *)

Inductive NotificationStatus : Type :=
| DELIVERED
| PENDING
| FAILED.

Inductive Scalar : Type :=
| SString (s : string)
| SNumber (z : Z)
| SBoolean (b : bool).

(** A [Record<string, string | number | boolean>]: keys in insertion
    order. *)
Definition Variables : Type := list (string * Scalar).

(** [{ ...vars, [k]: v }]: an existing key keeps its place. *)
Fixpoint assign (k : string) (v : Scalar) (vars : Variables) : Variables :=
  match vars with
  | [] => [(k, v)]
  | (k', v') :: rest =>
      if String.eqb k k' then (k, v) :: rest else (k', v') :: assign k v rest
  end.

Module EmailNotificationPayload.
Record t : Type := mk {
  user_id : string;
  template_code : string;
  variables : Variables;
  request_id : string;
  priority : Z
}.
End EmailNotificationPayload.

Module Preferences.
Record t : Type := mk {
  email : bool;
  push : bool
}.
End Preferences.

Module UserData.
Record t : Type := mk {
  id : string;
  name : string;
  email : string;
  preferences : Preferences.t
}.
End UserData.

Module EmailTemplate.
Record t : Type := mk {
  id : string;
  code : string;
  subject : string;
  html_body : string;
  text_body : option string;
  variables : list string;
  language : string;
  version : Z
}.
End EmailTemplate.

Module StatusUpdate.
Record t : Type := mk {
  notification_id : string;
  status : NotificationStatus;
  timestamp : Z;
  error : option string
}.
End StatusUpdate.

Module EmailSendResult.
Record t : Type := mk {
  success : bool;
  message_id : option string;
  error : option string;
  timestamp : Z
}.
End EmailSendResult.

(** ** src/email/services/retry.service.ts: [RetryMetadata] *)

Module RetryMetadata.
Record t : Type := mk {
  request_id : string;
  attempt_count : nat;
  first_attempt_at : Z;
  last_attempt_at : Z;
  next_retry_at : Z;
  errors : list string
}.
End RetryMetadata.

(** ** What the service stores in Redis

    Every value the service writes is [JSON.stringify] of one of its
    records, and every value it reads goes through [JSON.parse].  The
    store keeps the document itself; a document is never the empty
    string, so it is truthy. *)
Inductive Doc : Type :=
| DResult (r : EmailSendResult.t)
| DStatus (u : StatusUpdate.t)
| DUser (u : UserData.t)
| DTemplate (t : EmailTemplate.t)
| DRetry (m : RetryMetadata.t).

Module Entry.
Record t : Type := mk {
  doc : Doc;
  expires_at : option Z
}.
End Entry.

(** ** The world outside the process *)

Module MailOptions.
Record t : Type := mk {
  from : string;
  to : string;
  subject : string;
  html : string;
  text : string;
  correlation_header : string
}.
End MailOptions.

(** Every interaction with a collaborator, in the order it happens. *)
Inductive Event : Type :=
| RedisGet (key : string)
| RedisSetEx (key : string) (ttl : Z) (d : Doc)
| RedisSet (key : string) (d : Doc)
| RedisDel (key : string)
| HttpGetUser (user_id : string)
| HttpGetTemplate (template_code : string)
| SendMail (m : MailOptions.t)
| StatusEmit (pattern : string) (u : StatusUpdate.t)
| Ack
| Nack (requeue : bool).

(** [clock] is what [Date.now()] returns, in milliseconds.  [faults]
    schedules the outcome of the next Redis commands: [Some e] makes the
    command reject with [e], [None] (or an exhausted schedule) lets it
    through.  [randoms] holds the next results of [Math.random()]. *)
Module Ext.
Record t : Type := mk {
  clock : Z;
  store : gmap string Entry.t;
  faults : list (option JsError.t);
  randoms : list Q;
  trace : list Event
}.
End Ext.

Definition Date_now : Eff Ext.t Z := gets Ext.clock.

Definition emit_event (ev : Event) : Eff Ext.t unit :=
  modify (fun x =>
    Ext.mk (Ext.clock x) (Ext.store x) (Ext.faults x) (Ext.randoms x)
      (Ext.trace x ++ [ev])).

(** The next scheduled outcome of a Redis command. *)
Definition next_fault : Eff Ext.t (option JsError.t) :=
  fun x =>
    (Ok (match Ext.faults x with f :: _ => f | [] => None end),
     Ext.mk (Ext.clock x) (Ext.store x) (tail (Ext.faults x)) (Ext.randoms x)
       (Ext.trace x)).

Definition Math_random : Eff Ext.t Q :=
  fun x =>
    (Ok (match Ext.randoms x with r :: _ => r | [] => 0%Q end),
     Ext.mk (Ext.clock x) (Ext.store x) (Ext.faults x) (tail (Ext.randoms x))
       (Ext.trace x)).

Definition set_store (f : gmap string Entry.t -> gmap string Entry.t)
  : Eff Ext.t unit :=
  modify (fun x =>
    Ext.mk (Ext.clock x) (f (Ext.store x)) (Ext.faults x) (Ext.randoms x)
      (Ext.trace x)).

(** A key is live until its expiry time is reached. *)
Definition live (now : Z) (e : Entry.t) : bool :=
  match Entry.expires_at e with
  | None => true
  | Some t => now <? t
  end.

Definition read_key (key : string) (x : Ext.t) : option Doc :=
  match Ext.store x !! key with
  | Some e => if live (Ext.clock x) e then Some (Entry.doc e) else None
  | None => None
  end.

(** *** The node-redis client *)

Definition client_command {A} (ev : Event) (run : Eff Ext.t A) : Eff Ext.t A :=
  emit_event ev ;;
  let* f := next_fault in
  match f with
  | Some e => throw e
  | None => run
  end.

Definition client_get (key : string) : Eff Ext.t (option Doc) :=
  client_command (RedisGet key) (gets (read_key key)).

Definition client_setEx (key : string) (ttl : Z) (d : Doc) : Eff Ext.t unit :=
  client_command (RedisSetEx key ttl d)
    (let* now := Date_now in
     set_store (insert key (Entry.mk d (Some (now + 1000 * ttl))))).

Definition client_set (key : string) (d : Doc) : Eff Ext.t unit :=
  client_command (RedisSet key d)
    (set_store (insert key (Entry.mk d None))).

Definition client_del (key : string) : Eff Ext.t unit :=
  client_command (RedisDel key) (set_store (delete key)).

(** ** src/shared/redis.service.ts *)

Module RedisService.

(** A failed read is logged and answered with [null]. *)
Definition get (key : string) : Eff Ext.t (option Doc) :=
  try_catch (client_get key) (fun _ => ret None).

(** [if (ttl)] is false for a missing and for a zero [ttl]; a failed write
    is logged and thrown again. *)
Definition set (key : string) (value : Doc) (ttl : option Z)
  : Eff Ext.t unit :=
  try_catch
    (match ttl with
     | Some t => if t =? 0 then client_set key value
                 else client_setEx key t value
     | None => client_set key value
     end)
    (fun error => throw error).

Definition del (key : string) : Eff Ext.t unit :=
  try_catch (client_del key) (fun _ => ret tt).

(** The [reconnectStrategy] handed to [createClient]: the delay in
    milliseconds before the next attempt, or the error that ends the
    reconnection. *)
Definition reconnectStrategy (retries : Z) : JsError.t + Z :=
  if 10 <? retries then inl (Error "Max reconnection attempts reached")
  else inr (Z.min (retries * 100) 3000).

End RedisService.

(** ** IEEE 754 binary64 rounding

    [number] arithmetic rounds every result to the nearest double, ties to
    even.  [round] does so on rationals, for the normal range (no overflow
    and no subnormals: the delays below stay far from both). *)

Module Binary64.

(** [floor (log2 x)] for a positive [x]. *)
Definition ilog2 (x : Q) : Z :=
  let k := Z.log2 (Qnum x) - Z.log2 (Zpos (Qden x)) in
  if Qle_bool (2 ^ k) x then k else k - 1.

(** The integer nearest to [x], ties to even. *)
Definition rne (x : Q) : Z :=
  let f := Qfloor x in
  match (x - inject_Z f ?= 1 # 2)%Q with
  | Lt => f
  | Gt => f + 1
  | Eq => if Z.even f then f else f + 1
  end.

(** The unit in the last place of the 53-bit significand of [x]. *)
Definition ulp (x : Q) : Q := (2 ^ (ilog2 x - 52))%Q.

Definition round (x : Q) : Q :=
  match (x ?= 0)%Q with
  | Eq => 0%Q
  | Gt => (inject_Z (rne (x / ulp x)) * ulp x)%Q
  | Lt => (- (inject_Z (rne (- x / ulp (- x))) * ulp (- x)))%Q
  end.

(** The double written [0.2]. *)
Definition lit_0_2 : Q := (3602879701896397 # 18014398509481984)%Q.

End Binary64.

(** ** src/email/services/retry.service.ts *)

Module RetryService.

Definition INITIAL_DELAY_MS : Z := 1000.
Definition MAX_DELAY_MS : Z := 300000.
Definition BACKOFF_MULTIPLIER : Z := 2.
Definition MAX_ATTEMPTS : nat := 3.

Definition key_of (request_id : string) : string := "retry:" +:+ request_id.

(** [(JSON.parse(metadata) as RetryMetadata).attempt_count]: [undefined]
    ([None]) when the document has no such property. *)
Definition attempt_count_of (d : Doc) : option nat :=
  match d with
  | DRetry m => Some (RetryMetadata.attempt_count m)
  | _ => None
  end.

(** [count < limit] on a [number] that may be [undefined]: comparing
    [undefined] is always false. *)
Definition js_lt (count : option nat) (limit : nat) : bool :=
  match count with
  | Some c => (c <? limit)%nat
  | None => false
  end.

Definition getRetryCount (request_id : string) : Eff Ext.t (option nat) :=
  let* metadata := RedisService.get (key_of request_id) in
  match metadata with
  | None => ret (Some 0%nat)
  | Some d => ret (attempt_count_of d)
  end.

(** The delay before jitter: the first argument of [Math.floor]'s sum.
    Powers of two and their products with 1000 are exact doubles, and an
    overflow to [Infinity] is cut by [Math.min] as the rational is. *)
Definition base_delay (attempt_count : nat) : Q :=
  Qmin (inject_Z INITIAL_DELAY_MS
        * inject_Z BACKOFF_MULTIPLIER ^ (Z.of_nat attempt_count - 1))
       (inject_Z MAX_DELAY_MS).

(** [Math.floor(delay + delay * 0.2 * random)] *)
Definition jittered (delay random : Q) : Z :=
  let jitter :=
    Binary64.round (Binary64.round (delay * Binary64.lit_0_2) * random) in
  Qfloor (Binary64.round (delay + jitter)).

Definition calculateBackoff (attempt_count : nat) : Eff Ext.t Z :=
  let delay := base_delay attempt_count in
  let* random := Math_random in
  ret (jittered delay random).

Definition recordRetry (request_id error : string) : Eff Ext.t unit :=
  let key := key_of request_id in
  let* existing := RedisService.get key in
  let* now := Date_now in
  let* retryData :=
    match existing with
    | Some (DRetry m) =>
        ret (RetryMetadata.mk
               (RetryMetadata.request_id m)
               (S (RetryMetadata.attempt_count m))
               (RetryMetadata.first_attempt_at m)
               now
               (RetryMetadata.next_retry_at m)
               (RetryMetadata.errors m ++ [error]))
    | Some _ =>
        throw (TypeError
                 "Cannot read properties of undefined (reading 'push')")
    | None =>
        ret (RetryMetadata.mk request_id 1 now now now [error])
    end in
  let* delay := calculateBackoff (RetryMetadata.attempt_count retryData) in
  let* now' := Date_now in
  RedisService.set key
    (DRetry (RetryMetadata.mk
               (RetryMetadata.request_id retryData)
               (RetryMetadata.attempt_count retryData)
               (RetryMetadata.first_attempt_at retryData)
               (RetryMetadata.last_attempt_at retryData)
               (now' + delay)
               (RetryMetadata.errors retryData)))
    (Some 86400).

Definition shouldRetry (request_id : string) : Eff Ext.t bool :=
  let* count := getRetryCount request_id in
  ret (js_lt count MAX_ATTEMPTS).

Definition getRetryMetadata (request_id : string) : Eff Ext.t (option Doc) :=
  RedisService.get (key_of request_id).

Definition clearRetry (request_id : string) : Eff Ext.t unit :=
  RedisService.del (key_of request_id).

End RetryService.

(** ** src/email/services/circuit-breaker.service.ts *)

Inductive CircuitState : Type :=
| CLOSED
| OPEN
| HALF_OPEN.

Module CircuitBreaker.
Record t : Type := mk {
  state : CircuitState;
  failure_count : nat;
  success_count : nat;
  last_failure_time : option Z;
  next_attempt_time : Z
}.
End CircuitBreaker.

(** The process: the circuits of the [CircuitBreakerService] singleton and
    everything outside.  An operation protected by a circuit runs on [ext]
    alone: it has no access to the circuits. *)
Module World.
Record t : Type := mk {
  ext : Ext.t;
  circuits : gmap string CircuitBreaker.t
}.
End World.

Definition lift {A} (c : Eff Ext.t A) : Eff World.t A :=
  fun w =>
    let (r, x) := c (World.ext w) in
    (r, World.mk x (World.circuits w)).

Module CircuitBreakerService.

Definition FAILURE_THRESHOLD : nat := 5.
Definition SUCCESS_THRESHOLD : nat := 2.
Definition TIMEOUT : Z := 60000.
Definition HALF_OPEN_MAX_CALLS : nat := 3.

Definition fresh : CircuitBreaker.t :=
  CircuitBreaker.mk CLOSED 0 0 None 0.

Definition getOrCreateCircuit (circuit_name : string)
  : Eff World.t CircuitBreaker.t :=
  fun w =>
    match World.circuits w !! circuit_name with
    | Some c => (Ok c, w)
    | None =>
        (Ok fresh,
         World.mk (World.ext w) (<[circuit_name := fresh]> (World.circuits w)))
    end.

(** A write through the reference [getOrCreateCircuit] returned: the
    object is the one the map holds under [circuit_name]. *)
Definition update (circuit_name : string)
  (f : CircuitBreaker.t -> CircuitBreaker.t) : Eff World.t unit :=
  modify (fun w =>
    World.mk (World.ext w) (alter f circuit_name (World.circuits w))).

Definition onSuccess (circuit : CircuitBreaker.t) : CircuitBreaker.t :=
  let circuit :=
    CircuitBreaker.mk (CircuitBreaker.state circuit) 0
      (CircuitBreaker.success_count circuit)
      (CircuitBreaker.last_failure_time circuit)
      (CircuitBreaker.next_attempt_time circuit) in
  match CircuitBreaker.state circuit with
  | HALF_OPEN =>
      let successes := S (CircuitBreaker.success_count circuit) in
      if (SUCCESS_THRESHOLD <=? successes)%nat then
        CircuitBreaker.mk CLOSED 0 0
          (CircuitBreaker.last_failure_time circuit)
          (CircuitBreaker.next_attempt_time circuit)
      else
        CircuitBreaker.mk HALF_OPEN 0 successes
          (CircuitBreaker.last_failure_time circuit)
          (CircuitBreaker.next_attempt_time circuit)
  | _ => circuit
  end.

Definition onFailure (now : Z) (circuit : CircuitBreaker.t)
  : CircuitBreaker.t :=
  let failures := S (CircuitBreaker.failure_count circuit) in
  match CircuitBreaker.state circuit with
  | HALF_OPEN =>
      CircuitBreaker.mk OPEN failures 0 (Some now) (now + TIMEOUT)
  | st =>
      if (FAILURE_THRESHOLD <=? failures)%nat then
        CircuitBreaker.mk OPEN failures
          (CircuitBreaker.success_count circuit) (Some now) (now + TIMEOUT)
      else
        CircuitBreaker.mk st failures
          (CircuitBreaker.success_count circuit) (Some now)
          (CircuitBreaker.next_attempt_time circuit)
  end.

(** The first half of [execute]: an OPEN circuit rejects the call until
    its timeout has elapsed, and becomes HALF_OPEN after. *)
Definition enter (circuit_name : string) : Eff World.t unit :=
  let* circuit := getOrCreateCircuit circuit_name in
  match CircuitBreaker.state circuit with
  | OPEN =>
      let* now := lift Date_now in
      if now <? CircuitBreaker.next_attempt_time circuit then
        throw (Error ("Circuit breaker is OPEN for " +:+ circuit_name))
      else
        update circuit_name (fun c =>
          CircuitBreaker.mk HALF_OPEN
            (CircuitBreaker.failure_count c) 0
            (CircuitBreaker.last_failure_time c)
            (CircuitBreaker.next_attempt_time c))
  | _ => ret tt
  end.

(** The second half: run the operation and report its outcome. *)
Definition run {T} (operation : Eff Ext.t T) (circuit_name : string)
  : Eff World.t T :=
  try_catch
    (let* result := lift operation in
     update circuit_name onSuccess ;;
     ret result)
    (fun error =>
       let* now := lift Date_now in
       update circuit_name (onFailure now) ;;
       throw error).

Definition execute {T} (operation : Eff Ext.t T) (circuit_name : string)
  : Eff World.t T :=
  enter circuit_name ;;
  run operation circuit_name.

Definition getCircuitStatus (circuit_name : string)
  : Eff World.t (option CircuitBreaker.t) :=
  gets (fun w => World.circuits w !! circuit_name).

Definition resetCircuit (circuit_name : string) : Eff World.t unit :=
  modify (fun w =>
    World.mk (World.ext w) (delete circuit_name (World.circuits w))).

End CircuitBreakerService.

(** ** The collaborators behind HTTP and SMTP, and the pure helpers

    [user_service] and [template_service] answer the GET requests of
    [UserService] and [TemplateService] with [response.data.data] or with
    the error axios rejects with; [transporter] is
    [nodemailer]'s [sendMail], answering with [info.messageId].  [render]
    stands for the regular-expression substitution of
    [TemplateService.renderTemplate] and [stripHtml] for the one of
    [EmailSender.stripHtml]: both are pure, and [render] may throw. *)

Module Rendered.
Record t : Type := mk {
  subject : string;
  html_body : string;
  text_body : option string
}.
End Rendered.

Module Env.
Record t : Type := mk {
  EMAIL_FROM : option string;
  user_service : string -> Res UserData.t;
  template_service : string -> Res EmailTemplate.t;
  transporter : MailOptions.t -> Res string;
  render : EmailTemplate.t -> Variables -> Res Rendered.t;
  stripHtml : string -> string
}.
End Env.

Definition of_res {S A} (r : Res A) : Eff S A :=
  match r with
  | Ok a => ret a
  | Throw e => throw e
  end.

(** [a || b] on strings that may be [undefined]: the empty string is
    falsy. *)
Definition or_else (a : option string) (b : string) : string :=
  match a with
  | Some s => if String.eqb s "" then b else s
  | None => b
  end.

(** [hay.includes(needle)] *)
Fixpoint includes (needle hay : string) : bool :=
  if String.prefix needle hay then true
  else match hay with
       | EmptyString => false
       | String _ rest => includes needle rest
       end.

Definition string_of_bool (b : bool) : string :=
  if b then "true" else "false".

(** ** src/email/services/user.service.ts *)

Module UserService.

Definition CACHE_TTL : Z := 1800.

(** The result is what [JSON.parse] gave, typed [UserData] by a cast. *)
Definition getUserById (env : Env.t) (user_id : string)
  : Eff Ext.t (option Doc) :=
  let cacheKey := "user:" +:+ user_id in
  try_catch
    (let* cached := RedisService.get cacheKey in
     match cached with
     | Some d => ret (Some d)
     | None =>
         emit_event (HttpGetUser user_id) ;;
         let* user := of_res (Env.user_service env user_id) in
         RedisService.set cacheKey (DUser user) (Some CACHE_TTL) ;;
         ret (Some (DUser user))
     end)
    (fun error =>
       match JsError.kind error with
       | AxiosError (Some 404) => ret None
       | _ => throw error
       end).

Definition invalidateCache (user_id : string) : Eff Ext.t unit :=
  RedisService.del ("user:" +:+ user_id).

End UserService.

(** ** src/email/services/template.service.ts *)

Module TemplateService.

Definition CACHE_TTL : Z := 3600.

Definition getTemplate (env : Env.t) (template_code : string)
  : Eff Ext.t (option Doc) :=
  let cacheKey := "template:" +:+ template_code in
  try_catch
    (let* cached := RedisService.get cacheKey in
     match cached with
     | Some d => ret (Some d)
     | None =>
         emit_event (HttpGetTemplate template_code) ;;
         let* template := of_res (Env.template_service env template_code) in
         RedisService.set cacheKey (DTemplate template) (Some CACHE_TTL) ;;
         ret (Some (DTemplate template))
     end)
    (fun _ => ret None).

(** [template.variables.filter] throws on a document without
    [variables]; whatever is thrown is logged and thrown again. *)
Definition renderTemplate {S} (env : Env.t) (template : Doc)
  (variables : Variables) : Eff S Rendered.t :=
  try_catch
    (match template with
     | DTemplate t => of_res (Env.render env t variables)
     | _ =>
         throw (TypeError
                  "Cannot read properties of undefined (reading 'filter')")
     end)
    (fun error => throw error).

Definition invalidateCache (template_code : string) : Eff Ext.t unit :=
  RedisService.del ("template:" +:+ template_code).

End TemplateService.

(** ** src/email/services/email-sender.service.ts *)

Module EmailPayload.
Record t : Type := mk {
  to : string;
  subject : string;
  html : string;
  text : option string;
  correlationId : string
}.
End EmailPayload.

Module EmailSender.

Definition retryableErrors : list string :=
  ["ETIMEDOUT"; "ECONNRESET"; "ENOTFOUND"; "ECONNREFUSED"; "EHOSTUNREACH"].

Definition isRetryableError (error : JsError.t) : bool :=
  match JsError.code error with
  | Some c => existsb (String.eqb c) retryableErrors
  | None => false
  end
  || includes "timeout" (JsError.message error)
  || includes "rate limit" (JsError.message error)
  || false.

Definition sendMail (env : Env.t) (m : MailOptions.t) : Eff Ext.t string :=
  emit_event (SendMail m) ;;
  of_res (Env.transporter env m).

(** The operation handed to the circuit breaker. *)
Definition operation (env : Env.t) (payload : EmailPayload.t)
  : Eff Ext.t EmailSendResult.t :=
  try_catch
    (let* messageId :=
       sendMail env
         (MailOptions.mk
            (or_else (Env.EMAIL_FROM env) "noreply@notifications.com")
            (EmailPayload.to payload)
            (EmailPayload.subject payload)
            (EmailPayload.html payload)
            (or_else (EmailPayload.text payload)
               (Env.stripHtml env (EmailPayload.html payload)))
            (EmailPayload.correlationId payload)) in
     let* now := Date_now in
     ret (EmailSendResult.mk true (Some messageId) None now))
    (fun error =>
       let errorMessage := JsError.message error in
       let isRetryable := isRetryableError error in
       let* now := Date_now in
       ret (EmailSendResult.mk false None
              (Some (errorMessage +:+ " (Retryable: "
                     +:+ string_of_bool isRetryable +:+ ")"))
              now)).

Definition sendEmail (env : Env.t) (payload : EmailPayload.t)
  : Eff World.t EmailSendResult.t :=
  CircuitBreakerService.execute (operation env payload) "email_send".

(** [html.replace(/<[^>]*>/g, '')] on the UTF-16 code units of [html]
    (60 is [<], 62 is [>]).  A match runs from a [<] to the first [>] after
    it; [inside] is true between the two.  A [<] with no [>] after it
    starts no match, and neither does anything behind it. *)
Fixpoint removeTags (inside : bool) (html : list N) : list N :=
  match html with
  | [] => []
  | c :: rest =>
      if inside then
        if (c =? 62)%N then removeTags false rest else removeTags true rest
      else if (c =? 60)%N then
        if existsb (N.eqb 62) rest then removeTags true rest else c :: rest
      else c :: removeTags false rest
  end.

(** The code units [trim] removes: WhiteSpace and LineTerminator. *)
Definition isWhiteSpace (c : N) : bool :=
  existsb (N.eqb c)
    [9; 10; 11; 12; 13; 32; 160; 5760; 8192; 8193; 8194; 8195; 8196; 8197;
     8198; 8199; 8200; 8201; 8202; 8232; 8233; 8239; 8287; 12288; 65279]%N.

Fixpoint trimStart (s : list N) : list N :=
  match s with
  | [] => []
  | c :: rest => if isWhiteSpace c then trimStart rest else s
  end.

Definition trim (s : list N) : list N :=
  rev (trimStart (rev (trimStart s))).

Definition stripHtml (html : list N) : list N :=
  trim (removeTags false html).

End EmailSender.

(** ** src/email/email.service.ts *)

Module EmailService.

Definition MAX_RETRY_ATTEMPTS : nat := 3.

Definition key_of (request_id : string) : string :=
  "processed:" +:+ request_id.

(** [!!value] on what [get] returned: a stored document is a non-empty
    string, [null] is falsy. *)
Definition truthy (value : option Doc) : bool :=
  match value with
  | Some _ => true
  | None => false
  end.

Definition checkIdempotency (request_id : string) : Eff Ext.t bool :=
  let* exists_ := RedisService.get (key_of request_id) in
  ret (truthy exists_).

Definition markAsProcessed (request_id : string) (result : EmailSendResult.t)
  : Eff Ext.t unit :=
  RedisService.set (key_of request_id) (DResult result) (Some 86400).

(** [statusClient.emit] is fire-and-forget: it hands the event to the
    client and never throws. *)
Definition updateStatus (notification_id : string)
  (status : NotificationStatus) (error : option string) : Eff Ext.t unit :=
  let* now := Date_now in
  let statusUpdate := StatusUpdate.mk notification_id status now error in
  try_catch
    (emit_event (StatusEmit "email.status" statusUpdate) ;;
     RedisService.set ("status:" +:+ notification_id) (DStatus statusUpdate)
       (Some 3600))
    (fun _ => ret tt).

(** [user.preferences.email], [user.name], [user.email] on what the
    lookup returned. *)
Definition as_user {S} (user : Doc) : Eff S UserData.t :=
  match user with
  | DUser u => ret u
  | _ =>
      throw (TypeError "Cannot read properties of undefined (reading 'email')")
  end.

(** Steps 2 to 6 of [processEmailNotification]: what follows the
    idempotency check for a request that is not known. *)
Definition deliver (env : Env.t) (payload : EmailNotificationPayload.t)
  : Eff World.t EmailSendResult.t :=
  let request_id := EmailNotificationPayload.request_id payload in
  let correlationId := request_id in
  lift (updateStatus request_id PENDING None) ;;
  let* user :=
    lift (UserService.getUserById env
            (EmailNotificationPayload.user_id payload)) in
  match user with
  | None =>
      throw (Error ("User not found: "
                    +:+ EmailNotificationPayload.user_id payload))
  | Some user =>
      let* user := as_user user in
      if negb (Preferences.email (UserData.preferences user)) then
        lift (updateStatus request_id FAILED
                (Some "User has email notifications disabled")) ;;
        let* now := lift Date_now in
        ret (EmailSendResult.mk false None
               (Some "User preferences disabled") now)
      else
        let* template :=
          lift (TemplateService.getTemplate env
                  (EmailNotificationPayload.template_code payload)) in
        match template with
        | None =>
            throw (Error ("Template not found: "
                          +:+ EmailNotificationPayload.template_code payload))
        | Some template =>
            let* renderedEmail :=
              TemplateService.renderTemplate env template
                (assign "user_name" (SString (UserData.name user))
                   (EmailNotificationPayload.variables payload)) in
            let* result :=
              EmailSender.sendEmail env
                (EmailPayload.mk
                   (UserData.email user)
                   (Rendered.subject renderedEmail)
                   (Rendered.html_body renderedEmail)
                   (Rendered.text_body renderedEmail)
                   correlationId) in
            (if EmailSendResult.success result then
               lift (updateStatus request_id DELIVERED None) ;;
               lift (markAsProcessed request_id result)
             else
               lift (updateStatus request_id FAILED
                       (EmailSendResult.error result))) ;;
            ret result
        end
  end.

(** The [try] block of [processEmailNotification]: step 1, then the
    rest. *)
Definition process (env : Env.t) (payload : EmailNotificationPayload.t)
  : Eff World.t EmailSendResult.t :=
  let request_id := EmailNotificationPayload.request_id payload in
  let* alreadyProcessed := lift (checkIdempotency request_id) in
  if alreadyProcessed : bool then
    let* now := lift Date_now in
    ret (EmailSendResult.mk true (Some "duplicate") None now)
  else
    deliver env payload.

(** The [catch] block of [processEmailNotification]. *)
Definition on_error (payload : EmailNotificationPayload.t) (error : JsError.t)
  : Eff World.t EmailSendResult.t :=
  let errorMessage := JsError.message error in
  lift (updateStatus (EmailNotificationPayload.request_id payload)
          FAILED (Some errorMessage)) ;;
  let* now := lift Date_now in
  ret (EmailSendResult.mk false None (Some errorMessage) now).

Definition processEmailNotification (env : Env.t)
  (payload : EmailNotificationPayload.t) : Eff World.t EmailSendResult.t :=
  try_catch (process env payload) (on_error payload).

Definition shouldRetry (payload : EmailNotificationPayload.t)
  : Eff Ext.t bool :=
  let* retryCount :=
    RetryService.getRetryCount (EmailNotificationPayload.request_id payload) in
  ret (RetryService.js_lt retryCount MAX_RETRY_ATTEMPTS).

End EmailService.

(** ** src/email/email.controller.ts *)

Module EmailController.

Definition handleEmailNotification (env : Env.t)
  (payload : EmailNotificationPayload.t) : Eff World.t unit :=
  try_catch
    (let* result := EmailService.processEmailNotification env payload in
     if EmailSendResult.success result then
       lift (emit_event Ack)
     else
       let* shouldRetry := lift (EmailService.shouldRetry payload) in
       if shouldRetry : bool then lift (emit_event (Nack true))
       else lift (emit_event (Nack false)))
    (fun _ => lift (emit_event (Nack false))).

End EmailController.

(** * The vocabulary of the properties *)

(** ** Redis commands and the outer world *)

(** The outcome scheduled for the next Redis command. *)
Definition fault_of (x : Ext.t) : option JsError.t :=
  match Ext.faults x with
  | f :: _ => f
  | [] => None
  end.

(** The outer world once a Redis command has been issued. *)
Definition commanded (ev : Event) (x : Ext.t) : Ext.t :=
  Ext.mk (Ext.clock x) (Ext.store x) (tail (Ext.faults x)) (Ext.randoms x)
    (Ext.trace x ++ [ev]).

Definition stored (key : string) (d : Doc) (ttl : Z) (x : Ext.t) : Ext.t :=
  Ext.mk (Ext.clock x)
    (<[key := Entry.mk d (Some (Ext.clock x + 1000 * ttl))]> (Ext.store x))
    (Ext.faults x) (Ext.randoms x) (Ext.trace x).

(** The outer world once an event has been handed to a collaborator. *)
Definition emitted (ev : Event) (x : Ext.t) : Ext.t :=
  Ext.mk (Ext.clock x) (Ext.store x) (Ext.faults x) (Ext.randoms x)
    (Ext.trace x ++ [ev]).

(** The status [updateStatus] publishes. *)
Definition status_of (notification_id : string) (status : NotificationStatus)
  (error : option string) (x : Ext.t) : StatusUpdate.t :=
  StatusUpdate.mk notification_id status (Ext.clock x) error.

(** The outer world after [updateStatus]: the status is emitted, and
    cached unless Redis refuses the write. *)
Definition after_status (notification_id : string)
  (status : NotificationStatus) (error : option string) (x : Ext.t) : Ext.t :=
  let u := status_of notification_id status error x in
  let key := "status:" +:+ notification_id in
  let x1 :=
    commanded (RedisSetEx key 3600 (DStatus u))
      (emitted (StatusEmit "email.status" u) x) in
  match fault_of x with
  | Some _ => x1
  | None => stored key (DStatus u) 3600 x1
  end.

(** ** Circuits *)

Section CircuitVocabulary.

Import CircuitBreakerService.

(** The circuit [getOrCreateCircuit] hands out. *)
Definition current (circuit_name : string) (w : World.t) : CircuitBreaker.t :=
  default fresh (World.circuits w !! circuit_name).

(** An OPEN circuit whose timeout has elapsed is put on probation. *)
Definition entered (c : CircuitBreaker.t) : CircuitBreaker.t :=
  match CircuitBreaker.state c with
  | OPEN =>
      CircuitBreaker.mk HALF_OPEN (CircuitBreaker.failure_count c) 0
        (CircuitBreaker.last_failure_time c)
        (CircuitBreaker.next_attempt_time c)
  | _ => c
  end.

Definition settle {T} (r : Res T) (x : Ext.t) (c : CircuitBreaker.t)
  : CircuitBreaker.t :=
  match r with
  | Ok _ => onSuccess c
  | Throw _ => onFailure (Ext.clock x) c
  end.

(** The call is rejected: the circuit is OPEN and its timeout pending. *)
Definition rejects (c : CircuitBreaker.t) (now : Z) : Prop :=
  CircuitBreaker.state c = OPEN /\ now < CircuitBreaker.next_attempt_time c.

(** The operation throws, whatever it is given. *)
Definition fails {T} (operation : Eff Ext.t T) : Prop :=
  forall x, exists e x', operation x = (Throw e, x').

(** One [execute] after the other; an operation may let time pass before
    it fails, so the calls need not follow each other at once. *)
Fixpoint execute_all {T} (operations : list (Eff Ext.t T))
  (circuit_name : string) (w : World.t) : World.t :=
  match operations with
  | [] => w
  | operation :: rest =>
      execute_all rest circuit_name (snd (execute operation circuit_name w))
  end.

End CircuitVocabulary.

(** ** The mail sender *)

(** The message [sendEmail] hands to the transporter. *)
Definition mail_of (env : Env.t) (payload : EmailPayload.t) : MailOptions.t :=
  MailOptions.mk
    (or_else (Env.EMAIL_FROM env) "noreply@notifications.com")
    (EmailPayload.to payload)
    (EmailPayload.subject payload)
    (EmailPayload.html payload)
    (or_else (EmailPayload.text payload)
       (Env.stripHtml env (EmailPayload.html payload)))
    (EmailPayload.correlationId payload).

(** What the protected operation returns, by the transporter's answer. *)
Definition send_result (env : Env.t) (payload : EmailPayload.t) (now : Z)
  : EmailSendResult.t :=
  match Env.transporter env (mail_of env payload) with
  | Ok messageId => EmailSendResult.mk true (Some messageId) None now
  | Throw e =>
      EmailSendResult.mk false None
        (Some (JsError.message e +:+ " (Retryable: "
               +:+ string_of_bool (EmailSender.isRetryableError e) +:+ ")"))
        now
  end.

Definition sent (env : Env.t) (payload : EmailPayload.t) (x : Ext.t) : Ext.t :=
  Ext.mk (Ext.clock x) (Ext.store x) (Ext.faults x) (Ext.randoms x)
    (Ext.trace x ++ [SendMail (mail_of env payload)]).

Fixpoint sendEmail_all (calls : list (Env.t * EmailPayload.t)) (w : World.t)
  : World.t :=
  match calls with
  | [] => w
  | (env, payload) :: rest =>
      sendEmail_all rest (snd (EmailSender.sendEmail env payload w))
  end.

(** ** The orchestrator and the consumer *)

(** The last two events of the trace are a FAILED status for this
    request and its cache write. *)
Definition ends_with_failed_status (request_id : string) (x : Ext.t)
  : Prop :=
  exists pre u,
    Ext.trace x
    = (pre ++ [StatusEmit "email.status" u;
               RedisSetEx ("status:" +:+ request_id) 3600 (DStatus u)])%list
    /\ StatusUpdate.status u = FAILED
    /\ StatusUpdate.notification_id u = request_id.

(** The outer world in which [deliver] looks the user up. *)
Definition at_lookup (payload : EmailNotificationPayload.t) (w : World.t)
  : Ext.t :=
  let request_id := EmailNotificationPayload.request_id payload in
  after_status request_id PENDING None
    (commanded (RedisGet (EmailService.key_of request_id)) (World.ext w)).

(** The events that settle a delivery: a FAILED status, an ack, a nack. *)
Definition settles (ev : Event) : bool :=
  match ev with
  | StatusEmit _ u =>
      match StatusUpdate.status u with
      | FAILED => true
      | _ => false
      end
  | Ack | Nack _ => true
  | _ => false
  end.

(** ** What a program leaves alone *)

(** [c] respects [P]: every run of [c] takes a state to one [P] relates
    it to. *)
Definition respects {S} (P : S -> S -> Prop) {A} (c : Eff S A) : Prop :=
  forall s r s', c s = (r, s') -> P s s'.

(** The outer world moves on: the trace grows at its end, and the retry
    record of [request_id] is as it was. *)
Definition evolves (request_id : string) (x x' : Ext.t) : Prop :=
  Ext.trace x `prefix_of` Ext.trace x'
  /\ Ext.store x' !! RetryService.key_of request_id
     = Ext.store x !! RetryService.key_of request_id.

Definition evolvesW (request_id : string) (w w' : World.t) : Prop :=
  evolves request_id (World.ext w) (World.ext w').

(** ** Retry records and backoff *)

(** The [attempt_count] Redis holds for a request: 0 without a live
    record. *)
Definition stored_attempt_count (request_id : string) (x : Ext.t) : nat :=
  match read_key (RetryService.key_of request_id) x with
  | Some (DRetry m) => RetryMetadata.attempt_count m
  | _ => 0%nat
  end.

(** What [getRetryCount] makes of the world it runs in. *)
Definition counted (request_id : string) (x : Ext.t) : option nat :=
  match fault_of x with
  | Some _ => Some 0%nat
  | None =>
      match read_key (RetryService.key_of request_id) x with
      | Some d => RetryService.attempt_count_of d
      | None => Some 0%nat
      end
  end.

Section BackoffVocabulary.

Import Binary64.

Local Open Scope Q_scope.

(** The next result of [Math.random()]. *)
Definition next_random (x : Ext.t) : Q :=
  match Ext.randoms x with
  | r :: _ => r
  | [] => 0
  end.

(** The delays [base_delay] takes from the first attempt on. *)
Definition delays : list Z :=
  [1000; 2000; 4000; 8000; 16000; 32000; 64000; 128000; 256000; 300000]%Z.

Definition delay_Z (attempt_count : nat) : Z :=
  Z.min (1000 * 2 ^ (Z.of_nat attempt_count - 1)) 300000.

(** The roundings of [jittered] that are exact on a delay. *)
Definition exact_on (D : Z) : bool :=
  Qeq_bool (round (inject_Z D * lit_0_2)) (inject_Z (D / 5))
  && Qeq_bool (round 0) 0
  && Qeq_bool (round (inject_Z (D / 5))) (inject_Z (D / 5))
  && Qeq_bool (round (inject_Z D)) (inject_Z D)
  && Qeq_bool (round (inject_Z (D + D / 5))) (inject_Z (D + D / 5))
  && Qeq_bool (inject_Z (D + D / 5)) (inject_Z D + (1 # 5) * inject_Z D)
  && (0 <? D)%Z.

End BackoffVocabulary.

(** ** Reading and writing Redis *)

(** The outer world once [key] holds [d] for good. *)
Definition stored_forever (key : string) (d : Doc) (x : Ext.t) : Ext.t :=
  Ext.mk (Ext.clock x) (<[key := Entry.mk d None]> (Ext.store x))
    (Ext.faults x) (Ext.randoms x) (Ext.trace x).

(** The outer world once [key] is deleted. *)
Definition deleted (key : string) (x : Ext.t) : Ext.t :=
  Ext.mk (Ext.clock x) (delete key (Ext.store x))
    (Ext.faults x) (Ext.randoms x) (Ext.trace x).

(** [set] chooses a plain SET for a missing or zero [ttl]. *)
Definition expiring (ttl : option Z) : option Z :=
  match ttl with
  | Some t => if t =? 0 then None else Some t
  | None => None
  end.

(** Whether a value written at [written] with [ttl] can be read at [now]. *)
Definition readable (ttl : option Z) (written now : Z) : bool :=
  match expiring ttl with
  | Some t => now <? written + 1000 * t
  | None => true
  end.

(** ** Retry records as [recordRetry] builds them *)

(** What [recordRetry] finds under the key: [null] when the read fails. *)
Definition found (request_id : string) (x : Ext.t) : option Doc :=
  match fault_of x with
  | Some _ => None
  | None => read_key (RetryService.key_of request_id) x
  end.

(** The record [recordRetry] writes; [None] when it throws on a document
    that has no [errors]. *)
Definition retry_record (request_id error : string) (x : Ext.t)
  : option RetryMetadata.t :=
  let now := Ext.clock x in
  let next count :=
    now + RetryService.jittered (RetryService.base_delay count)
            (next_random x) in
  match found request_id x with
  | Some (DRetry m) =>
      let count := S (RetryMetadata.attempt_count m) in
      Some (RetryMetadata.mk (RetryMetadata.request_id m) count
              (RetryMetadata.first_attempt_at m) now (next count)
              (RetryMetadata.errors m ++ [error]))
  | Some _ => None
  | None =>
      Some (RetryMetadata.mk request_id 1 now now (next 1%nat) [error])
  end.

(** The outer world once [Math.random()] has been called. *)
Definition drawn (x : Ext.t) : Ext.t :=
  Ext.mk (Ext.clock x) (Ext.store x) (Ext.faults x) (tail (Ext.randoms x))
    (Ext.trace x).

(** One [recordRetry] per error, in order; [between] is what happens to
    the outer world before each call. *)
Fixpoint recordRetry_all (request_id : string)
  (calls : list ((Ext.t -> Ext.t) * string)) (x : Ext.t) : Ext.t :=
  match calls with
  | [] => x
  | (between, error) :: rest =>
      recordRetry_all request_id rest
        (snd (RetryService.recordRetry request_id error (between x)))
  end.

(** What may happen before a call for the count to go on: time moves on by
    less than the 24 hours a record lives, nothing else writes or deletes
    under the key, and Redis is up when the call is made. *)
Definition keeps_record (request_id : string) (between : Ext.t -> Ext.t)
  : Prop :=
  forall x,
    Ext.faults (between x) = []
    /\ Ext.store (between x) !! RetryService.key_of request_id
       = Ext.store x !! RetryService.key_of request_id
    /\ Ext.clock x <= Ext.clock (between x) < Ext.clock x + 86400000.

(** What happens before a call that comes too late: as above, but 24
    hours or more have gone by. *)
Definition outlasts_record (request_id : string) (between : Ext.t -> Ext.t)
  : Prop :=
  forall x,
    Ext.faults (between x) = []
    /\ Ext.store (between x) !! RetryService.key_of request_id
       = Ext.store x !! RetryService.key_of request_id
    /\ Ext.clock x + 86400000 <= Ext.clock (between x).

(** The record [recordRetry] has just written: it expires 24 hours after
    the call. *)
Definition just_recorded (request_id : string) (m : RetryMetadata.t)
  (x : Ext.t) : Prop :=
  Ext.faults x = []
  /\ Ext.store x !! RetryService.key_of request_id
     = Some (Entry.mk (DRetry m) (Some (Ext.clock x + 86400000))).

(** ** The invariant of a circuit *)

Section CircuitInvariantVocabulary.

Import CircuitBreakerService.

(** What every circuit satisfies, however the calls of [execute] overlap. *)
Definition sound (c : CircuitBreaker.t) : Prop :=
  match CircuitBreaker.state c with
  | CLOSED =>
      (CircuitBreaker.failure_count c < FAILURE_THRESHOLD)%nat
      /\ CircuitBreaker.success_count c = 0%nat
  | OPEN =>
      CircuitBreaker.success_count c = 0%nat
      /\ is_Some (CircuitBreaker.last_failure_time c)
  | HALF_OPEN =>
      (CircuitBreaker.success_count c < SUCCESS_THRESHOLD)%nat
      /\ is_Some (CircuitBreaker.last_failure_time c)
  end.

(** The pieces of [execute] that run without interruption: what comes
    before [await operation()], and what follows the operation's return
    or its throw.  Other calls run while the operation is awaited.  The
    circuit a piece writes is the one the map holds under its name: no
    [resetCircuit] comes in between. *)
Inductive Segment : Type :=
| Enters (circuit_name : string)
| Returns (circuit_name : string)
| Throws (circuit_name : string).

Definition segment (s : Segment) : Eff World.t unit :=
  match s with
  | Enters circuit_name => enter circuit_name
  | Returns circuit_name => update circuit_name onSuccess
  | Throws circuit_name =>
      let* now := lift Date_now in
      update circuit_name (onFailure now)
  end.

(** Segments of any calls on any circuits, in the order they run;
    [between] is what happens to the outer world before each. *)
Fixpoint interleaved (segments : list ((Ext.t -> Ext.t) * Segment))
  (w : World.t) : World.t :=
  match segments with
  | [] => w
  | (between, s) :: rest =>
      interleaved rest
        (snd (segment s
                (World.mk (between (World.ext w)) (World.circuits w))))
  end.

(** The segments of one call that nothing interrupts. *)
Definition segments_of {T} (operation : Eff Ext.t T) (circuit_name : string)
  (w : World.t) : list ((Ext.t -> Ext.t) * Segment) :=
  let c := current circuit_name w in
  let settlement :=
    let (r, x) := operation (World.ext w) in
    [(fun _ : Ext.t => x,
      match r with
      | Ok _ => Returns circuit_name
      | Throw _ => Throws circuit_name
      end)] in
  (fun x : Ext.t => x, Enters circuit_name)
  :: match CircuitBreaker.state c with
     | OPEN =>
         if Ext.clock (World.ext w) <? CircuitBreaker.next_attempt_time c
         then []
         else settlement
     | _ => settlement
     end.

End CircuitInvariantVocabulary.

(** ** Retryable errors and plain text *)

(** [needle] occurs in [hay]. *)
Definition occurs_in (needle hay : string) : Prop :=
  exists before after, hay = before +:+ needle +:+ after.

(** [/<[^>]*>/.test(s)]: some [<] of [s] has a [>] behind it. *)
Fixpoint has_tag (s : list N) : bool :=
  match s with
  | [] => false
  | c :: rest => (c =? 60)%N && existsb (N.eqb 62) rest || has_tag rest
  end.

(** [s] does not begin with white space. *)
Definition starts_clean (s : list N) : bool :=
  match s with
  | [] => true
  | c :: _ => negb (EmailSender.isWhiteSpace c)
  end.

(** [s] neither begins nor ends with white space. *)
Definition trimmed (s : list N) : bool :=
  starts_clean s && starts_clean (rev s).

(** ** Cache-aside lookups *)

(** What a cache lookup answers: [null] when the read fails. *)
Definition cached (key : string) (x : Ext.t) : option Doc :=
  match fault_of x with
  | Some _ => None
  | None => read_key key x
  end.

(** What the [catch] clause of [getUserById] makes of an error. *)
Definition user_error (e : JsError.t) : Res (option Doc) :=
  match JsError.kind e with
  | AxiosError (Some 404) => Ok None
  | _ => Throw e
  end.

(** The outer world once the cache has missed and the service is asked. *)
Definition asked (key : string) (request : Event) (x : Ext.t) : Ext.t :=
  emitted request (commanded (RedisGet key) x).

(** What a cache-aside lookup does after a miss, given the service's
    answer [fetched] and what becomes of an error. *)
Definition fetch_and_cache {T} (key : string) (request : Event) (ttl : Z)
  (doc : T -> Doc) (fetched : Res T)
  (on_error : JsError.t -> Res (option Doc)) (x : Ext.t)
  : Res (option Doc) * Ext.t :=
  let x1 := asked key request x in
  match fetched with
  | Throw e => (on_error e, x1)
  | Ok v =>
      let x2 := commanded (RedisSetEx key ttl (doc v)) x1 in
      match fault_of x1 with
      | Some e => (on_error e, x2)
      | None => (Ok (Some (doc v)), stored key (doc v) ttl x2)
      end
  end.

(** ** The paths of a delivery *)

(** What the consumer does with a result: the world after the ack, or
    after [shouldRetry] and the nack. *)
Definition settled (payload : EmailNotificationPayload.t)
  (result : EmailSendResult.t) (w : World.t) : World.t :=
  let request_id := EmailNotificationPayload.request_id payload in
  if EmailSendResult.success result then
    World.mk (emitted Ack (World.ext w)) (World.circuits w)
  else
    World.mk
      (emitted
         (Nack (RetryService.js_lt (counted request_id (World.ext w))
                  EmailService.MAX_RETRY_ATTEMPTS))
         (commanded (RedisGet (RetryService.key_of request_id)) (World.ext w)))
      (World.circuits w).

(** The message [processEmailNotification] hands to the sender. *)
Definition payload_of (payload : EmailNotificationPayload.t)
  (user : UserData.t) (rendered : Rendered.t) : EmailPayload.t :=
  EmailPayload.mk (UserData.email user) (Rendered.subject rendered)
    (Rendered.html_body rendered) (Rendered.text_body rendered)
    (EmailNotificationPayload.request_id payload).

(** ** Calls to the collaborators *)

(** The collaborator an event goes to. *)
Inductive Channel : Type :=
| Redis
| UserApi
| TemplateApi
| Smtp
| StatusQueue
| Broker.

Definition channel (ev : Event) : Channel :=
  match ev with
  | RedisGet _ | RedisSetEx _ _ _ | RedisSet _ _ | RedisDel _ => Redis
  | HttpGetUser _ => UserApi
  | HttpGetTemplate _ => TemplateApi
  | SendMail _ => Smtp
  | StatusEmit _ _ => StatusQueue
  | Ack | Nack _ => Broker
  end.

Definition Channel_eqb (a b : Channel) : bool :=
  match a, b with
  | Redis, Redis | UserApi, UserApi | TemplateApi, TemplateApi
  | Smtp, Smtp | StatusQueue, StatusQueue | Broker, Broker => true
  | _, _ => false
  end.

(** How many of the events go to [c]. *)
Definition calls_to (c : Channel) (evs : list Event) : nat :=
  length (List.filter (fun ev => Channel_eqb (channel ev) c) evs).

(** How many calls of each collaborator a program may make. *)
Definition Budget : Type := Channel -> nat.

Definition no_calls : Budget := fun _ => 0%nat.

Definition one_call (c : Channel) : Budget :=
  fun c' => if Channel_eqb c c' then 1%nat else 0%nat.

Definition both (b1 b2 : Budget) : Budget := fun c => (b1 c + b2 c)%nat.

Definition rest_of (b1 b2 : Budget) : Budget := fun c => (b1 c - b2 c)%nat.

(** The trace has grown by events within the budget. *)
Definition within (b : Budget) (x x' : Ext.t) : Prop :=
  exists evs,
    Ext.trace x' = (Ext.trace x ++ evs)%list
    /\ forall c, (calls_to c evs <= b c)%nat.

Definition withinW (b : Budget) (w w' : World.t) : Prop :=
  within b (World.ext w) (World.ext w').

Definition status_budget : Budget := both (one_call Redis) (one_call StatusQueue).

Definition lookup_budget (api : Channel) : Budget :=
  both (both (one_call Redis) (one_call api)) (one_call Redis).

(** What [deliver] may spend: the PENDING status, the two lookups, the
    mail, and the DELIVERED status with the record. *)
Definition deliver_budget : Budget :=
  both status_budget
    (both (lookup_budget UserApi)
       (both (lookup_budget TemplateApi)
          (both (one_call Smtp) (both status_budget (one_call Redis))))).

Definition process_budget : Budget :=
  both (both (one_call Redis) deliver_budget) status_budget.

(** A relation graded by budgets: what is spent adds up. *)
Class Graded {S : Type} (R : Budget -> S -> S -> Prop) : Prop := {
  graded_refl : forall b s, R b s s;
  graded_trans :
    forall b1 b2 b s1 s2 s3,
      (forall c, (b1 c + b2 c <= b c)%nat) ->
      R b1 s1 s2 -> R b2 s2 s3 -> R b s1 s3
}.

(** ** Sample collaborators, requests and worlds *)

Module Sample.

Definition ann : UserData.t :=
  UserData.mk "u1" "Ann" "ann@example.com" (Preferences.mk true false).

Definition welcome : EmailTemplate.t :=
  EmailTemplate.mk "1" "welcome" "Welcome" "<p>Hello</p>" None [] "en" 1.

Definition render (t : EmailTemplate.t) (_ : Variables) : Res Rendered.t :=
  Ok (Rendered.mk (EmailTemplate.subject t) (EmailTemplate.html_body t)
        (EmailTemplate.text_body t)).

Definition not_found : JsError.t :=
  JsError.mk "Request failed with status code 404" None
    (AxiosError (Some 404)).

Definition refused : JsError.t :=
  JsError.mk "connect ECONNREFUSED 127.0.0.1:587" (Some "ECONNREFUSED")
    PlainError.

Definition redis_down : JsError.t :=
  JsError.mk "The client is closed" None PlainError.

(** Every collaborator answers. *)
Definition env : Env.t :=
  Env.mk None (fun _ => Ok ann) (fun _ => Ok welcome) (fun _ => Ok "m1")
    render (fun html => html).

(** The user service answers 404. *)
Definition env_no_user : Env.t :=
  Env.mk None (fun _ => Throw not_found) (fun _ => Ok welcome)
    (fun _ => Ok "m1") render (fun html => html).

(** The user service is unreachable. *)
Definition env_user_down : Env.t :=
  Env.mk None (fun _ => Throw refused) (fun _ => Ok welcome)
    (fun _ => Ok "m1") render (fun html => html).

(** Rendering throws. *)
Definition env_render_throws : Env.t :=
  Env.mk None (fun _ => Ok ann) (fun _ => Ok welcome) (fun _ => Ok "m1")
    (fun _ _ => Throw (Error "Invalid regular expression"))
    (fun html => html).

(** The SMTP server refuses the connection. *)
Definition env_smtp_down : Env.t :=
  Env.mk None (fun _ => Ok ann) (fun _ => Ok welcome) (fun _ => Throw refused)
    render (fun html => html).

Definition r1 : EmailNotificationPayload.t :=
  EmailNotificationPayload.mk "u1" "welcome" [] "r1" 1.

(** A fresh process at time 1000: empty store, no circuit, Redis up. *)
Definition world : World.t := World.mk (Ext.mk 1000 ∅ [] [] []) ∅.

(** The "email_send" circuit is OPEN until time 61000. *)
Definition world_breaker_open : World.t :=
  World.mk (Ext.mk 1000 ∅ [] [] [])
    {[ "email_send" := CircuitBreaker.mk OPEN 5 0 (Some 1000) 61000 ]}.

(** The circuit's timeout has elapsed. *)
Definition world_breaker_due : World.t :=
  World.mk (Ext.mk 61000 ∅ [] [] [])
    {[ "email_send" := CircuitBreaker.mk OPEN 5 0 (Some 1000) 61000 ]}.

(** The circuit is on probation and has counted no success. *)
Definition world_half_open : World.t :=
  World.mk (Ext.mk 61000 ∅ [] [] [])
    {[ "email_send" := CircuitBreaker.mk HALF_OPEN 5 0 (Some 1000) 61000 ]}.

(** An operation that throws. *)
Definition boom : Eff Ext.t unit := throw (Error "boom").

Definition mail : EmailPayload.t :=
  EmailPayload.mk "ann@example.com" "Welcome" "<p>Hello</p>" None "r1".

(** Request "r1" has been delivered, and the next Redis command fails. *)
Definition world_delivered_redis_out : World.t :=
  let w := snd (EmailService.processEmailNotification env r1 world) in
  World.mk
    (Ext.mk (Ext.clock (World.ext w)) (Ext.store (World.ext w))
       [Some redis_down] [] (Ext.trace (World.ext w)))
    (World.circuits w).

(** [Math.random()] returns a third next. *)
Definition one_third : Ext.t := Ext.mk 1000 ∅ [] [1 # 3]%Q [].

(** [recordRetry] has run twice, and three times, for request "r1". *)
Definition after_two_failures : Ext.t :=
  snd (RetryService.recordRetry "r1" "refused"
         (snd (RetryService.recordRetry "r1" "refused" (World.ext world)))).

Definition after_three_failures : Ext.t :=
  snd (RetryService.recordRetry "r1" "refused" after_two_failures).

Definition status (s : NotificationStatus) (error : option string)
  : StatusUpdate.t :=
  StatusUpdate.mk "r1" s 1000 error.

(** The same world at another time. *)
Definition at_time (now : Z) (x : Ext.t) : Ext.t :=
  Ext.mk now (Ext.store x) (Ext.faults x) (Ext.randoms x) (Ext.trace x).

(** Ann has been cached at time 1000. *)
Definition ann_cached : Ext.t :=
  snd (UserService.getUserById env "u1" (World.ext world)).

(** The next Redis command fails. *)
Definition redis_out : Ext.t := Ext.mk 1000 ∅ [Some redis_down] [] [].

(** The next Redis command succeeds, the one after it fails. *)
Definition redis_going_out : Ext.t :=
  Ext.mk 1000 ∅ [None; Some redis_down] [] [].

(** Bob has turned email notifications off. *)
Definition bob : UserData.t :=
  UserData.mk "u1" "Bob" "bob@example.com" (Preferences.mk false true).

Definition env_preferences_off : Env.t :=
  Env.mk None (fun _ => Ok bob) (fun _ => Ok welcome) (fun _ => Ok "m1")
    render (fun html => html).

(** The template service is unreachable. *)
Definition env_template_down : Env.t :=
  Env.mk None (fun _ => Ok ann) (fun _ => Throw refused) (fun _ => Ok "m1")
    render (fun html => html).

(** Redis fails at the eighth command: the write of the processed
    record. *)
Definition world_record_fails : World.t :=
  World.mk (Ext.mk 1000 ∅ (replicate 7 None ++ [Some redis_down]) [] []) ∅.

(** Where request "r1" stands once the user is found, and once the
    template is. *)
Definition user_found (env : Env.t) (w : World.t) : Ext.t :=
  snd (UserService.getUserById env "u1" (at_lookup r1 w)).

Definition template_found (env : Env.t) (w : World.t) : Ext.t :=
  snd (TemplateService.getTemplate env "welcome" (user_found env w)).

Definition rendered : Rendered.t := Rendered.mk "Welcome" "<p>Hello</p>" None.

(** An hour goes by, and Redis is up. *)
Definition an_hour_later (x : Ext.t) : Ext.t :=
  Ext.mk (Ext.clock x + 3600000) (Ext.store x) [] (Ext.randoms x)
    (Ext.trace x).

(** Two days go by, and Redis is up. *)
Definition two_days_later (x : Ext.t) : Ext.t :=
  Ext.mk (Ext.clock x + 172800000) (Ext.store x) [] (Ext.randoms x)
    (Ext.trace x).


(** A call on the circuit "smtp" is awaiting its operation while five
    others enter and fail; then its operation returns. *)
Definition overlap : list ((Ext.t -> Ext.t) * Segment) :=
  (fun x => x, Enters "smtp")
  :: concat (replicate 5 [(fun x : Ext.t => x, Enters "smtp");
                          (fun x : Ext.t => x, Throws "smtp")])
  ++ [(fun x => x, Returns "smtp")].

(** The code units of ["  <b>Hi</b> there "] and of ["a < b"]. *)
Definition marked_up : list N :=
  [32; 32; 60; 98; 62; 72; 105; 60; 47; 98; 62; 32; 116; 104; 101; 114; 101;
   32]%N.

Definition comparison : list N := [32; 97; 32; 60; 32; 98]%N.

End Sample.

(** * Properties *)

(** ** The Redis adapter *)

Section Redis.

Lemma get_spec key x :
  RedisService.get key x
  = (Ok (match fault_of x with
         | Some _ => None
         | None => read_key key x
         end),
     commanded (RedisGet key) x).
Proof.
  destruct x as [clock store faults randoms trace].
  unfold RedisService.get, client_get, client_command, try_catch, bind,
    emit_event, modify, next_fault, gets, throw, ret, fault_of, commanded.
  simpl. destruct faults as [|[e|] faults]; reflexivity.
Qed.

Lemma set_spec key d ttl x :
  ttl <> 0 ->
  RedisService.set key d (Some ttl) x
  = match fault_of x with
    | Some e => (Throw e, commanded (RedisSetEx key ttl d) x)
    | None => (Ok tt, stored key d ttl (commanded (RedisSetEx key ttl d) x))
    end.
Proof.
  intros Httl. destruct x as [clock store faults randoms trace].
  unfold RedisService.set. apply Z.eqb_neq in Httl. rewrite Httl.
  unfold client_setEx, client_command, try_catch, bind, emit_event, modify,
    next_fault, Date_now, gets, set_store, throw, ret, fault_of, commanded,
    stored.
  simpl. destruct faults as [|[e|] faults]; reflexivity.
Qed.

Lemma read_key_commanded key ev x :
  read_key key (commanded ev x) = read_key key x.
Proof. reflexivity. Qed.

Lemma read_key_stored key d ttl x :
  0 < ttl -> read_key key (stored key d ttl x) = Some d.
Proof.
  intros Httl. unfold read_key, stored. simpl. rewrite lookup_insert_eq.
  unfold live. simpl.
  assert (H : (Ext.clock x <? Ext.clock x + 1000 * ttl) = true)
    by (apply Z.ltb_lt; lia).
  by rewrite H.
Qed.

(** [updateStatus] never throws. *)
Lemma updateStatus_spec notification_id status error x :
  EmailService.updateStatus notification_id status error x
  = (Ok tt, after_status notification_id status error x).
Proof.
  unfold EmailService.updateStatus, bind, Date_now, gets, try_catch.
  unfold emit_event at 1. unfold modify.
  fold (status_of notification_id status error x).
  fold (emitted (StatusEmit "email.status"
                   (status_of notification_id status error x)) x).
  rewrite set_spec by lia. unfold after_status.
  replace (fault_of (emitted _ x)) with (fault_of x) by reflexivity.
  destruct (fault_of x); reflexivity.
Qed.

End Redis.

(** ** The circuit breaker as a transition on one circuit *)

Section Circuit.

Import CircuitBreakerService.

Lemma enter_rejects circuit_name w :
  rejects (current circuit_name w) (Ext.clock (World.ext w)) ->
  enter circuit_name w
  = (Throw (Error ("Circuit breaker is OPEN for " +:+ circuit_name)), w).
Proof.
  destruct w as [x cs]. intros [Hst Hlt]. unfold current in *.
  unfold enter, bind, getOrCreateCircuit. simpl in *.
  destruct (cs !! circuit_name) as [c|] eqn:Hc; simpl in *.
  - rewrite Hst. unfold lift, Date_now, gets. simpl.
    apply Z.ltb_lt in Hlt. rewrite Hlt. reflexivity.
  - discriminate.
Qed.

Lemma enter_passes circuit_name w :
  ~ rejects (current circuit_name w) (Ext.clock (World.ext w)) ->
  exists w',
    enter circuit_name w = (Ok tt, w')
    /\ World.ext w' = World.ext w
    /\ World.circuits w' !! circuit_name
       = Some (entered (current circuit_name w)).
Proof.
  destruct w as [x cs]. intros Hpass. unfold current in *.
  unfold enter, bind, getOrCreateCircuit. simpl in *.
  destruct (cs !! circuit_name) as [c|] eqn:Hc; simpl in *.
  - unfold entered.
    destruct (CircuitBreaker.state c) eqn:Hst.
    + eexists; repeat split; eauto.
    + unfold lift, Date_now, gets. simpl.
      destruct (Ext.clock x <? CircuitBreaker.next_attempt_time c) eqn:Hlt.
      * exfalso. apply Hpass. split; [done | by apply Z.ltb_lt].
      * eexists; repeat split. simpl.
        rewrite lookup_alter_eq, Hc. reflexivity.
    + eexists; repeat split; eauto.
  - eexists; repeat split. simpl. by rewrite lookup_insert_eq.
Qed.

Lemma run_settles {T} (operation : Eff Ext.t T) circuit_name w c r x :
  World.circuits w !! circuit_name = Some c ->
  operation (World.ext w) = (r, x) ->
  exists w',
    run operation circuit_name w = (r, w')
    /\ World.ext w' = x
    /\ World.circuits w' !! circuit_name = Some (settle r x c).
Proof.
  destruct w as [x0 cs]. simpl. intros Hc Hop.
  unfold run, try_catch, bind, lift, update, modify, Date_now, gets, throw, ret.
  simpl. rewrite Hop. destruct r as [a|e]; simpl.
  - eexists; repeat split. simpl. by rewrite lookup_alter_eq, Hc.
  - eexists; repeat split. simpl. by rewrite lookup_alter_eq, Hc.
Qed.

(** [execute] on a call that is let through. *)
Lemma execute_through {T} (operation : Eff Ext.t T) circuit_name w r x :
  ~ rejects (current circuit_name w) (Ext.clock (World.ext w)) ->
  operation (World.ext w) = (r, x) ->
  exists w',
    execute operation circuit_name w = (r, w')
    /\ World.ext w' = x
    /\ World.circuits w' !! circuit_name
       = Some (settle r x (entered (current circuit_name w))).
Proof.
  intros Hpass Hop.
  destruct (enter_passes circuit_name w Hpass) as (w1 & Hadm & Hext & Hc1).
  unfold execute, bind. rewrite Hadm.
  apply run_settles; [done | by rewrite Hext].
Qed.

(** [execute] on a rejected call: nothing runs, nothing changes. *)
Lemma execute_rejected {T} (operation : Eff Ext.t T) circuit_name w :
  rejects (current circuit_name w) (Ext.clock (World.ext w)) ->
  execute operation circuit_name w
  = (Throw (Error ("Circuit breaker is OPEN for " +:+ circuit_name)), w).
Proof.
  intros Hrej. unfold execute, bind. by rewrite enter_rejects.
Qed.

End Circuit.

(** ** Runs of a circuit *)

Section CircuitRuns.

Import CircuitBreakerService.

Context {T : Type}.

Lemma current_lookup circuit_name w c :
  World.circuits w !! circuit_name = Some c -> current circuit_name w = c.
Proof. unfold current. by intros ->. Qed.

Lemma not_rejects_closed c now :
  CircuitBreaker.state c = CLOSED -> ~ rejects c now.
Proof. intros H [H' _]. congruence. Qed.

Lemma not_rejects_half_open c now :
  CircuitBreaker.state c = HALF_OPEN -> ~ rejects c now.
Proof. intros H [H' _]. congruence. Qed.

Lemma not_rejects_elapsed c now :
  CircuitBreaker.next_attempt_time c <= now -> ~ rejects c now.
Proof. intros H [_ H']. lia. Qed.

(** A failure reported to a CLOSED circuit. *)
Lemma closed_failure (operation : Eff Ext.t T) circuit_name w e x :
  CircuitBreaker.state (current circuit_name w) = CLOSED ->
  operation (World.ext w) = (Throw e, x) ->
  exists w',
    execute operation circuit_name w = (Throw e, w')
    /\ World.ext w' = x
    /\ current circuit_name w'
       = onFailure (Ext.clock x) (current circuit_name w).
Proof.
  intros Hst Hop.
  destruct (execute_through operation circuit_name w _ _
              (not_rejects_closed _ _ Hst) Hop) as (w' & Hex & Hext & Hc).
  exists w'. repeat split; [done..|].
  rewrite (current_lookup _ _ _ Hc). unfold entered. by rewrite Hst.
Qed.

(** Fewer than [FAILURE_THRESHOLD] failures leave the circuit CLOSED. *)
Lemma closed_failures_count (operations : list (Eff Ext.t T)) circuit_name :
  forall w,
    CircuitBreaker.state (current circuit_name w) = CLOSED ->
    Forall fails operations ->
    (CircuitBreaker.failure_count (current circuit_name w)
     + length operations < FAILURE_THRESHOLD)%nat ->
    let w' := execute_all operations circuit_name w in
    CircuitBreaker.state (current circuit_name w') = CLOSED
    /\ CircuitBreaker.failure_count (current circuit_name w')
       = (CircuitBreaker.failure_count (current circuit_name w)
          + length operations)%nat.
Proof.
  induction operations as [|operation rest IH]; intros w Hst Hall Hlt; simpl.
  - split; [done | lia].
  - inversion Hall as [|? ? Hop Hrest]; subst.
    destruct (Hop (World.ext w)) as (e & x & Hrun).
    destruct (closed_failure operation circuit_name w e x Hst Hrun)
      as (w' & Hex & Hext & Hc).
    rewrite Hex. simpl in *.
    assert (Hstep : CircuitBreaker.state (current circuit_name w') = CLOSED
            /\ CircuitBreaker.failure_count (current circuit_name w')
               = S (CircuitBreaker.failure_count (current circuit_name w))).
    { rewrite Hc. unfold onFailure. rewrite Hst.
      destruct (FAILURE_THRESHOLD
                <=? S (CircuitBreaker.failure_count (current circuit_name w)))%nat
        eqn:Hle; simpl.
      - apply Nat.leb_le in Hle. lia.
      - done. }
    destruct Hstep as [Hst' Hfc'].
    destruct (IH w' Hst' Hrest) as [IH1 IH2]; [lia|].
    split; [done | lia].
Qed.

End CircuitRuns.

Section CircuitOpening.

Import CircuitBreakerService.

Context {T : Type}.

Lemma execute_all_app (l1 l2 : list (Eff Ext.t T)) circuit_name w :
  execute_all (l1 ++ l2) circuit_name w
  = execute_all l2 circuit_name (execute_all l1 circuit_name w).
Proof. revert w. induction l1 as [|o l1 IH]; intros w; simpl; [done | apply IH]. Qed.

(** C4. A circuit that starts CLOSED with no failure counted stays CLOSED
    through four consecutive failures and is OPEN after the fifth, with
    [next_attempt_time] 60000 ms after the time of that failure; an OPEN
    circuit whose [next_attempt_time] is still ahead makes [execute] throw
    "Circuit breaker is OPEN for <name>" without running the operation
    (the world is unchanged, whatever the operation is); a success
    reported to a CLOSED circuit leaves it CLOSED with [failure_count]
    0. *)
Theorem breaker_opens_after_five_failures_and_rejects
  (circuit_name : string) (w : World.t)
  (operations : list (Eff Ext.t T)) (operation : Eff Ext.t T) :
  let c := current circuit_name w in
  (CircuitBreaker.state c = CLOSED ->
   CircuitBreaker.failure_count c = 0%nat ->
   Forall fails operations ->
   length operations = 5%nat ->
   (forall n, (n < 5)%nat ->
      CircuitBreaker.state
        (current circuit_name
           (execute_all (take n operations) circuit_name w)) = CLOSED)
   /\ let w' := execute_all operations circuit_name w in
      CircuitBreaker.state (current circuit_name w') = OPEN
      /\ CircuitBreaker.next_attempt_time (current circuit_name w')
         = Ext.clock (World.ext w') + 60000)
  /\ (CircuitBreaker.state c = OPEN ->
      Ext.clock (World.ext w) < CircuitBreaker.next_attempt_time c ->
      execute operation circuit_name w
      = (Throw (Error ("Circuit breaker is OPEN for " +:+ circuit_name)), w))
  /\ (CircuitBreaker.state c = CLOSED ->
      forall a x, operation (World.ext w) = (Ok a, x) ->
      exists w',
        execute operation circuit_name w = (Ok a, w')
        /\ World.ext w' = x
        /\ CircuitBreaker.state (current circuit_name w') = CLOSED
        /\ CircuitBreaker.failure_count (current circuit_name w') = 0%nat).
Proof.
  intros c. subst c. split; [|split].
  - intros Hst Hfc Hall Hlen. split.
    + intros n Hn.
      apply closed_failures_count; [done | by apply Forall_take |].
      rewrite Hfc, length_take. unfold FAILURE_THRESHOLD. lia.
    + rewrite <- (take_drop 4 operations), execute_all_app.
      destruct (closed_failures_count (take 4 operations) circuit_name w)
        as [Hst4 Hfc4]; [done | by apply Forall_take | |].
      { rewrite Hfc, length_take. unfold FAILURE_THRESHOLD. lia. }
      rewrite Hfc, length_take, Hlen in Hfc4. simpl in Hfc4.
      set (w4 := execute_all (take 4 operations) circuit_name w) in *.
      destruct (drop 4 operations) as [|o5 [|]] eqn:Hdrop.
      * apply (f_equal length) in Hdrop. rewrite length_drop in Hdrop.
        simpl in Hdrop. lia.
      * assert (Ho5 : fails o5).
        { assert (Hd : Forall fails (drop 4 operations)) by by apply Forall_drop.
          rewrite Hdrop in Hd. by inversion Hd. }
        destruct (Ho5 (World.ext w4)) as (e & x & Hrun).
        destruct (closed_failure o5 circuit_name w4 e x Hst4 Hrun)
          as (w5 & Hex & Hext & Hc).
        simpl. rewrite Hex. simpl. rewrite Hc, Hext.
        unfold onFailure. rewrite Hst4, Hfc4. simpl. done.
      * apply (f_equal length) in Hdrop. rewrite length_drop in Hdrop.
        simpl in Hdrop. lia.
  - intros Hst Hlt. by apply execute_rejected.
  - intros Hst a x Hop.
    destruct (execute_through operation circuit_name w _ _
                (not_rejects_closed _ _ Hst) Hop) as (w' & Hex & Hext & Hc).
    exists w'. repeat split; [done..| |];
      rewrite (current_lookup _ _ _ Hc); unfold entered; rewrite Hst;
      simpl; unfold onSuccess; simpl; by rewrite Hst.
Qed.

End CircuitOpening.

Section CircuitRecovery.

Import CircuitBreakerService.

Context {T : Type}.

(** C5. An OPEN circuit whose [next_attempt_time] has been reached: the
    first half of [execute] puts it HALF_OPEN with [success_count] 0, and
    the operation then runs in that state ([execute] returns what the
    operation returns and leaves the outer world as the operation leaves
    it).  A HALF_OPEN circuit that has counted no success is still
    HALF_OPEN after one success, and any HALF_OPEN circuit is CLOSED with
    both counters 0 after two consecutive successes; one failure puts a
    HALF_OPEN circuit back OPEN with [next_attempt_time] 60000 ms after
    the time of the failure. *)
Theorem breaker_probation_and_recovery
  (circuit_name : string) (w : World.t)
  (operation second : Eff Ext.t T) :
  let c := current circuit_name w in
  (CircuitBreaker.state c = OPEN ->
   CircuitBreaker.next_attempt_time c <= Ext.clock (World.ext w) ->
   exists w1,
     enter circuit_name w = (Ok tt, w1)
     /\ World.ext w1 = World.ext w
     /\ CircuitBreaker.state (current circuit_name w1) = HALF_OPEN
     /\ CircuitBreaker.success_count (current circuit_name w1) = 0%nat
     /\ execute operation circuit_name w = run operation circuit_name w1
     /\ fst (execute operation circuit_name w) = fst (operation (World.ext w))
     /\ World.ext (snd (execute operation circuit_name w))
        = snd (operation (World.ext w)))
  /\ (CircuitBreaker.state c = HALF_OPEN ->
      forall a1 x1, operation (World.ext w) = (Ok a1, x1) ->
      let w1 := snd (execute operation circuit_name w) in
      (CircuitBreaker.success_count c = 0%nat ->
       CircuitBreaker.state (current circuit_name w1) = HALF_OPEN
       /\ CircuitBreaker.success_count (current circuit_name w1) = 1%nat)
      /\ forall a2 x2, second x1 = (Ok a2, x2) ->
         let w2 := snd (execute second circuit_name w1) in
         CircuitBreaker.state (current circuit_name w2) = CLOSED
         /\ CircuitBreaker.failure_count (current circuit_name w2) = 0%nat
         /\ CircuitBreaker.success_count (current circuit_name w2) = 0%nat)
  /\ (CircuitBreaker.state c = HALF_OPEN ->
      forall e x, operation (World.ext w) = (Throw e, x) ->
      let w' := snd (execute operation circuit_name w) in
      fst (execute operation circuit_name w) = Throw e
      /\ CircuitBreaker.state (current circuit_name w') = OPEN
      /\ CircuitBreaker.next_attempt_time (current circuit_name w')
         = Ext.clock (World.ext w') + 60000).
Proof.
  intros c. subst c. split; [|split].
  - intros Hst Hdue.
    pose proof (not_rejects_elapsed _ _ Hdue) as Hpass.
    destruct (enter_passes circuit_name w Hpass) as (w1 & Hadm & Hext & Hc1).
    exists w1. rewrite (current_lookup _ _ _ Hc1).
    assert (Hex : execute operation circuit_name w
                  = run operation circuit_name w1).
    { unfold execute, bind. by rewrite Hadm. }
    destruct (operation (World.ext w)) as [r x] eqn:Hop.
    destruct (run_settles operation circuit_name w1 _ r x Hc1)
      as (w2 & Hrun & Hext2 & _); [by rewrite Hext|].
    unfold entered. rewrite Hst, Hex, Hrun. simpl. done.
  - intros Hst a1 x1 Hop.
    destruct (execute_through operation circuit_name w _ _
                (not_rejects_half_open _ _ Hst) Hop) as (w1 & Hex & Hext & Hc).
    rewrite Hex. simpl.
    apply current_lookup in Hc. unfold entered in Hc. rewrite Hst in Hc.
    simpl in Hc. unfold onSuccess in Hc. simpl in Hc. rewrite Hst in Hc.
    split.
    + intros Hsc. rewrite Hsc in Hc. simpl in Hc. by rewrite Hc.
    + intros a2 x2 Hop2. rewrite <- Hext in Hop2.
      assert (Hpass : ~ rejects (current circuit_name w1)
                        (Ext.clock (World.ext w1))).
      { rewrite Hc.
        destruct (CircuitBreaker.success_count (current circuit_name w));
          intros [Hopen _]; discriminate Hopen. }
      destruct (execute_through second circuit_name w1 _ _ Hpass Hop2)
        as (w2 & Hex2 & Hext2 & Hc2).
      rewrite Hex2. simpl. rewrite (current_lookup _ _ _ Hc2), Hc.
      destruct (CircuitBreaker.success_count (current circuit_name w))
        as [|n]; simpl; done.
  - intros Hst e x Hop.
    destruct (execute_through operation circuit_name w _ _
                (not_rejects_half_open _ _ Hst) Hop) as (w' & Hex & Hext & Hc).
    rewrite Hex. simpl. rewrite (current_lookup _ _ _ Hc), Hext.
    unfold entered. rewrite Hst. simpl. unfold onFailure. by rewrite Hst.
Qed.

End CircuitRecovery.

(** ** The mail sender behind its circuit *)

Section Sender.

Import CircuitBreakerService.

(** The protected operation catches whatever the transporter throws. *)
Lemma operation_returns env payload x :
  EmailSender.operation env payload x
  = (Ok (send_result env payload (Ext.clock x)), sent env payload x).
Proof.
  unfold EmailSender.operation, EmailSender.sendMail, send_result, sent.
  fold (mail_of env payload).
  unfold try_catch, bind, emit_event, modify, of_res, Date_now, gets.
  destruct (Env.transporter env (mail_of env payload)) as [messageId|e];
    reflexivity.
Qed.

Lemma sendEmail_closed env payload w :
  CircuitBreaker.state (current "email_send" w) = CLOSED ->
  exists w',
    EmailSender.sendEmail env payload w
    = (Ok (send_result env payload (Ext.clock (World.ext w))), w')
    /\ World.ext w' = sent env payload (World.ext w)
    /\ CircuitBreaker.state (current "email_send" w') = CLOSED
    /\ CircuitBreaker.failure_count (current "email_send" w') = 0%nat.
Proof.
  intros Hst. unfold EmailSender.sendEmail.
  destruct (execute_through (EmailSender.operation env payload) "email_send" w
              _ _ (not_rejects_closed _ _ Hst)
              (operation_returns env payload (World.ext w)))
    as (w' & Hex & Hext & Hc).
  exists w'. rewrite (current_lookup _ _ _ Hc).
  unfold entered. rewrite Hst. simpl. unfold onSuccess. simpl. rewrite Hst.
  done.
Qed.

(** C6. With the "email_send" circuit CLOSED, a transporter error is
    caught inside the protected operation: [sendEmail] returns
    [{success: false, error}] instead of throwing, [execute] books the call
    as a success, and the circuit is CLOSED with [failure_count] 0 after
    it.  Over any sequence of [sendEmail] calls, whatever the transporter
    answers, the circuit stays CLOSED and [failure_count] never exceeds
    what it was. *)
Theorem transport_errors_never_trip_the_breaker
  (env : Env.t) (payload : EmailPayload.t) (e : JsError.t)
  (calls : list (Env.t * EmailPayload.t)) (w : World.t) :
  CircuitBreaker.state (current "email_send" w) = CLOSED ->
  (Env.transporter env (mail_of env payload) = Throw e ->
   EmailSender.operation env payload (World.ext w)
   = (Ok (send_result env payload (Ext.clock (World.ext w))),
      sent env payload (World.ext w))
   /\ exists w',
        EmailSender.sendEmail env payload w
        = (Ok (EmailSendResult.mk false None
                 (Some (JsError.message e +:+ " (Retryable: "
                        +:+ string_of_bool (EmailSender.isRetryableError e)
                        +:+ ")"))
                 (Ext.clock (World.ext w))), w')
        /\ CircuitBreaker.state (current "email_send" w') = CLOSED
        /\ CircuitBreaker.failure_count (current "email_send" w') = 0%nat)
  /\ (let w' := sendEmail_all calls w in
      CircuitBreaker.state (current "email_send" w') = CLOSED
      /\ (CircuitBreaker.failure_count (current "email_send" w')
          <= CircuitBreaker.failure_count (current "email_send" w))%nat).
Proof.
  intros Hst. split.
  - intros Hthrow. split; [apply operation_returns|].
    destruct (sendEmail_closed env payload w Hst) as (w' & Hex & _ & Hst' & Hfc).
    exists w'. unfold send_result in Hex. rewrite Hthrow in Hex. done.
  - simpl. revert w Hst.
    induction calls as [|[env' payload'] rest IH]; intros w Hst; simpl.
    + split; [done | lia].
    + destruct (sendEmail_closed env' payload' w Hst)
        as (w' & Hex & _ & Hst' & Hfc).
      rewrite Hex. simpl. destruct (IH w' Hst') as [IH1 IH2].
      split; [done | lia].
Qed.

End Sender.

(** ** Reasoning about programs in [Eff] *)

Section EffLemmas.

Context {S A B : Type}.

Lemma bind_Ok_inv (c : Eff S A) (k : A -> Eff S B) s b s' :
  bind c k s = (Ok b, s') ->
  exists a s1, c s = (Ok a, s1) /\ k a s1 = (Ok b, s').
Proof.
  unfold bind. destruct (c s) as [[a|e] s1]; intros H.
  - by exists a, s1.
  - discriminate.
Qed.

Lemma bind_Throw_inv (c : Eff S A) (k : A -> Eff S B) s e s' :
  bind c k s = (Throw e, s') ->
  c s = (Throw e, s')
  \/ exists a s1, c s = (Ok a, s1) /\ k a s1 = (Throw e, s').
Proof.
  unfold bind. destruct (c s) as [[a|e'] s1]; intros H.
  - right. by exists a, s1.
  - left. by inversion H.
Qed.

Lemma bind_Ok (c : Eff S A) (k : A -> Eff S B) s a s1 :
  c s = (Ok a, s1) -> bind c k s = k a s1.
Proof. unfold bind. by intros ->. Qed.

Lemma bind_Throw (c : Eff S A) (k : A -> Eff S B) s e s1 :
  c s = (Throw e, s1) -> bind c k s = (Throw e, s1).
Proof. unfold bind. by intros ->. Qed.

End EffLemmas.

Lemma lift_spec {A} (c : Eff Ext.t A) w :
  lift c w
  = (fst (c (World.ext w)), World.mk (snd (c (World.ext w))) (World.circuits w)).
Proof. unfold lift. by destruct (c (World.ext w)). Qed.

Lemma lift_run {A} (c : Eff Ext.t A) w r x :
  c (World.ext w) = (r, x) -> lift c w = (r, World.mk x (World.circuits w)).
Proof. intros H. by rewrite lift_spec, H. Qed.

Lemma lift_run_mk {A} (c : Eff Ext.t A) x cs r x' :
  c x = (r, x') -> lift c (World.mk x cs) = (r, World.mk x' cs).
Proof. intros H. by rewrite lift_spec; simpl; rewrite H. Qed.

Lemma lift_inv {A} (c : Eff Ext.t A) w r w' :
  lift c w = (r, w') ->
  c (World.ext w) = (r, World.ext w')
  /\ World.circuits w' = World.circuits w.
Proof.
  rewrite lift_spec. destruct (c (World.ext w)) as [r' x]. simpl.
  intros [= -> <-]. done.
Qed.

(** ** The orchestrator *)

Section Orchestrator.

Import EmailService.

Variable env : Env.t.
Variable payload : EmailNotificationPayload.t.

Let request_id := EmailNotificationPayload.request_id payload.

(** The result and the world the [catch] block leaves. *)
Lemma on_error_spec e w :
  on_error payload e w
  = (Ok (EmailSendResult.mk false None (Some (JsError.message e))
           (Ext.clock (World.ext w))),
     World.mk
       (after_status request_id FAILED (Some (JsError.message e))
          (World.ext w))
       (World.circuits w)).
Proof.
  unfold on_error.
  rewrite (bind_Ok _ _ _ _ _ (lift_run _ _ _ _ (updateStatus_spec _ _ _ _))).
  unfold bind, lift, Date_now, gets, ret. simpl.
  unfold after_status. by destruct (fault_of (World.ext w)).
Qed.

(** [updateStatus] ends the trace with the emission and its cache
    write. *)
Lemma after_status_trace notification_id status error x :
  Ext.trace (after_status notification_id status error x)
  = (Ext.trace x
     ++ [StatusEmit "email.status" (status_of notification_id status error x);
         RedisSetEx ("status:" +:+ notification_id) 3600
           (DStatus (status_of notification_id status error x))])%list.
Proof.
  unfold after_status. destruct (fault_of x); simpl; by rewrite <- app_assoc.
Qed.

Lemma rejects_dec c now : {rejects c now} + {~ rejects c now}.
Proof.
  unfold rejects. destruct (CircuitBreaker.state c);
    try (right; intros [? _]; discriminate).
  destruct (Z_lt_dec now (CircuitBreaker.next_attempt_time c)).
  - left. done.
  - right. intros [_ ?]. lia.
Qed.

(** What [sendEmail] returns is what the protected operation returned. *)
Lemma sendEmail_Ok_inv mail w result w' :
  EmailSender.sendEmail env mail w = (Ok result, w') ->
  result = send_result env mail (Ext.clock (World.ext w))
  /\ World.ext w' = sent env mail (World.ext w).
Proof.
  unfold EmailSender.sendEmail. intros Hsend.
  destruct (rejects_dec (current "email_send" w) (Ext.clock (World.ext w)))
    as [Hrej|Hpass].
  - rewrite (execute_rejected _ _ _ Hrej) in Hsend. discriminate.
  - destruct (execute_through _ "email_send" w _ _ Hpass
                (operation_returns env mail (World.ext w)))
      as (w1 & Hex & Hext & _).
    rewrite Hex in Hsend. injection Hsend as <- <-. done.
Qed.

Lemma send_result_failure mail now :
  EmailSendResult.success (send_result env mail now) = false ->
  is_Some (EmailSendResult.error (send_result env mail now)).
Proof.
  unfold send_result. destruct (Env.transporter env (mail_of env mail)); simpl.
  - discriminate.
  - by eexists.
Qed.

Lemma after_status_failed error x :
  ends_with_failed_status request_id (after_status request_id FAILED error x).
Proof.
  eexists _, _. split; [apply after_status_trace | done].
Qed.

(** A failure result of [deliver] comes after a FAILED status. *)
Lemma deliver_failure_status w r w' :
  deliver env payload w = (Ok r, w') ->
  EmailSendResult.success r = false ->
  is_Some (EmailSendResult.error r) /\ ends_with_failed_status request_id (World.ext w').
Proof.
  unfold deliver. intros H Hfail.
  apply bind_Ok_inv in H as (_ & w1 & _ & H).
  apply bind_Ok_inv in H as (user & w2 & _ & H).
  destruct user as [[| |u| |]|]; try discriminate H.
  change (bind (as_user (DUser u)) ?k w2) with (k u w2) in H. cbv beta in H.
  destruct (negb (Preferences.email (UserData.preferences u))).
  - rewrite (bind_Ok _ _ _ _ _ (lift_run _ _ _ _ (updateStatus_spec _ _ _ _)))
      in H.
    unfold bind, lift, Date_now, gets, ret in H. simpl in H.
    injection H as <- <-. simpl. split; [by eexists|].
    apply after_status_failed.
  - apply bind_Ok_inv in H as (template & w3 & _ & H).
    destruct template as [template|]; [|discriminate H].
    apply bind_Ok_inv in H as (rendered & w4 & _ & H).
    apply bind_Ok_inv in H as (result & w5 & Hsend & H).
    apply sendEmail_Ok_inv in Hsend as [Hres _].
    apply bind_Ok_inv in H as ([] & w6 & Hupd & H).
    injection H as Hr Hw. rewrite <- Hr in Hfail |- *. rewrite <- Hw.
    rewrite Hfail in Hupd.
    rewrite (lift_run _ _ _ _ (updateStatus_spec _ _ _ _)) in Hupd.
    injection Hupd as <-. simpl. split.
    + rewrite Hres. apply send_result_failure. by rewrite <- Hres.
    + apply after_status_failed.
Qed.

(** C7. [processEmailNotification] returns on every payload and in every
    world: it never throws.  Whatever the [try] block throws, at
    whichever step, becomes the result [{success: false, error: message}],
    returned after [updateStatus] has emitted FAILED with that message.
    Every result with [success] false carries an [error] and comes right
    after the emission of a FAILED status for the request. *)
Theorem errors_are_caught_at_the_orchestrator (w : World.t) :
  (exists r w', processEmailNotification env payload w = (Ok r, w'))
  /\ (forall e w1,
        process env payload w = (Throw e, w1) ->
        processEmailNotification env payload w
        = (Ok (EmailSendResult.mk false None (Some (JsError.message e))
                 (Ext.clock (World.ext w1))),
           World.mk
             (after_status request_id FAILED (Some (JsError.message e))
                (World.ext w1))
             (World.circuits w1))
        /\ Ext.trace
             (after_status request_id FAILED (Some (JsError.message e))
                (World.ext w1))
           = (Ext.trace (World.ext w1)
              ++ [StatusEmit "email.status"
                    (StatusUpdate.mk request_id FAILED
                       (Ext.clock (World.ext w1))
                       (Some (JsError.message e)));
                  RedisSetEx ("status:" +:+ request_id) 3600
                    (DStatus
                       (StatusUpdate.mk request_id FAILED
                          (Ext.clock (World.ext w1))
                          (Some (JsError.message e))))])%list)
  /\ (forall r w',
        processEmailNotification env payload w = (Ok r, w') ->
        EmailSendResult.success r = false ->
        is_Some (EmailSendResult.error r)
        /\ ends_with_failed_status request_id (World.ext w')).
Proof.
  unfold processEmailNotification, try_catch.
  destruct (process env payload w) as [[r|e] w1] eqn:Hproc.
  - split; [by eexists _, _|]. split; [intros ? ? [=]|].
    intros r' w' [= <- <-] Hfail.
    unfold process in Hproc.
    apply bind_Ok_inv in Hproc as (already & w2 & _ & Hproc).
    destruct already.
    + unfold bind, lift, Date_now, gets, ret in Hproc. simpl in Hproc.
      injection Hproc as <- <-. discriminate Hfail.
    + by apply (deliver_failure_status w2).
  - rewrite on_error_spec. split; [by eexists _, _|]. split.
    + intros e' w1' [= <- <-]. split; [done | apply after_status_trace].
    + intros r w' [= <- <-] _. simpl. split; [by eexists|].
      apply after_status_failed.
Qed.

End Orchestrator.

(** ** The idempotency guard *)

Section Idempotency.

Import EmailService.

Lemma checkIdempotency_spec request_id x :
  checkIdempotency request_id x
  = (Ok (match fault_of x with
         | Some _ => false
         | None => truthy (read_key (key_of request_id) x)
         end),
     commanded (RedisGet (key_of request_id)) x).
Proof.
  unfold checkIdempotency. rewrite (bind_Ok _ _ _ _ _ (get_spec _ _)).
  unfold ret. by destruct (fault_of x).
Qed.

(** A request whose record is live and readable is answered at once. *)
Lemma duplicate_short_circuit env payload w :
  is_Some (read_key (key_of (EmailNotificationPayload.request_id payload))
             (World.ext w)) ->
  fault_of (World.ext w) = None ->
  processEmailNotification env payload w
  = (Ok (EmailSendResult.mk true (Some "duplicate") None
           (Ext.clock (World.ext w))),
     World.mk
       (commanded
          (RedisGet (key_of (EmailNotificationPayload.request_id payload)))
          (World.ext w))
       (World.circuits w)).
Proof.
  intros Hrec Hfault.
  unfold processEmailNotification, try_catch, process.
  rewrite (bind_Ok _ _ _ _ _
             (lift_run _ _ _ _ (checkIdempotency_spec _ _))).
  rewrite Hfault. destruct Hrec as [d ->]. reflexivity.
Qed.

(** A successful result leaves a live record behind. *)
Lemma success_leaves_record env payload w r w1 :
  processEmailNotification env payload w = (Ok r, w1) ->
  EmailSendResult.success r = true ->
  is_Some (read_key (key_of (EmailNotificationPayload.request_id payload))
             (World.ext w1)).
Proof.
  unfold processEmailNotification, try_catch. intros H Hok.
  destruct (process env payload w) as [[r'|e] w'] eqn:Hproc.
  - injection H as -> ->. unfold process in Hproc.
    apply bind_Ok_inv in Hproc as (already & w2 & Hchk & Hproc).
    rewrite (lift_run _ _ _ _ (checkIdempotency_spec _ _)) in Hchk.
    injection Hchk as Halready Hw2.
    destruct already.
    + unfold bind, lift, Date_now, gets, ret in Hproc. simpl in Hproc.
      injection Hproc as _ <-. rewrite <- Hw2. simpl.
      rewrite read_key_commanded.
      destruct (fault_of (World.ext w)); [discriminate|].
      destruct (read_key _ (World.ext w)); [by eexists | discriminate].
    + clear Halready Hw2. unfold deliver in Hproc.
      apply bind_Ok_inv in Hproc as ([] & w3 & _ & H).
      apply bind_Ok_inv in H as (user & w4 & _ & H).
      destruct user as [[| |u| |]|]; try discriminate H.
      change (bind (as_user (DUser u)) ?k w4) with (k u w4) in H.
      cbv beta in H.
      destruct (negb (Preferences.email (UserData.preferences u))).
      * rewrite (bind_Ok _ _ _ _ _
                   (lift_run _ _ _ _ (updateStatus_spec _ _ _ _))) in H.
        unfold bind, lift, Date_now, gets, ret in H. simpl in H.
        injection H as <- _. discriminate Hok.
      * apply bind_Ok_inv in H as (template & w5 & _ & H).
        destruct template as [template|]; [|discriminate H].
        apply bind_Ok_inv in H as (rendered & w6 & _ & H).
        apply bind_Ok_inv in H as (result & w7 & _ & H).
        apply bind_Ok_inv in H as ([] & w8 & Hupd & H).
        injection H as Hr Hw. rewrite <- Hr in Hok. rewrite <- Hw.
        rewrite Hok in Hupd.
        apply bind_Ok_inv in Hupd as ([] & w9 & _ & Hmark).
        apply lift_inv in Hmark as [Hmark _].
        unfold markAsProcessed in Hmark. rewrite set_spec in Hmark by lia.
        destruct (fault_of (World.ext w9)); [discriminate|].
        injection Hmark as <-. eexists. apply read_key_stored. lia.
  - rewrite on_error_spec in H. injection H as <- _. discriminate Hok.
Qed.

(** C1 fails on the code: request "r1" has been delivered and its record
    is stored, live and untouched, but the guard's read of it fails.  The
    second call does not answer "duplicate": it emits PENDING, mails the
    user again and emits DELIVERED. *)
Lemma duplicate_is_mailed_again_when_the_guard_read_fails :
  let first := processEmailNotification Sample.env Sample.r1 Sample.world in
  let second :=
    processEmailNotification Sample.env Sample.r1
      Sample.world_delivered_redis_out in
  fst first = Ok (EmailSendResult.mk true (Some "m1") None 1000)
  /\ Ext.store (World.ext Sample.world_delivered_redis_out) !! "processed:r1"
     = Ext.store (World.ext (snd first)) !! "processed:r1"
  /\ read_key "processed:r1" (World.ext Sample.world_delivered_redis_out)
     = Some (DResult (EmailSendResult.mk true (Some "m1") None 1000))
  /\ fst second = Ok (EmailSendResult.mk true (Some "m1") None 1000)
  /\ List.filter
       (fun ev =>
          match ev with
          | SendMail _ | StatusEmit _ _ => true
          | _ => false
          end)
       (drop (length (Ext.trace (World.ext Sample.world_delivered_redis_out)))
          (Ext.trace (World.ext (snd second))))
     = [StatusEmit "email.status" (Sample.status PENDING None);
        SendMail (mail_of Sample.env Sample.mail);
        StatusEmit "email.status" (Sample.status DELIVERED None)].
Proof. vm_compute. repeat split; reflexivity. Qed.

(** C1, amended. After a call of [processEmailNotification] that returned
    [success: true], a call for the same [request_id], made while the
    record under [processed:<request_id>] is untouched and not expired and
    the guard's read of it succeeds, returns
    [{success: true, message_id: "duplicate"}]; all it does is the one
    Redis GET of the guard: no status is emitted, no user or template is
    looked up, nothing is sent, nothing is written. *)
Theorem duplicate_request_short_circuits
  (env env' : Env.t) (payload payload' : EmailNotificationPayload.t)
  (w w1 w2 : World.t) (r : EmailSendResult.t) :
  let key := key_of (EmailNotificationPayload.request_id payload) in
  processEmailNotification env payload w = (Ok r, w1) ->
  EmailSendResult.success r = true ->
  EmailNotificationPayload.request_id payload'
  = EmailNotificationPayload.request_id payload ->
  Ext.store (World.ext w2) !! key = Ext.store (World.ext w1) !! key ->
  (forall entry,
     Ext.store (World.ext w1) !! key = Some entry ->
     live (Ext.clock (World.ext w2)) entry = true) ->
  fault_of (World.ext w2) = None ->
  processEmailNotification env' payload' w2
  = (Ok (EmailSendResult.mk true (Some "duplicate") None
           (Ext.clock (World.ext w2))),
     World.mk (commanded (RedisGet key) (World.ext w2)) (World.circuits w2)).
Proof.
  intros key Hfirst Hok Hid Hsame Hlive Hfault. subst key.
  rewrite <- Hid. apply duplicate_short_circuit; [|done].
  rewrite Hid.
  destruct (success_leaves_record _ _ _ _ _ Hfirst Hok) as [d Hd].
  unfold read_key in *. rewrite Hsame.
  destruct (Ext.store (World.ext w1)
            !! key_of (EmailNotificationPayload.request_id payload))
    as [entry|] eqn:Hentry; [|discriminate].
  rewrite (Hlive entry eq_refl). by eexists.
Qed.

End Idempotency.

(** ** What the pipeline leaves alone

    A computation [respects] a preorder on states when every run of it
    relates the state it starts in to the state it ends in, whether it
    returns or throws. *)

Section Respects.

Context {S : Type} (P : S -> S -> Prop) `{!PreOrder P}.

Lemma respects_ret {A} (a : A) : respects P (ret a).
Proof. intros s r s' [= _ <-]. reflexivity. Qed.

Lemma respects_throw {A} e : respects P (@throw S A e).
Proof. intros s r s' [= _ <-]. reflexivity. Qed.

Lemma respects_gets {A} (f : S -> A) : respects P (gets f).
Proof. intros s r s' [= _ <-]. reflexivity. Qed.

Lemma respects_of_res {A} (r : Res A) : respects P (of_res r).
Proof. destruct r; [apply respects_ret | apply respects_throw]. Qed.

Lemma respects_bind {A B} (c : Eff S A) (k : A -> Eff S B) :
  respects P c -> (forall a, respects P (k a)) -> respects P (bind c k).
Proof.
  intros Hc Hk s r s'. unfold bind.
  destruct (c s) as [[a|e] s1] eqn:Hrun; intros H.
  - etransitivity; [by eapply Hc | by eapply Hk].
  - injection H as _ <-. by eapply Hc.
Qed.

Lemma respects_try_catch {A} (body : Eff S A) handler :
  respects P body -> (forall e, respects P (handler e)) ->
  respects P (try_catch body handler).
Proof.
  intros Hb Hh s r s'. unfold try_catch.
  destruct (body s) as [[a|e] s1] eqn:Hrun; intros H.
  - injection H as _ <-. by eapply Hb.
  - etransitivity; [by eapply Hb | by eapply Hh].
Qed.

End Respects.

#[local] Instance evolves_preorder request_id : PreOrder (evolves request_id).
Proof.
  split.
  - intros x. split; done.
  - intros x y z [Hxy Hxy'] [Hyz Hyz']. split.
    + by etransitivity.
    + by rewrite Hyz'.
Qed.

#[local] Instance evolvesW_preorder request_id : PreOrder (evolvesW request_id).
Proof.
  split.
  - intros w. unfold evolvesW. reflexivity.
  - intros x y z. unfold evolvesW. intros. by etransitivity.
Qed.

Abbreviation keeps request_id := (respects (evolves request_id)).
Abbreviation keepsW request_id := (respects (evolvesW request_id)).

Lemma keeps_emit_event request_id ev : keeps request_id (emit_event ev).
Proof.
  intros x r x' [= _ <-]. split; simpl; [by apply prefix_app_r | done].
Qed.

Lemma keeps_next_fault request_id : keeps request_id next_fault.
Proof. intros x r x' [= _ <-]. split; done. Qed.

Lemma keeps_Date_now request_id : keeps request_id Date_now.
Proof. apply respects_gets. apply _. Qed.

(** A write under another key. *)
Lemma keeps_insert request_id key entry :
  key <> RetryService.key_of request_id ->
  keeps request_id (set_store (insert key entry)).
Proof.
  intros Hne x r x' [= _ <-]. split; simpl; [done|].
  by rewrite lookup_insert_ne.
Qed.

Lemma keeps_client_command request_id {A} ev (run : Eff Ext.t A) :
  keeps request_id run -> keeps request_id (client_command ev run).
Proof.
  intros Hrun. unfold client_command.
  apply respects_bind; [apply _ | apply keeps_emit_event |]. intros _.
  apply respects_bind; [apply _ | apply keeps_next_fault |]. intros [e|].
  - apply respects_throw. apply _.
  - done.
Qed.

Lemma keeps_get request_id key : keeps request_id (RedisService.get key).
Proof.
  unfold RedisService.get, client_get.
  apply respects_try_catch; [apply _ | |].
  - apply keeps_client_command. apply respects_gets. apply _.
  - intros _. apply respects_ret. apply _.
Qed.

Lemma keeps_set request_id key d ttl :
  key <> RetryService.key_of request_id ->
  keeps request_id (RedisService.set key d ttl).
Proof.
  intros Hne. unfold RedisService.set.
  apply respects_try_catch; [apply _ | |].
  - assert (Hset : keeps request_id (client_set key d)).
    { apply keeps_client_command. by apply keeps_insert. }
    assert (HsetEx : forall t, keeps request_id (client_setEx key t d)).
    { intros t. apply keeps_client_command.
      apply respects_bind; [apply _ | apply keeps_Date_now |].
      intros now. by apply keeps_insert. }
    destruct ttl as [t|]; [|done]. by destruct (t =? 0).
  - intros e. apply respects_throw. apply _.
Qed.

Lemma keeps_lift request_id {A} (c : Eff Ext.t A) :
  keeps request_id c -> keepsW request_id (lift c).
Proof.
  intros Hc w r w' H. apply lift_inv in H as [H _]. by eapply Hc.
Qed.

(** Splits a goal on a program into goals on its parts. *)
Ltac keeps_step :=
  lazymatch goal with
  | |- respects _ (bind _ _) => apply respects_bind; [apply _ | | intros ?]
  | |- respects _ (try_catch _ _) =>
      apply respects_try_catch; [apply _ | | intros ?]
  | |- respects _ (ret _) => apply respects_ret; apply _
  | |- respects _ (throw _) => apply respects_throw; apply _
  | |- respects _ (gets _) => apply respects_gets; apply _
  | |- respects _ (of_res _) => apply respects_of_res; apply _
  | |- respects _ (lift _) => apply keeps_lift
  | |- respects _ (emit_event _) => apply keeps_emit_event
  | |- respects _ Date_now => apply keeps_Date_now
  | |- respects _ (RedisService.get _) => apply keeps_get
  | |- respects _ (RedisService.set _ _ _) =>
      apply keeps_set; unfold RetryService.key_of; simpl; discriminate
  | |- respects _ (match ?t with _ => _ end) => destruct t
  end.

Lemma keeps_updateStatus request_id notification_id status error :
  keeps request_id (EmailService.updateStatus notification_id status error).
Proof. unfold EmailService.updateStatus. repeat keeps_step. Qed.

Lemma keeps_checkIdempotency request_id id :
  keeps request_id (EmailService.checkIdempotency id).
Proof. unfold EmailService.checkIdempotency. repeat keeps_step. Qed.

Lemma keeps_markAsProcessed request_id id result :
  keeps request_id (EmailService.markAsProcessed id result).
Proof.
  unfold EmailService.markAsProcessed, EmailService.key_of.
  repeat keeps_step.
Qed.

Lemma keeps_getUserById request_id env user_id :
  keeps request_id (UserService.getUserById env user_id).
Proof. unfold UserService.getUserById. repeat keeps_step. Qed.

Lemma keeps_getTemplate request_id env template_code :
  keeps request_id (TemplateService.getTemplate env template_code).
Proof. unfold TemplateService.getTemplate. repeat keeps_step. Qed.

Lemma keeps_getRetryCount request_id id :
  keeps request_id (RetryService.getRetryCount id).
Proof. unfold RetryService.getRetryCount. repeat keeps_step. Qed.

Lemma keeps_shouldRetry request_id payload :
  keeps request_id (EmailService.shouldRetry payload).
Proof.
  unfold EmailService.shouldRetry. keeps_step; [apply keeps_getRetryCount|].
  repeat keeps_step.
Qed.

Lemma keeps_operation request_id env mail :
  keeps request_id (EmailSender.operation env mail).
Proof.
  unfold EmailSender.operation, EmailSender.sendMail. repeat keeps_step.
Qed.

(** The circuit breaker adds nothing of its own to the outer world. *)
Lemma keeps_execute request_id {T} (operation : Eff Ext.t T) circuit_name :
  keeps request_id operation ->
  keepsW request_id (CircuitBreakerService.execute operation circuit_name).
Proof.
  intros Hop w r w' Hex. unfold evolvesW.
  destruct (rejects_dec (current circuit_name w) (Ext.clock (World.ext w)))
    as [Hrej|Hpass].
  - rewrite (execute_rejected _ _ _ Hrej) in Hex. injection Hex as _ <-.
    reflexivity.
  - destruct (operation (World.ext w)) as [r0 x] eqn:Hrun.
    destruct (execute_through _ circuit_name w _ _ Hpass Hrun)
      as (w1 & Hex1 & Hext & _).
    rewrite Hex1 in Hex. injection Hex as _ <-. rewrite Hext.
    by eapply Hop.
Qed.

Lemma keeps_sendEmail request_id env mail :
  keepsW request_id (EmailSender.sendEmail env mail).
Proof. apply keeps_execute, keeps_operation. Qed.

(** The same, with the services above as parts. *)
Ltac keeps_service :=
  lazymatch goal with
  | |- respects _ (EmailService.updateStatus _ _ _) =>
      apply keeps_updateStatus
  | |- respects _ (EmailService.checkIdempotency _) =>
      apply keeps_checkIdempotency
  | |- respects _ (EmailService.markAsProcessed _ _) =>
      apply keeps_markAsProcessed
  | |- respects _ (UserService.getUserById _ _) => apply keeps_getUserById
  | |- respects _ (TemplateService.getTemplate _ _) => apply keeps_getTemplate
  | |- respects _ (EmailService.shouldRetry _) => apply keeps_shouldRetry
  | |- respects _ (EmailSender.sendEmail _ _) => apply keeps_sendEmail
  | |- _ => keeps_step
  end.

Lemma keeps_deliver request_id env payload :
  keepsW request_id (EmailService.deliver env payload).
Proof.
  unfold EmailService.deliver, EmailService.as_user,
    TemplateService.renderTemplate.
  repeat keeps_service.
Qed.

Lemma keeps_on_error request_id payload e :
  keepsW request_id (EmailService.on_error payload e).
Proof. unfold EmailService.on_error. repeat keeps_service. Qed.

Lemma keeps_processEmailNotification request_id env payload :
  keepsW request_id (EmailService.processEmailNotification env payload).
Proof.
  unfold EmailService.processEmailNotification, EmailService.process.
  apply respects_try_catch; [apply _ | | apply keeps_on_error].
  apply respects_bind; [apply _ | repeat keeps_service |].
  intros [|]; [repeat keeps_service | apply keeps_deliver].
Qed.

Lemma keeps_handleEmailNotification request_id env payload :
  keepsW request_id (EmailController.handleEmailNotification env payload).
Proof.
  unfold EmailController.handleEmailNotification.
  apply respects_try_catch; [apply _ | | intros ?; repeat keeps_service].
  apply respects_bind; [apply _ | apply keeps_processEmailNotification |].
  intros result. repeat keeps_service.
Qed.

(** ** Retry book-keeping *)

Section Retry.

Lemma getRetryCount_spec request_id x :
  RetryService.getRetryCount request_id x
  = (Ok (counted request_id x),
     commanded (RedisGet (RetryService.key_of request_id)) x).
Proof.
  unfold RetryService.getRetryCount, counted.
  rewrite (bind_Ok _ _ _ _ _ (get_spec _ _)).
  destruct (fault_of x); [done|].
  by destruct (read_key (RetryService.key_of request_id) x).
Qed.

Lemma shouldRetry_spec payload x :
  EmailService.shouldRetry payload x
  = (Ok (RetryService.js_lt
           (counted (EmailNotificationPayload.request_id payload) x)
           EmailService.MAX_RETRY_ATTEMPTS),
     commanded
       (RedisGet
          (RetryService.key_of (EmailNotificationPayload.request_id payload)))
       x).
Proof.
  unfold EmailService.shouldRetry.
  by rewrite (bind_Ok _ _ _ _ _ (getRetryCount_spec _ _)).
Qed.

(** [recordRetry] is what counts attempts: with Redis up, it creates the
    record with [attempt_count] 1 or adds 1 to the count it finds. *)
Lemma recordRetry_counts request_id error x :
  Ext.faults x = [] ->
  (forall d, read_key (RetryService.key_of request_id) x = Some d ->
             exists m, d = DRetry m) ->
  exists x',
    RetryService.recordRetry request_id error x = (Ok tt, x')
    /\ stored_attempt_count request_id x'
       = S (stored_attempt_count request_id x).
Proof.
  intros Hfaults Htyped.
  assert (Hfault : fault_of x = None) by (unfold fault_of; by rewrite Hfaults).
  unfold RetryService.recordRetry.
  rewrite (bind_Ok _ _ _ _ _ (get_spec _ _)). rewrite Hfault.
  unfold stored_attempt_count at 2.
  destruct (read_key (RetryService.key_of request_id) x) as [d|] eqn:Hd.
  - destruct (Htyped d eq_refl) as [m ->].
    unfold bind at 1, Date_now at 1, gets. unfold bind at 1, ret at 1.
    unfold bind at 1, RetryService.calculateBackoff, bind at 1, Math_random,
      ret at 1.
    unfold bind at 1, Date_now, gets.
    rewrite set_spec by lia. unfold fault_of at 1. simpl Ext.faults.
    rewrite Hfaults. simpl.
    eexists. split; [reflexivity|].
    unfold stored_attempt_count. rewrite read_key_stored by lia. reflexivity.
  - unfold bind at 1, Date_now at 1, gets. unfold bind at 1, ret at 1.
    unfold bind at 1, RetryService.calculateBackoff, bind at 1, Math_random,
      ret at 1.
    unfold bind at 1, Date_now, gets.
    rewrite set_spec by lia. unfold fault_of at 1. simpl Ext.faults.
    rewrite Hfaults. simpl.
    eexists. split; [reflexivity|].
    unfold stored_attempt_count. rewrite read_key_stored by lia. reflexivity.
Qed.



End Retry.

(** ** The queue consumer *)

Section Consumer.

Import EmailService.

(** C2 fails on the code: the user service answers 404 for the user of
    request "r1"; the consumer then reads [retry:r1] for [shouldRetry] and
    nacks the message with requeue. *)
Lemma user_not_found_is_requeued :
  Ext.trace
    (World.ext
       (snd (EmailController.handleEmailNotification
               Sample.env_no_user Sample.r1 Sample.world)))
  = [ RedisGet "processed:r1";
      StatusEmit "email.status" (Sample.status PENDING None);
      RedisSetEx "status:r1" 3600 (DStatus (Sample.status PENDING None));
      RedisGet "user:u1";
      HttpGetUser "u1";
      StatusEmit "email.status"
        (Sample.status FAILED (Some "User not found: u1"));
      RedisSetEx "status:r1" 3600
        (DStatus (Sample.status FAILED (Some "User not found: u1")));
      RedisGet "retry:r1";
      Nack true ].
Proof. vm_compute. reflexivity. Qed.

(** C2, amended. When the request is not known as processed and the user
    lookup returns not-found, [processEmailNotification] emits FAILED with
    "User not found: <user_id>" and returns [{success: false, error}] with
    that message; the consumer then calls [shouldRetry], as for any other
    failure, and nacks with requeue set to its answer. *)
Theorem user_not_found_fails_and_defers_to_shouldRetry
  (env : Env.t) (payload : EmailNotificationPayload.t) (w : World.t)
  (x : Ext.t) :
  let request_id := EmailNotificationPayload.request_id payload in
  let user_id := EmailNotificationPayload.user_id payload in
  let message := "User not found: " +:+ user_id in
  let failed := after_status request_id FAILED (Some message) x in
  fst (checkIdempotency request_id (World.ext w)) = Ok false ->
  UserService.getUserById env user_id (at_lookup payload w) = (Ok None, x) ->
  processEmailNotification env payload w
  = (Ok (EmailSendResult.mk false None (Some message) (Ext.clock x)),
     World.mk failed (World.circuits w))
  /\ Ext.trace failed
     = (Ext.trace x
        ++ [StatusEmit "email.status"
              (StatusUpdate.mk request_id FAILED (Ext.clock x) (Some message));
            RedisSetEx ("status:" +:+ request_id) 3600
              (DStatus
                 (StatusUpdate.mk request_id FAILED (Ext.clock x)
                    (Some message)))])%list
  /\ EmailController.handleEmailNotification env payload w
     = (Ok tt,
        World.mk
          (emitted
             (Nack (RetryService.js_lt (counted request_id failed)
                      MAX_RETRY_ATTEMPTS))
             (commanded (RedisGet (RetryService.key_of request_id)) failed))
          (World.circuits w)).
Proof.
  intros request_id user_id message failed Hnew Hlookup.
  assert (Hproc : processEmailNotification env payload w
                  = (Ok (EmailSendResult.mk false None (Some message)
                           (Ext.clock x)),
                     World.mk failed (World.circuits w)));
    subst failed message user_id request_id.
  { unfold processEmailNotification, try_catch, process.
    rewrite (bind_Ok _ _ _ _ _
               (lift_run _ _ _ _ (checkIdempotency_spec _ _))).
    rewrite checkIdempotency_spec in Hnew. simpl in Hnew.
    injection Hnew as Hnew. rewrite Hnew. cbv beta iota.
    unfold deliver.
    rewrite (bind_Ok _ _ _ _ _
               (lift_run _ _ _ _ (updateStatus_spec _ _ _ _))).
    cbn [World.ext World.circuits]. unfold at_lookup in Hlookup.
    rewrite (bind_Ok _ _ _ _ _ (lift_run_mk _ _ _ _ _ Hlookup)).
    unfold throw. rewrite on_error_spec. reflexivity. }
  split; [done|]. split; [apply after_status_trace|].
  unfold EmailController.handleEmailNotification, try_catch.
  rewrite (bind_Ok _ _ _ _ _ Hproc). simpl.
  rewrite (bind_Ok _ _ _ _ _ (lift_run _ _ _ _ (shouldRetry_spec _ _))).
  by destruct (RetryService.js_lt _ _).
Qed.

(** C3 fails on the code: no path of the consumer writes under a
    [retry:] key, so no delivery, failed or not, creates or changes a
    retry record.  With SMTP down and the breaker CLOSED, request "r1" is
    delivered twice: each call returns [{success: false}], emits one
    FAILED status and is nacked with requeue, and Redis holds nothing under
    [retry:r1] after. *)
Theorem failed_sends_are_not_counted :
  (forall request_id env payload w,
     Ext.store
       (World.ext (snd (EmailController.handleEmailNotification env payload w)))
     !! RetryService.key_of request_id
     = Ext.store (World.ext w) !! RetryService.key_of request_id)
  /\ (let first :=
        snd (EmailController.handleEmailNotification
               Sample.env_smtp_down Sample.r1 Sample.world) in
      let second :=
        snd (EmailController.handleEmailNotification
               Sample.env_smtp_down Sample.r1 first) in
      fst (processEmailNotification Sample.env_smtp_down Sample.r1 first)
      = Ok (EmailSendResult.mk false None
              (Some "connect ECONNREFUSED 127.0.0.1:587 (Retryable: true)")
              1000)
      /\ CircuitBreaker.state (current "email_send" second) = CLOSED
      /\ List.filter settles (Ext.trace (World.ext second))
         = [ StatusEmit "email.status"
               (Sample.status FAILED
                  (Some "connect ECONNREFUSED 127.0.0.1:587 (Retryable: true)"));
             Nack true;
             StatusEmit "email.status"
               (Sample.status FAILED
                  (Some "connect ECONNREFUSED 127.0.0.1:587 (Retryable: true)"));
             Nack true ]
      /\ Ext.store (World.ext second) !! "retry:r1" = None
      /\ stored_attempt_count "r1" (World.ext second) = 0%nat).
Proof.
  split.
  - intros request_id env payload w.
    destruct (EmailController.handleEmailNotification env payload w)
      as [r w'] eqn:Hrun.
    by destruct (keeps_handleEmailNotification request_id env payload _ _ _
                   Hrun).
  - vm_compute. repeat split; reflexivity.
Qed.

End Consumer.

(** ** The guard when Redis is out *)

Section FailOpen.

Import EmailService.

Variable env : Env.t.
Variable payload : EmailNotificationPayload.t.

Let request_id := EmailNotificationPayload.request_id payload.
Let user_id := EmailNotificationPayload.user_id payload.

(** [getUserById] starts with the cache read. *)
Lemma getUserById_reads_cache x r x' :
  UserService.getUserById env user_id x = (r, x') ->
  evolves request_id (commanded (RedisGet ("user:" +:+ user_id)) x) x'.
Proof.
  unfold UserService.getUserById, try_catch.
  rewrite (bind_Ok _ _ _ _ _ (get_spec _ _)).
  set (rest := match _ with Some d => ret (Some d) | None => _ end).
  assert (Hrest : respects (evolves request_id) rest).
  { subst rest. repeat keeps_service. }
  destruct (rest _) as [[u|e] x1] eqn:Hrun; intros H.
  - injection H as _ <-. by eapply Hrest.
  - etransitivity; [by eapply Hrest|].
    assert (Hhandler :
              keeps request_id
                (match JsError.kind e with
                 | AxiosError (Some 404) => ret (None : option Doc)
                 | _ => throw e
                 end)) by repeat keeps_service.
    by eapply Hhandler.
Qed.

(** Once past the guard, the request is announced as PENDING and the user
    is looked up, whatever comes after. *)
Lemma deliver_looks_up w r w' :
  try_catch (deliver env payload) (on_error payload) w = (r, w') ->
  evolves request_id
    (commanded (RedisGet ("user:" +:+ user_id))
       (after_status request_id PENDING None (World.ext w)))
    (World.ext w').
Proof.
  unfold try_catch.
  destruct (deliver env payload w) as [r1 w1] eqn:Hdeliver.
  assert (Hmid : evolves request_id
                   (commanded (RedisGet ("user:" +:+ user_id))
                      (after_status request_id PENDING None (World.ext w)))
                   (World.ext w1)).
  { unfold deliver in Hdeliver.
    rewrite (bind_Ok _ _ _ _ _
               (lift_run _ _ _ _ (updateStatus_spec _ _ _ _))) in Hdeliver.
    unfold bind at 1 in Hdeliver.
    destruct (lift (UserService.getUserById env
                      (EmailNotificationPayload.user_id payload)) _)
      as [[u|e] w2] eqn:Hu;
      apply lift_inv in Hu as [Hu _]; apply getUserById_reads_cache in Hu;
      simpl in Hu.
    - etransitivity; [exact Hu|].
      revert Hdeliver.
      set (rest := match u with Some user => _ | None => throw _ end).
      assert (Hrest : keepsW request_id rest).
      { subst rest. unfold as_user, TemplateService.renderTemplate.
        repeat keeps_service. }
      intros Hdeliver. by eapply Hrest.
    - by injection Hdeliver as _ <-. }
  destruct r1 as [a|e]; intros H.
  - by injection H as _ <-.
  - etransitivity; [exact Hmid|]. by eapply keeps_on_error.
Qed.

(** C10. When the read of [processed:<request_id>] fails,
    [RedisService.get] returns [null] and [checkIdempotency] false,
    whatever the store holds; [processEmailNotification] then runs steps 2
    to 6 as for a request it has never seen: it emits PENDING and looks
    the user up (cache read first), and whatever follows is appended to
    that. *)
Theorem idempotency_guard_fails_open (w : World.t) (e : JsError.t) :
  let key := key_of request_id in
  let x := commanded (RedisGet key) (World.ext w) in
  fault_of (World.ext w) = Some e ->
  RedisService.get key (World.ext w) = (Ok None, x)
  /\ checkIdempotency request_id (World.ext w) = (Ok false, x)
  /\ processEmailNotification env payload w
     = try_catch (deliver env payload) (on_error payload)
         (World.mk x (World.circuits w))
  /\ (Ext.trace (World.ext w)
      ++ [RedisGet key;
          StatusEmit "email.status"
            (StatusUpdate.mk request_id PENDING (Ext.clock (World.ext w)) None);
          RedisSetEx ("status:" +:+ request_id) 3600
            (DStatus
               (StatusUpdate.mk request_id PENDING (Ext.clock (World.ext w))
                  None));
          RedisGet ("user:" +:+ user_id)])%list
     `prefix_of`
     Ext.trace (World.ext (snd (processEmailNotification env payload w))).
Proof.
  intros key x Hfault. subst key x.
  assert (Hproc : processEmailNotification env payload w
                  = try_catch (deliver env payload) (on_error payload)
                      (World.mk
                         (commanded (RedisGet (key_of request_id))
                            (World.ext w))
                         (World.circuits w))).
  { unfold processEmailNotification, process.
    unfold try_catch at 1.
    rewrite (bind_Ok _ _ _ _ _
               (lift_run _ _ _ _ (checkIdempotency_spec _ _))).
    rewrite Hfault. reflexivity. }
  repeat split.
  - by rewrite get_spec, Hfault.
  - by rewrite checkIdempotency_spec, Hfault.
  - exact Hproc.
  - rewrite Hproc.
    destruct (try_catch _ _ _) as [r w'] eqn:Hrun.
    apply deliver_looks_up in Hrun as [Hpre _]. simpl in *.
    rewrite after_status_trace in Hpre. simpl in Hpre.
    by rewrite <- !app_assoc in Hpre.
Qed.

End FailOpen.

(** ** Rounding to binary64 *)

Section Rounding.

Import Binary64.

Local Open Scope Q_scope.

Lemma pow2_pos e : 0 < 2 ^ e.
Proof. apply Qpower_0_lt. reflexivity. Qed.

Lemma pow2_plus a b : 2 ^ (a + b) == 2 ^ a * 2 ^ b.
Proof. apply Qpower_plus. discriminate. Qed.

Lemma pow2_le a b : (a <= b)%Z -> 2 ^ a <= 2 ^ b.
Proof. intros H. apply Qpower_le_compat_l; [done | discriminate]. Qed.

Lemma pow2_lt_inv a b : 2 ^ a < 2 ^ b -> (a < b)%Z.
Proof. intros H. apply (Qpower_lt_compat_l_inv 2); [done | reflexivity]. Qed.

Lemma pow2_log2 n : (0 < n)%Z ->
  2 ^ Z.log2 n <= inject_Z n /\ inject_Z n < 2 ^ (Z.log2 n + 1).
Proof.
  intros Hn. destruct (Z.log2_spec n Hn) as [Hlo Hhi].
  pose proof (Z.log2_nonneg n) as Hnn.
  split.
  - change 2 with (inject_Z 2). rewrite <- Zpower_Qpower by done.
    by rewrite <- Zle_Qle.
  - change 2 with (inject_Z 2). rewrite <- Zpower_Qpower by lia.
    rewrite <- Zlt_Qlt. by rewrite <- Z.add_1_r in Hhi.
Qed.

Lemma ilog2_spec x : 0 < x -> 2 ^ ilog2 x <= x /\ x < 2 ^ (ilog2 x + 1).
Proof.
  intros Hx. unfold ilog2.
  destruct x as [n d]. assert (Hn : (0 < n)%Z).
  { unfold Qlt in Hx. simpl in Hx. lia. }
  simpl Qnum. simpl Qden.
  destruct (pow2_log2 n Hn) as [Hnlo Hnhi].
  destruct (pow2_log2 (Zpos d) eq_refl) as [Hdlo Hdhi].
  set (a := Z.log2 n) in *. set (b := Z.log2 (Z.pos d)) in *.
  assert (Hxd : (n # d) * inject_Z (Zpos d) == inject_Z n).
  { unfold Qeq, Qmult, inject_Z. simpl. lia. }
  pose proof (pow2_pos b) as Hb. pose proof (pow2_pos (a - b)) as Hk.
  destruct (Qle_bool (2 ^ (a - b)) (n # d)) eqn:Htest.
  - apply Qle_bool_iff in Htest. split; [done|].
    assert (E : 2 ^ (a - b + 1) * 2 ^ b == 2 ^ (a + 1)).
    { rewrite <- pow2_plus. by replace (a - b + 1 + b)%Z with (a + 1)%Z by lia. }
    pose proof (pow2_pos (a - b + 1)).
    nra.
  - assert (Hlt : (n # d) < 2 ^ (a - b)).
    { apply Qnot_le_lt. intros H. apply Qle_bool_iff in H. congruence. }
    replace (a - b - 1 + 1)%Z with (a - b)%Z by lia. split; [|done].
    assert (E : 2 ^ (a - b - 1) * 2 ^ (b + 1) == 2 ^ a).
    { rewrite <- pow2_plus. by replace (a - b - 1 + (b + 1))%Z with a by lia. }
    pose proof (pow2_pos (a - b - 1)). pose proof (pow2_pos (b+1)).
    nra.
Qed.

Lemma ilog2_le x y : 0 < x -> x <= y -> (ilog2 x <= ilog2 y)%Z.
Proof.
  intros Hx Hxy.
  destruct (ilog2_spec x Hx) as [Hlo _].
  destruct (ilog2_spec y) as [_ Hhi]; [lra|].
  assert (H : 2 ^ ilog2 x < 2 ^ (ilog2 y + 1)) by lra.
  apply pow2_lt_inv in H. lia.
Qed.

Lemma rne_cases x :
  (x - inject_Z (Qfloor x) < 1 # 2 /\ rne x = Qfloor x)
  \/ (1 # 2 < x - inject_Z (Qfloor x) /\ rne x = (Qfloor x + 1)%Z)
  \/ (x - inject_Z (Qfloor x) == 1 # 2
      /\ rne x = if Z.even (Qfloor x) then Qfloor x else (Qfloor x + 1)%Z).
Proof.
  unfold rne.
  destruct (Qcompare_spec (x - inject_Z (Qfloor x)) (1 # 2)) as [H|H|H].
  - right. right. done.
  - left. done.
  - right. left. done.
Qed.

Lemma rne_bounds x : (Qfloor x <= rne x <= Qfloor x + 1)%Z.
Proof.
  destruct (rne_cases x) as [[_ ->]|[[_ ->]|[_ ->]]]; try lia.
  destruct (Z.even (Qfloor x)); lia.
Qed.

Lemma rne_le x y : x <= y -> (rne x <= rne y)%Z.
Proof.
  intros Hxy. pose proof (Qfloor_resp_le x y Hxy) as Hf.
  pose proof (rne_bounds x). pose proof (rne_bounds y).
  destruct (Z.eq_dec (Qfloor x) (Qfloor y)) as [Heq|Hne]; [|lia].
  destruct (rne_cases x) as [[Hx ->]|[[Hx ->]|[Hx ->]]];
    destruct (rne_cases y) as [[Hy ->]|[[Hy ->]|[Hy ->]]];
    rewrite <- ?Heq in *; try lia; try lra;
    destruct (Z.even (Qfloor x)); lia.
Qed.

Lemma rne_inject z : rne (inject_Z z) = z.
Proof.
  destruct (rne_cases (inject_Z z)) as [[_ ->]|[[H _]|[H _]]];
    rewrite Qfloor_Z in *; [done | lra | lra].
Qed.

Lemma round_pos x :
  0 < x -> round x = inject_Z (rne (x / ulp x)) * ulp x.
Proof.
  intros Hx. unfold round. apply Qgt_alt in Hx. by rewrite Hx.
Qed.

Lemma ulp_pos x : 0 < ulp x.
Proof. apply pow2_pos. Qed.

(** The significand of a positive number has 53 bits. *)
Lemma significand_bounds x :
  0 < x -> 2 ^ 52 <= x / ulp x /\ x / ulp x < 2 ^ 53.
Proof.
  intros Hx. destruct (ilog2_spec x Hx) as [Hlo Hhi].
  pose proof (ulp_pos x) as Hu. unfold ulp in *.
  assert (E1 : 2 ^ 52 * 2 ^ (ilog2 x - 52) == 2 ^ ilog2 x).
  { rewrite <- pow2_plus. by replace (52 + (ilog2 x - 52))%Z with (ilog2 x) by lia. }
  assert (E2 : 2 ^ 53 * 2 ^ (ilog2 x - 52) == 2 ^ (ilog2 x + 1)).
  { rewrite <- pow2_plus.
    by replace (53 + (ilog2 x - 52))%Z with (ilog2 x + 1)%Z by lia. }
  split.
  - apply Qle_shift_div_l; [done|]. by rewrite E1.
  - apply Qlt_shift_div_r; [done|]. by rewrite E2.
Qed.

Lemma round_bounds x :
  0 < x -> 2 ^ ilog2 x <= round x /\ round x <= 2 ^ (ilog2 x + 1).
Proof.
  intros Hx. rewrite (round_pos x Hx).
  destruct (significand_bounds x Hx) as [Hlo Hhi].
  pose proof (ulp_pos x) as Hu.
  assert (E1 : 2 ^ 52 * ulp x == 2 ^ ilog2 x).
  { unfold ulp. rewrite <- pow2_plus.
    by replace (52 + (ilog2 x - 52))%Z with (ilog2 x) by lia. }
  assert (E2 : 2 ^ 53 * ulp x == 2 ^ (ilog2 x + 1)).
  { unfold ulp. rewrite <- pow2_plus.
    by replace (53 + (ilog2 x - 52))%Z with (ilog2 x + 1)%Z by lia. }
  assert (H52 : (2 ^ 52 <= rne (x / ulp x))%Z).
  { rewrite <- (rne_inject (2 ^ 52)). apply rne_le.
    rewrite Zpower_Qpower by lia. done. }
  assert (H53 : (rne (x / ulp x) <= 2 ^ 53)%Z).
  { rewrite <- (rne_inject (2 ^ 53)). apply rne_le.
    rewrite Zpower_Qpower by lia. by apply Qlt_le_weak. }
  rewrite Zle_Qle in H52, H53. rewrite Zpower_Qpower in H52, H53 by lia.
  change (inject_Z 2) with 2 in *.
  split.
  - rewrite <- E1. apply Qmult_le_compat_r; [done | by apply Qlt_le_weak].
  - rewrite <- E2. apply Qmult_le_compat_r; [done | by apply Qlt_le_weak].
Qed.

(** Rounding is monotone. *)
Lemma round_le x y : 0 <= x -> x <= y -> round x <= round y.
Proof.
  intros Hx Hxy.
  destruct (Qlt_le_dec 0 x) as [Hpos|Hzero].
  - assert (Hy : 0 < y) by lra.
    pose proof (ilog2_le x y Hpos Hxy) as He.
    destruct (Z.eq_dec (ilog2 x) (ilog2 y)) as [Heq|Hne].
    + rewrite (round_pos x Hpos), (round_pos y Hy).
      unfold ulp. rewrite Heq.
      apply Qmult_le_compat_r; [|apply Qlt_le_weak, pow2_pos].
      rewrite <- Zle_Qle. apply rne_le.
      apply Qmult_le_compat_r; [done|].
      apply Qlt_le_weak, Qinv_lt_0_compat, pow2_pos.
    + destruct (round_bounds x Hpos) as [_ Hhi].
      destruct (round_bounds y Hy) as [Hlo _].
      assert (Hmid : 2 ^ (ilog2 x + 1) <= 2 ^ ilog2 y) by (apply pow2_le; lia).
      lra.
  - assert (Hx0 : x == 0) by lra.
    assert (round x = 0) as ->.
    { unfold round. apply Qeq_alt in Hx0. by rewrite Hx0. }
    destruct (Qlt_le_dec 0 y) as [Hy|Hy].
    + destruct (round_bounds y Hy) as [Hlo _]. pose proof (pow2_pos (ilog2 y)).
      lra.
    + assert (Hy0 : y == 0) by lra. unfold round. apply Qeq_alt in Hy0.
      rewrite Hy0. lra.
Qed.

Lemma round_compat x y : 0 <= x -> x == y -> round x == round y.
Proof.
  intros Hx Hxy. apply Qle_antisym; apply round_le; lra.
Qed.

End Rounding.

(** ** Backoff *)

Section Backoff.

Import Binary64 RetryService.

Local Open Scope Q_scope.

Lemma exact_on_delays : forallb exact_on delays = true.
Proof. vm_compute. reflexivity. Qed.

Lemma delay_Z_in_delays n : (1 <= n)%nat -> In (delay_Z n) delays.
Proof.
  intros Hn. unfold delay_Z.
  destruct (le_lt_dec n 9) as [Hsmall|Hbig].
  - do 10 (destruct n as [|n]; [try lia; vm_compute; tauto|]). lia.
  - assert (H : (2 ^ 9 <= 2 ^ (Z.of_nat n - 1))%Z)
      by (apply Z.pow_le_mono_r; lia).
    rewrite Z.min_r by lia. vm_compute. tauto.
Qed.

Lemma base_delay_Z n :
  (1 <= n)%nat -> base_delay n == inject_Z (delay_Z n).
Proof.
  intros Hn. unfold base_delay, delay_Z, INITIAL_DELAY_MS, BACKOFF_MULTIPLIER,
    MAX_DELAY_MS.
  assert (E : inject_Z 1000 * inject_Z 2 ^ (Z.of_nat n - 1)
              == inject_Z (1000 * 2 ^ (Z.of_nat n - 1))).
  { rewrite inject_Z_mult, Zpower_Qpower by lia. reflexivity. }
  rewrite E.
  destruct (Z.min_spec (1000 * 2 ^ (Z.of_nat n - 1)) 300000)
    as [[Hlt ->]|[Hle ->]].
  - apply Q.min_l. rewrite <- Zle_Qle. lia.
  - apply Q.min_r. rewrite <- Zle_Qle. lia.
Qed.

Lemma base_delay_mono n m : (n <= m)%nat -> base_delay n <= base_delay m.
Proof.
  intros Hnm. unfold base_delay. apply Q.min_le_compat_r.
  apply Qmult_le_l; [reflexivity|].
  apply Qpower_le_compat_l; [lia | discriminate].
Qed.

Lemma base_delay_cap n : base_delay n <= inject_Z MAX_DELAY_MS.
Proof. unfold base_delay. apply Q.le_min_r. Qed.

Lemma exact_on_spec D :
  In D delays ->
  round (inject_Z D * lit_0_2) == inject_Z (D / 5)
  /\ round 0 == 0
  /\ round (inject_Z (D / 5)) == inject_Z (D / 5)
  /\ round (inject_Z D) == inject_Z D
  /\ round (inject_Z (D + D / 5)) == inject_Z (D + D / 5)
  /\ inject_Z (D + D / 5) == inject_Z D + (1 # 5) * inject_Z D
  /\ (0 < D)%Z.
Proof.
  intros HD. pose proof exact_on_delays as Hexact.
  rewrite forallb_forall in Hexact. specialize (Hexact D HD).
  unfold exact_on in Hexact.
  rewrite !andb_true_iff, !Qeq_bool_iff, Z.ltb_lt in Hexact. tauto.
Qed.

Lemma jittered_bounds D delay random :
  In D delays -> delay == inject_Z D -> 0 <= random -> random < 1 ->
  (D <= jittered delay random <= D + D / 5)%Z.
Proof.
  intros HD Hdelay Hr0 Hr1.
  destruct (exact_on_spec D HD) as (E1 & E2 & E3 & E4 & E5 & _ & Hpos).
  assert (HD0 : 0 < inject_Z D) by (by rewrite <- (Zlt_Qlt 0)).
  assert (HJ0 : 0 <= inject_Z (D / 5)).
  { rewrite <- (Zle_Qle 0). apply Z.div_pos; lia. }
  unfold jittered.
  set (j1 := round (delay * lit_0_2)).
  assert (Hj1 : j1 == inject_Z (D / 5)).
  { subst j1. rewrite <- E1. apply round_compat.
    - unfold lit_0_2. nra.
    - by rewrite Hdelay. }
  set (j := round (j1 * random)).
  assert (Hj : 0 <= j /\ j <= inject_Z (D / 5)).
  { subst j. split.
    - rewrite <- E2. apply round_le; [lra | nra].
    - rewrite <- E3. apply round_le; nra. }
  destruct Hj as [Hj0 Hj1'].
  split.
  - rewrite <- (Qfloor_Z D). apply Qfloor_resp_le.
    rewrite <- E4. apply round_le; lra.
  - rewrite <- (Qfloor_Z (D + D / 5)). apply Qfloor_resp_le.
    rewrite <- E5. apply round_le; [lra|].
    rewrite inject_Z_plus. lra.
Qed.

(** C8. From the first attempt on, the delay before jitter is
    [min(1000 * 2^(n-1), 300000)] ms; it does not decrease with the attempt
    count and never exceeds 300000.  For a draw of [Math.random()] in
    [[0,1)], what [calculateBackoff] returns is at least that delay and at
    most the delay plus a fifth of it. *)
Theorem backoff_is_capped_and_jitter_bounded
  (attempt_count later : nat) (x : Ext.t) :
  let delay := base_delay attempt_count in
  (1 <= attempt_count)%nat ->
  delay == inject_Z (Z.min (1000 * 2 ^ (Z.of_nat attempt_count - 1)) 300000)
  /\ ((attempt_count <= later)%nat -> delay <= base_delay later)
  /\ delay <= 300000
  /\ (0 <= next_random x -> next_random x < 1 ->
      exists jittered_delay,
        fst (calculateBackoff attempt_count x) = Ok jittered_delay
        /\ delay <= inject_Z jittered_delay
        /\ inject_Z jittered_delay <= delay + (1 # 5) * delay).
Proof.
  intros delay Hn. subst delay.
  pose proof (base_delay_Z attempt_count Hn) as HZ.
  repeat split.
  - exact HZ.
  - apply base_delay_mono.
  - apply base_delay_cap.
  - intros Hr0 Hr1.
    exists (jittered (base_delay attempt_count) (next_random x)).
    split; [reflexivity|].
    pose proof (delay_Z_in_delays attempt_count Hn) as Hin.
    destruct (jittered_bounds _ _ _ Hin HZ Hr0 Hr1) as [Hlo Hhi].
    destruct (exact_on_spec _ Hin) as (_ & _ & _ & _ & _ & Hfifth & _).
    rewrite Zle_Qle in Hlo, Hhi.
    set (top := inject_Z (delay_Z attempt_count + delay_Z attempt_count / 5))
      in *.
    split; lra.
Qed.

End Backoff.

(** ** The properties on the samples *)

Section Scenarios.

Import CircuitBreakerService EmailService.

Lemma breaker_opens_after_five_failures_and_rejects_witness :
  let w' := execute_all (replicate 5 Sample.boom) "smtp" Sample.world in
  (CircuitBreaker.state (current "smtp" w') = OPEN
   /\ CircuitBreaker.next_attempt_time (current "smtp" w') = 61000)
  /\ execute (ret tt) "email_send" Sample.world_breaker_open
     = (Throw (Error "Circuit breaker is OPEN for email_send"),
        Sample.world_breaker_open)
  /\ exists w'',
       execute (ret tt) "smtp" Sample.world = (Ok tt, w'')
       /\ World.ext w'' = World.ext Sample.world
       /\ CircuitBreaker.state (current "smtp" w'') = CLOSED
       /\ CircuitBreaker.failure_count (current "smtp" w'') = 0%nat.
Proof.
  split; [|split].
  - apply (breaker_opens_after_five_failures_and_rejects
             "smtp" Sample.world (replicate 5 Sample.boom) (ret tt));
      [reflexivity | reflexivity | | reflexivity].
    repeat constructor; intros x; eexists _, _; reflexivity.
  - apply (breaker_opens_after_five_failures_and_rejects
             "email_send" Sample.world_breaker_open [] (ret tt));
      [reflexivity | vm_compute; reflexivity].
  - apply (breaker_opens_after_five_failures_and_rejects
             "smtp" Sample.world [] (ret tt));
      reflexivity.
Defined.

Lemma breaker_probation_and_recovery_witness :
  (exists w1,
     enter "email_send" Sample.world_breaker_due = (Ok tt, w1)
     /\ World.ext w1 = World.ext Sample.world_breaker_due
     /\ CircuitBreaker.state (current "email_send" w1) = HALF_OPEN
     /\ CircuitBreaker.success_count (current "email_send" w1) = 0%nat
     /\ execute (ret tt) "email_send" Sample.world_breaker_due
        = run (ret tt) "email_send" w1
     /\ fst (execute (ret tt) "email_send" Sample.world_breaker_due)
        = fst (ret tt (World.ext Sample.world_breaker_due))
     /\ World.ext (snd (execute (ret tt) "email_send"
                          Sample.world_breaker_due))
        = snd (ret tt (World.ext Sample.world_breaker_due)))
  /\ (let w1 := snd (execute (ret tt) "email_send" Sample.world_half_open) in
      let w2 := snd (execute (ret tt) "email_send" w1) in
      CircuitBreaker.state (current "email_send" w2) = CLOSED
      /\ CircuitBreaker.failure_count (current "email_send" w2) = 0%nat
      /\ CircuitBreaker.success_count (current "email_send" w2) = 0%nat)
  /\ (let w' := snd (execute Sample.boom "email_send" Sample.world_half_open) in
      fst (execute Sample.boom "email_send" Sample.world_half_open)
      = Throw (Error "boom")
      /\ CircuitBreaker.state (current "email_send" w') = OPEN
      /\ CircuitBreaker.next_attempt_time (current "email_send" w')
         = Ext.clock (World.ext w') + 60000).
Proof.
  split; [|split].
  - apply (breaker_probation_and_recovery
             "email_send" Sample.world_breaker_due (ret tt) (ret tt));
      [reflexivity | vm_compute; discriminate].
  - apply (breaker_probation_and_recovery
             "email_send" Sample.world_half_open (ret tt) (ret tt))
      with (a1 := tt) (x1 := World.ext Sample.world_half_open)
           (a2 := tt) (x2 := World.ext Sample.world_half_open);
      reflexivity.
  - apply (breaker_probation_and_recovery
             "email_send" Sample.world_half_open Sample.boom (ret tt))
      with (x := World.ext Sample.world_half_open);
      reflexivity.
Defined.

Lemma transport_errors_never_trip_the_breaker_witness :
  CircuitBreaker.state (current "email_send" Sample.world) = CLOSED
  /\ Env.transporter Sample.env_smtp_down
       (mail_of Sample.env_smtp_down Sample.mail)
     = Throw Sample.refused
  /\ (exists w',
        EmailSender.sendEmail Sample.env_smtp_down Sample.mail Sample.world
        = (Ok (EmailSendResult.mk false None
                 (Some "connect ECONNREFUSED 127.0.0.1:587 (Retryable: true)")
                 1000), w')
        /\ CircuitBreaker.state (current "email_send" w') = CLOSED
        /\ CircuitBreaker.failure_count (current "email_send" w') = 0%nat)
  /\ CircuitBreaker.state
       (current "email_send"
          (sendEmail_all (replicate 7 (Sample.env_smtp_down, Sample.mail))
             Sample.world))
     = CLOSED.
Proof.
  split; [reflexivity|]. split; [reflexivity|].
  destruct (transport_errors_never_trip_the_breaker
              Sample.env_smtp_down Sample.mail Sample.refused
              (replicate 7 (Sample.env_smtp_down, Sample.mail))
              Sample.world eq_refl) as [Hcall Hseq].
  split.
  - apply Hcall. reflexivity.
  - apply Hseq.
Defined.

Lemma errors_are_caught_at_the_orchestrator_witness :
  fst (processEmailNotification Sample.env_user_down Sample.r1 Sample.world)
  = Ok (EmailSendResult.mk false None
          (Some "connect ECONNREFUSED 127.0.0.1:587") 1000)
  /\ fst (processEmailNotification Sample.env_render_throws Sample.r1
            Sample.world)
     = Ok (EmailSendResult.mk false None
             (Some "Invalid regular expression") 1000)
  /\ fst (processEmailNotification Sample.env Sample.r1
            Sample.world_breaker_open)
     = Ok (EmailSendResult.mk false None
             (Some "Circuit breaker is OPEN for email_send") 1000).
Proof.
  split; [|split].
  - destruct (errors_are_caught_at_the_orchestrator
                Sample.env_user_down Sample.r1 Sample.world)
      as (_ & Hthrow & _).
    destruct (Hthrow Sample.refused
                (snd (process Sample.env_user_down Sample.r1 Sample.world)))
      as [-> _]; [vm_compute|]; reflexivity.
  - destruct (errors_are_caught_at_the_orchestrator
                Sample.env_render_throws Sample.r1 Sample.world)
      as (_ & Hthrow & _).
    destruct (Hthrow (Error "Invalid regular expression")
                (snd (process Sample.env_render_throws Sample.r1
                        Sample.world)))
      as [-> _]; [vm_compute|]; reflexivity.
  - destruct (errors_are_caught_at_the_orchestrator
                Sample.env Sample.r1 Sample.world_breaker_open)
      as (_ & Hthrow & _).
    destruct (Hthrow (Error "Circuit breaker is OPEN for email_send")
                (snd (process Sample.env Sample.r1
                        Sample.world_breaker_open)))
      as [-> _]; [vm_compute|]; reflexivity.
Defined.

Lemma duplicate_request_short_circuits_witness :
  let first := processEmailNotification Sample.env Sample.r1 Sample.world in
  fst first = Ok (EmailSendResult.mk true (Some "m1") None 1000)
  /\ processEmailNotification Sample.env_smtp_down Sample.r1 (snd first)
     = (Ok (EmailSendResult.mk true (Some "duplicate") None 1000),
        World.mk
          (commanded (RedisGet "processed:r1") (World.ext (snd first)))
          (World.circuits (snd first))).
Proof.
  split; [vm_compute; reflexivity|].
  apply (duplicate_request_short_circuits
           Sample.env Sample.env_smtp_down Sample.r1 Sample.r1 Sample.world
           (snd (processEmailNotification Sample.env Sample.r1 Sample.world))
           (snd (processEmailNotification Sample.env Sample.r1 Sample.world))
           (EmailSendResult.mk true (Some "m1") None 1000)).
  - vm_compute. reflexivity.
  - reflexivity.
  - reflexivity.
  - reflexivity.
  - intros entry Hentry. vm_compute in Hentry.
    injection Hentry as <-. reflexivity.
  - reflexivity.
Defined.

Lemma user_not_found_fails_and_defers_to_shouldRetry_witness :
  fst (checkIdempotency "r1" (World.ext Sample.world)) = Ok false
  /\ fst (UserService.getUserById Sample.env_no_user "u1"
            (at_lookup Sample.r1 Sample.world))
     = Ok None
  /\ fst (processEmailNotification Sample.env_no_user Sample.r1 Sample.world)
     = Ok (EmailSendResult.mk false None (Some "User not found: u1") 1000).
Proof.
  split; [reflexivity|]. split; [reflexivity|].
  destruct (user_not_found_fails_and_defers_to_shouldRetry
              Sample.env_no_user Sample.r1 Sample.world
              (snd (UserService.getUserById Sample.env_no_user "u1"
                      (at_lookup Sample.r1 Sample.world))))
    as [-> _]; [reflexivity | vm_compute; reflexivity | reflexivity].
Defined.


Lemma idempotency_guard_fails_open_witness :
  is_Some (read_key "processed:r1" (World.ext Sample.world_delivered_redis_out))
  /\ fault_of (World.ext Sample.world_delivered_redis_out)
     = Some Sample.redis_down
  /\ checkIdempotency "r1" (World.ext Sample.world_delivered_redis_out)
     = (Ok false,
        commanded (RedisGet "processed:r1")
          (World.ext Sample.world_delivered_redis_out))
  /\ fst (processEmailNotification Sample.env Sample.r1
            Sample.world_delivered_redis_out)
     = Ok (EmailSendResult.mk true (Some "m1") None 1000).
Proof.
  split; [vm_compute; by eexists|]. split; [reflexivity|].
  destruct (idempotency_guard_fails_open
              Sample.env Sample.r1 Sample.world_delivered_redis_out
              Sample.redis_down eq_refl) as (_ & Hcheck & Hproc & _).
  split; [exact Hcheck|].
  rewrite Hproc. vm_compute. reflexivity.
Defined.

Lemma backoff_is_capped_and_jitter_bounded_witness :
  (1 <= 3)%nat
  /\ (RetryService.base_delay 3 == 4000)%Q
  /\ (RetryService.base_delay 3 <= RetryService.base_delay 5)%Q
  /\ exists jittered_delay,
       fst (RetryService.calculateBackoff 3 Sample.one_third) = Ok jittered_delay
       /\ (RetryService.base_delay 3 <= inject_Z jittered_delay)%Q
       /\ (inject_Z jittered_delay
           <= RetryService.base_delay 3 + (1 # 5) * RetryService.base_delay 3)%Q.
Proof.
  split; [lia|].
  destruct (backoff_is_capped_and_jitter_bounded 3 5 Sample.one_third)
    as (Hbase & Hmono & _ & Hjitter); [lia|].
  split; [exact Hbase|]. split; [apply Hmono; lia|].
  apply Hjitter; vm_compute; [discriminate | reflexivity].
Defined.

End Scenarios.

(** ** The Redis adapter, further *)

Lemma set_plain_spec key d ttl x :
  expiring ttl = None ->
  RedisService.set key d ttl x
  = match fault_of x with
    | Some e => (Throw e, commanded (RedisSet key d) x)
    | None => (Ok tt, stored_forever key d (commanded (RedisSet key d) x))
    end.
Proof.
  intros Httl. destruct x as [clock store faults randoms trace].
  assert (Hset : RedisService.set key d ttl
                 = try_catch (client_set key d) (fun error => throw error)).
  { unfold RedisService.set, expiring in *. destruct ttl as [t|]; [|done].
    by destruct (t =? 0). }
  rewrite Hset.
  unfold client_set, client_command, try_catch, bind, emit_event, modify,
    next_fault, set_store, throw, ret, fault_of, commanded, stored_forever.
  simpl. destruct faults as [|[e|] faults]; reflexivity.
Qed.

Lemma del_spec key x :
  RedisService.del key x
  = (Ok tt,
     match fault_of x with
     | Some _ => commanded (RedisDel key) x
     | None => deleted key (commanded (RedisDel key) x)
     end).
Proof.
  destruct x as [clock store faults randoms trace].
  unfold RedisService.del, client_del, client_command, try_catch, bind,
    emit_event, modify, next_fault, set_store, throw, ret, fault_of,
    commanded, deleted.
  simpl. destruct faults as [|[e|] faults]; reflexivity.
Qed.

(** What [set] does, for every [ttl]. *)
Lemma set_cases key d ttl x :
  RedisService.set key d ttl x
  = match fault_of x, expiring ttl with
    | Some e, Some t => (Throw e, commanded (RedisSetEx key t d) x)
    | Some e, None => (Throw e, commanded (RedisSet key d) x)
    | None, Some t =>
        (Ok tt, stored key d t (commanded (RedisSetEx key t d) x))
    | None, None =>
        (Ok tt, stored_forever key d (commanded (RedisSet key d) x))
    end.
Proof.
  destruct (expiring ttl) as [t|] eqn:Httl.
  - assert (ttl = Some t /\ t <> 0) as [-> Ht].
    { unfold expiring in Httl. destruct ttl as [t'|]; [|done].
      destruct (Z.eqb_spec t' 0); [done|]. by injection Httl as ->. }
    rewrite set_spec by done. by destruct (fault_of x).
  - rewrite set_plain_spec by done. by destruct (fault_of x).
Qed.

(** X1. With a [ttl] that is not negative: after a [set] that succeeded, a
    [get] of the same key that reaches Redis, made while the entry is
    untouched, returns the value as long as the time to live has not run
    out and [null] from then on; a value written without [ttl], or with
    [ttl] 0, never expires. *)
Theorem set_then_get key d ttl x x1 x2 :
  (forall t, ttl = Some t -> 0 <= t) ->
  RedisService.set key d ttl x = (Ok tt, x1) ->
  Ext.store x2 !! key = Ext.store x1 !! key ->
  fault_of x2 = None ->
  fst (RedisService.get key x2)
  = Ok (if readable ttl (Ext.clock x) (Ext.clock x2) then Some d else None).
Proof.
  intros _ Hset Hsame Hfault. rewrite get_spec, Hfault. simpl. f_equal.
  rewrite set_cases in Hset. unfold readable, read_key. rewrite Hsame.
  destruct (fault_of x); [by destruct (expiring ttl)|].
  destruct (expiring ttl) as [t|]; injection Hset as <-; simpl;
    rewrite lookup_insert_eq; unfold live; simpl; done.
Qed.

(** X2. When the Redis command fails, [get] returns [null] and [del]
    returns, both swallowing the error, while [set] throws the error again;
    none of the three changes what Redis holds. *)
Theorem redis_errors_swallowed_or_rethrown key d ttl x e :
  fault_of x = Some e ->
  fst (RedisService.get key x) = Ok None
  /\ fst (RedisService.del key x) = Ok tt
  /\ fst (RedisService.set key d ttl x) = Throw e
  /\ Ext.store (snd (RedisService.get key x)) = Ext.store x
  /\ Ext.store (snd (RedisService.del key x)) = Ext.store x
  /\ Ext.store (snd (RedisService.set key d ttl x)) = Ext.store x.
Proof.
  intros Hfault. rewrite get_spec, del_spec, set_cases, Hfault.
  by destruct (expiring ttl).
Qed.

(** X3. With Redis up, a [get] made after [del], while the key is untouched,
    returns [null]; and neither [del] nor [set] changes what can be read
    under any other key. *)
Theorem del_then_get_and_other_keys key other d ttl x x2 :
  fault_of x = None ->
  (Ext.store x2 !! key = Ext.store (snd (RedisService.del key x)) !! key ->
   fst (RedisService.get key x2) = Ok None)
  /\ (other <> key ->
      read_key other (snd (RedisService.del key x)) = read_key other x
      /\ read_key other (snd (RedisService.set key d ttl x)) = read_key other x).
Proof.
  intros Hfault. rewrite del_spec, set_cases, Hfault. split.
  - intros Hsame. rewrite get_spec. unfold read_key. rewrite Hsame. simpl.
    rewrite lookup_delete_eq. by destruct (fault_of x2).
  - intros Hne. unfold read_key. split.
    + simpl. by rewrite lookup_delete_ne.
    + destruct (expiring ttl); simpl; by rewrite lookup_insert_ne.
Qed.

(** X4. The reconnection strategy waits 100 ms times the number of retries
    for up to ten retries, and gives up with "Max reconnection attempts
    reached" from the eleventh on: the delay is at most 1000 ms, so the cap
    of 3000 ms is never reached. *)
Theorem reconnect_gives_up_after_ten retries :
  0 <= retries ->
  match RedisService.reconnectStrategy retries with
  | inr delay =>
      retries <= 10 /\ delay = retries * 100 /\ 0 <= delay <= 1000
  | inl error =>
      10 < retries
      /\ JsError.message error = "Max reconnection attempts reached"
  end.
Proof.
  intros Hretries. unfold RedisService.reconnectStrategy.
  destruct (Z.ltb_spec 10 retries); simpl; [done | lia].
Qed.

(** ** Retry records *)

Lemma recordRetry_spec request_id error x :
  let key := RetryService.key_of request_id in
  let x1 := drawn (commanded (RedisGet key) x) in
  RetryService.recordRetry request_id error x
  = match retry_record request_id error x with
    | None =>
        (Throw (TypeError
                  "Cannot read properties of undefined (reading 'push')"),
         commanded (RedisGet key) x)
    | Some m =>
        match fault_of x1 with
        | Some e => (Throw e, commanded (RedisSetEx key 86400 (DRetry m)) x1)
        | None =>
            (Ok tt,
             stored key (DRetry m) 86400
               (commanded (RedisSetEx key 86400 (DRetry m)) x1))
        end
    end.
Proof.
  intros key x1. subst key x1.
  unfold RetryService.recordRetry, retry_record.
  rewrite (bind_Ok _ _ _ _ _ (get_spec _ _)). fold (found request_id x).
  destruct (found request_id x) as [[| | | |m]|]; try reflexivity.
  - unfold bind at 1, Date_now at 1, gets. unfold bind at 1, ret at 1.
    unfold bind at 1, RetryService.calculateBackoff, bind at 1, Math_random,
      ret at 1.
    unfold bind at 1, Date_now, gets.
    rewrite set_spec by lia. reflexivity.
  - unfold bind at 1, Date_now at 1, gets. unfold bind at 1, ret at 1.
    unfold bind at 1, RetryService.calculateBackoff, bind at 1, Math_random,
      ret at 1.
    unfold bind at 1, Date_now, gets.
    rewrite set_spec by lia. reflexivity.
Qed.

Lemma found_up request_id x :
  fault_of x = None ->
  found request_id x = read_key (RetryService.key_of request_id) x.
Proof. unfold found. by intros ->. Qed.

Lemma fault_of_nil x : Ext.faults x = [] -> fault_of x = None.
Proof. unfold fault_of. by intros ->. Qed.

(** With Redis up, [recordRetry] stores the record it builds. *)
Lemma recordRetry_up request_id error x m :
  Ext.faults x = [] ->
  retry_record request_id error x = Some m ->
  let key := RetryService.key_of request_id in
  let x' :=
    stored key (DRetry m) 86400
      (commanded (RedisSetEx key 86400 (DRetry m))
         (drawn (commanded (RedisGet key) x))) in
  RetryService.recordRetry request_id error x = (Ok tt, x')
  /\ Ext.faults x' = []
  /\ Ext.clock x' = Ext.clock x
  /\ read_key key x' = Some (DRetry m)
  /\ Ext.store x' !! key
     = Some (Entry.mk (DRetry m) (Some (Ext.clock x + 1000 * 86400))).
Proof.
  intros Hfaults Hrecord key x'. subst key x'.
  pose proof (recordRetry_spec request_id error x) as Hspec. simpl in Hspec.
  rewrite Hrecord in Hspec. unfold fault_of in Hspec at 1. simpl in Hspec.
  rewrite Hfaults in Hspec. simpl in Hspec. rewrite Hspec.
  repeat split.
  - simpl. by rewrite Hfaults.
  - by rewrite read_key_stored by lia.
  - simpl. by rewrite lookup_insert_eq.
Qed.

(** X5. With Redis up, [Math.random()] in [0, 1) and a retry record or
    nothing under the key, [recordRetry] stores a record that expires 24
    hours later: a first record has [attempt_count] 1, [first_attempt_at]
    now and the error as its only one; a later one has the count plus one,
    the error appended, and [first_attempt_at] and [request_id] as they
    were.  [last_attempt_at] is now, and [next_retry_at] lies between now
    plus the exponential delay of the new count and a fifth more. *)
Theorem recordRetry_bookkeeping request_id error x :
  let key := RetryService.key_of request_id in
  Ext.faults x = [] ->
  (0 <= next_random x)%Q -> (next_random x < 1)%Q ->
  (forall d, read_key key x = Some d -> exists m, d = DRetry m) ->
  exists m' x',
    RetryService.recordRetry request_id error x = (Ok tt, x')
    /\ Ext.store x' !! key
       = Some (Entry.mk (DRetry m') (Some (Ext.clock x + 86400000)))
    /\ match read_key key x with
       | Some (DRetry m) =>
           RetryMetadata.attempt_count m'
           = S (RetryMetadata.attempt_count m)
           /\ RetryMetadata.first_attempt_at m'
              = RetryMetadata.first_attempt_at m
           /\ RetryMetadata.errors m' = (RetryMetadata.errors m ++ [error])%list
           /\ RetryMetadata.request_id m' = RetryMetadata.request_id m
       | _ =>
           RetryMetadata.attempt_count m' = 1%nat
           /\ RetryMetadata.first_attempt_at m' = Ext.clock x
           /\ RetryMetadata.errors m' = [error]
           /\ RetryMetadata.request_id m' = request_id
       end
    /\ RetryMetadata.last_attempt_at m' = Ext.clock x
    /\ (let delay := delay_Z (RetryMetadata.attempt_count m') in
        Ext.clock x + delay <= RetryMetadata.next_retry_at m'
        <= Ext.clock x + delay + delay / 5).
Proof.
  intros key Hfaults Hr0 Hr1 Htyped. subst key.
  pose proof (fault_of_nil x Hfaults) as Hfault.
  assert (Hjitter : forall count, (1 <= count)%nat ->
            delay_Z count
            <= RetryService.jittered (RetryService.base_delay count)
                 (next_random x)
            <= delay_Z count + delay_Z count / 5).
  { intros count Hcount.
    apply jittered_bounds;
      [by apply delay_Z_in_delays | by apply base_delay_Z | done | done]. }
  destruct (retry_record request_id error x) as [m'|] eqn:Hrecord.
  - destruct (recordRetry_up request_id error x m' Hfaults Hrecord)
      as (Hrun & _ & _ & _ & Hstore).
    eexists m', _. split; [exact Hrun|]. split; [exact Hstore|].
    unfold retry_record in Hrecord. rewrite (found_up _ _ Hfault) in Hrecord.
    destruct (read_key (RetryService.key_of request_id) x)
      as [[| | | |m]|]; try discriminate Hrecord;
      injection Hrecord as <-; simpl.
    + pose proof (Hjitter (S (RetryMetadata.attempt_count m))).
      repeat split; try done; lia.
    + pose proof (Hjitter 1%nat). repeat split; try done; lia.
  - exfalso. unfold retry_record in Hrecord.
    rewrite (found_up _ _ Hfault) in Hrecord.
    destruct (read_key (RetryService.key_of request_id) x) as [d|] eqn:Hd;
      [|discriminate].
    destruct (Htyped d eq_refl) as [m ->]. discriminate.
Qed.

Section RetryRuns.

Variable request_id : string.

Local Abbreviation key := (RetryService.key_of request_id).

Lemma just_recorded_read m x :
  just_recorded request_id m x -> read_key key x = Some (DRetry m).
Proof.
  intros [_ Hstore]. unfold read_key. rewrite Hstore. unfold live. simpl.
  assert (H : (Ext.clock x <? Ext.clock x + 86400000) = true)
    by (apply Z.ltb_lt; lia).
  by rewrite H.
Qed.

Lemma just_recorded_counted m x :
  just_recorded request_id m x ->
  counted request_id x = Some (RetryMetadata.attempt_count m).
Proof.
  intros Hrec. unfold counted.
  rewrite (fault_of_nil _ (proj1 Hrec)).
  by rewrite (just_recorded_read _ _ Hrec).
Qed.

(** A call made in time finds the record. *)
Lemma keeps_record_read between m x :
  keeps_record request_id between ->
  just_recorded request_id m x ->
  Ext.faults (between x) = []
  /\ read_key key (between x) = Some (DRetry m).
Proof.
  intros Hkeeps [_ Hstore]. destruct (Hkeeps x) as (Hfaults & Hsame & Hclock).
  split; [done|]. unfold read_key. rewrite Hsame, Hstore.
  unfold live. simpl.
  assert (H : (Ext.clock (between x) <? Ext.clock x + 86400000) = true)
    by (apply Z.ltb_lt; lia).
  by rewrite H.
Qed.

(** What is not there, or has expired, is not there later either. *)
Lemma keeps_record_none between x :
  keeps_record request_id between ->
  read_key key x = None ->
  Ext.faults (between x) = [] /\ read_key key (between x) = None.
Proof.
  intros Hkeeps Hnone. destruct (Hkeeps x) as (Hfaults & Hsame & Hclock).
  split; [done|]. unfold read_key in *. rewrite Hsame.
  destruct (Ext.store x !! RetryService.key_of request_id) as [entry|];
    [|done].
  unfold live in *. destruct (Entry.expires_at entry) as [t|]; [|done].
  destruct (Z.ltb_spec (Ext.clock x) t); [done|].
  destruct (Z.ltb_spec (Ext.clock (between x)) t); [lia | done].
Qed.

(** A call made too late finds nothing. *)
Lemma outlasts_record_read between m x :
  outlasts_record request_id between ->
  just_recorded request_id m x ->
  Ext.faults (between x) = [] /\ read_key key (between x) = None.
Proof.
  intros Hlate [_ Hstore]. destruct (Hlate x) as (Hfaults & Hsame & Hclock).
  split; [done|]. unfold read_key. rewrite Hsame, Hstore.
  unfold live. simpl.
  destruct (Z.ltb_spec (Ext.clock (between x)) (Ext.clock x + 86400000));
    [lia | done].
Qed.

(** [recordRetry] with Redis up, on the record it finds or on nothing. *)
Lemma recordRetry_first error x :
  Ext.faults x = [] ->
  read_key key x = None ->
  exists m,
    just_recorded request_id m
      (snd (RetryService.recordRetry request_id error x))
    /\ RetryMetadata.attempt_count m = 1%nat
    /\ RetryMetadata.errors m = [error]
    /\ RetryMetadata.first_attempt_at m = Ext.clock x.
Proof.
  intros Hfaults Hnone.
  set (m := RetryMetadata.mk request_id 1 (Ext.clock x) (Ext.clock x)
              (Ext.clock x
               + RetryService.jittered (RetryService.base_delay 1)
                   (next_random x))
              [error]).
  assert (Hrecord : retry_record request_id error x = Some m).
  { unfold retry_record.
    by rewrite (found_up _ _ (fault_of_nil _ Hfaults)), Hnone. }
  destruct (recordRetry_up request_id error x _ Hfaults Hrecord)
    as (Hrun & Hfaults1 & Hclock & _ & Hstore).
  exists m. rewrite Hrun. cbn [snd]. split; [|done].
  split; [exact Hfaults1|]. rewrite Hstore, Hclock. done.
Qed.

Lemma recordRetry_next error m x :
  Ext.faults x = [] ->
  read_key key x = Some (DRetry m) ->
  exists m',
    just_recorded request_id m'
      (snd (RetryService.recordRetry request_id error x))
    /\ RetryMetadata.attempt_count m' = S (RetryMetadata.attempt_count m)
    /\ RetryMetadata.errors m' = (RetryMetadata.errors m ++ [error])%list
    /\ RetryMetadata.first_attempt_at m' = RetryMetadata.first_attempt_at m.
Proof.
  intros Hfaults Hread.
  destruct (retry_record request_id error x) as [m'|] eqn:Hrecord.
  2:{ unfold retry_record in Hrecord.
      rewrite (found_up _ _ (fault_of_nil _ Hfaults)) in Hrecord. rewrite Hread in Hrecord. discriminate. }
  destruct (recordRetry_up request_id error x _ Hfaults Hrecord)
    as (Hrun & Hfaults1 & Hclock & _ & Hstore).
  exists m'. rewrite Hrun. cbn [snd]. split.
  - split; [exact Hfaults1|]. rewrite Hstore, Hclock. done.
  - unfold retry_record in Hrecord.
    rewrite (found_up _ _ (fault_of_nil _ Hfaults)) in Hrecord. rewrite Hread in Hrecord.
    injection Hrecord as <-. done.
Qed.

(** Each further call made in time extends the record. *)
Lemma recordRetry_all_extends calls :
  forall x m,
    Forall (fun call => keeps_record request_id (fst call)) calls ->
    just_recorded request_id m x ->
    exists m',
      just_recorded request_id m' (recordRetry_all request_id calls x)
      /\ RetryMetadata.attempt_count m'
         = (RetryMetadata.attempt_count m + length calls)%nat
      /\ RetryMetadata.errors m'
         = (RetryMetadata.errors m ++ map snd calls)%list
      /\ RetryMetadata.first_attempt_at m' = RetryMetadata.first_attempt_at m.
Proof.
  induction calls as [|[between error] rest IH]; intros x m Hcalls Hrec; simpl.
  - exists m. rewrite app_nil_r. split; [done|]. split; [lia | done].
  - inversion Hcalls as [|? ? Hkeeps Hrest]; subst. simpl in Hkeeps.
    destruct (keeps_record_read _ _ _ Hkeeps Hrec) as [Hfaults Hread].
    destruct (recordRetry_next error _ _ Hfaults Hread)
      as (m1 & Hrec1 & Hcount1 & Herrors1 & Hfirst1).
    destruct (IH _ _ Hrest Hrec1) as (m' & Hrec' & Hcount & Herrors & Hfirst).
    exists m'. split; [exact Hrec'|].
    rewrite Hcount, Herrors, Hfirst, Hcount1, Herrors1, Hfirst1, <- app_assoc.
    repeat split; try done. lia.
Qed.

(** X6. Starting without a live record, after any number of
    [recordRetry] calls for one request, each made with Redis up and less
    than 24 hours after the one before while nothing else writes or deletes
    the record, [getRetryCount] returns the number of calls and
    [shouldRetry] whether it is below 3; the record holds the errors in
    order and the time of the first call.  A call that comes 24 hours or
    more after the last one finds the record expired and starts over: the
    count is 1 after it. *)
Theorem retries_are_exhausted_after_three
    (calls : list ((Ext.t -> Ext.t) * string)) (x : Ext.t) :
  let x' := recordRetry_all request_id calls x in
  Forall (fun call => keeps_record request_id (fst call)) calls ->
  read_key key x = None ->
  fst (RetryService.getRetryCount request_id x') = Ok (Some (length calls))
  /\ fst (RetryService.shouldRetry request_id x')
     = Ok (length calls <? 3)%nat
  /\ (forall between error rest,
        calls = (between, error) :: rest ->
        exists m,
          fst (RetryService.getRetryMetadata request_id x')
          = Ok (Some (DRetry m))
          /\ RetryMetadata.attempt_count m = length calls
          /\ RetryMetadata.errors m = map snd calls
          /\ RetryMetadata.first_attempt_at m = Ext.clock (between x))
  /\ (forall error late,
        calls <> [] ->
        outlasts_record request_id late ->
        let restarted :=
          snd (RetryService.recordRetry request_id error (late x')) in
        fst (RetryService.getRetryCount request_id restarted)
        = Ok (Some 1%nat)).
Proof.
  intros x' Hcalls Hnone. subst x'.
  assert (Hrun :
            counted request_id (recordRetry_all request_id calls x)
            = Some (length calls)
            /\ forall between error rest,
                 calls = (between, error) :: rest ->
                 exists m,
                   just_recorded request_id m
                     (recordRetry_all request_id calls x)
                   /\ RetryMetadata.attempt_count m = length calls
                   /\ RetryMetadata.errors m = map snd calls
                   /\ RetryMetadata.first_attempt_at m
                      = Ext.clock (between x)).
  { destruct calls as [|[between error] rest]; simpl.
    - split; [|intros ? ? ? [=]]. unfold counted. rewrite Hnone.
      by destruct (fault_of x).
    - inversion Hcalls as [|? ? Hkeeps Hrest]; subst. simpl in Hkeeps.
      destruct (keeps_record_none _ _ Hkeeps Hnone) as [Hfaults Hread].
      destruct (recordRetry_first error _ Hfaults Hread)
        as (m1 & Hrec1 & Hcount1 & Herrors1 & Hfirst1).
      destruct (recordRetry_all_extends rest _ _ Hrest Hrec1)
        as (m' & Hrec' & Hcount & Herrors & Hfirst).
      rewrite Hcount1 in Hcount. rewrite Herrors1 in Herrors.
      rewrite Hfirst1 in Hfirst. simpl in Hcount, Herrors.
      split.
      + by rewrite (just_recorded_counted _ _ Hrec'), Hcount.
      + intros between' error' rest' [= <- <- <-]. by exists m'. }
  destruct Hrun as [Hcount Hrecord].
  split; [by rewrite getRetryCount_spec, Hcount|]. split.
  { unfold RetryService.shouldRetry.
    by rewrite (bind_Ok _ _ _ _ _ (getRetryCount_spec _ _)), Hcount. }
  split.
  - intros between error rest Hcons.
    destruct (Hrecord _ _ _ Hcons) as (m & Hrec & Hrest).
    exists m. split; [|exact Hrest].
    unfold RetryService.getRetryMetadata.
    rewrite get_spec, (fault_of_nil _ (proj1 Hrec)).
    by rewrite (just_recorded_read _ _ Hrec).
  - intros error late Hne Hlate. cbn zeta.
    destruct calls as [|[between error'] rest]; [done|].
    destruct (Hrecord _ _ _ eq_refl) as (m & Hrec & _).
    destruct (outlasts_record_read _ _ _ Hlate Hrec) as [Hfaults Hread].
    destruct (recordRetry_first error _ Hfaults Hread)
      as (m1 & Hrec1 & Hcount1 & _).
    by rewrite getRetryCount_spec, (just_recorded_counted _ _ Hrec1), Hcount1.
Qed.

End RetryRuns.

(** X7. When the read of the record fails and the write succeeds,
    [recordRetry] starts the record over with [attempt_count] 1, whatever
    was stored; when the read succeeds and the write fails, it throws the
    write's error and Redis holds what it held. *)
Theorem recordRetry_under_redis_failures request_id error x e :
  let key := RetryService.key_of request_id in
  (Ext.faults x = [Some e] ->
   exists x',
     RetryService.recordRetry request_id error x = (Ok tt, x')
     /\ exists m,
          read_key key x' = Some (DRetry m)
          /\ RetryMetadata.attempt_count m = 1%nat
          /\ RetryMetadata.errors m = [error])
  /\ (Ext.faults x = [None; Some e] ->
      (forall d, read_key key x = Some d -> exists m, d = DRetry m) ->
      fst (RetryService.recordRetry request_id error x) = Throw e
      /\ Ext.store (snd (RetryService.recordRetry request_id error x))
         = Ext.store x).
Proof.
  intros key. subst key. split.
  - intros Hfaults.
    pose proof (recordRetry_spec request_id error x) as Hspec. simpl in Hspec.
    assert (Hfound : found request_id x = None).
    { unfold found, fault_of. by rewrite Hfaults. }
    unfold retry_record in Hspec. rewrite Hfound in Hspec.
    unfold fault_of in Hspec at 1. simpl in Hspec. rewrite Hfaults in Hspec.
    simpl in Hspec. rewrite Hspec.
    eexists. split; [reflexivity|]. eexists.
    rewrite read_key_stored by lia. done.
  - intros Hfaults Htyped.
    pose proof (recordRetry_spec request_id error x) as Hspec. simpl in Hspec.
    assert (Hfault : fault_of x = None).
    { unfold fault_of. by rewrite Hfaults. }
    unfold retry_record in Hspec. rewrite (found_up _ _ Hfault) in Hspec.
    unfold fault_of in Hspec. simpl in Hspec. rewrite Hfaults in Hspec.
    simpl in Hspec.
    destruct (read_key (RetryService.key_of request_id) x) as [d|] eqn:Hd.
    + destruct (Htyped d eq_refl) as [m ->]. by rewrite Hspec.
    + by rewrite Hspec.
Qed.

(** X8. [clearRetry] never throws.  When its delete reaches Redis, a later
    [getRetryCount] answers 0, [getRetryMetadata] [null] and [shouldRetry]
    true, as long as the key is untouched; when the delete fails, Redis
    holds what it held. *)
Theorem clearRetry_resets_the_count request_id x x2 :
  let key := RetryService.key_of request_id in
  let x1 := snd (RetryService.clearRetry request_id x) in
  fst (RetryService.clearRetry request_id x) = Ok tt
  /\ (fault_of x = None ->
      Ext.store x2 !! key = Ext.store x1 !! key ->
      fst (RetryService.getRetryCount request_id x2) = Ok (Some 0%nat)
      /\ fst (RetryService.getRetryMetadata request_id x2) = Ok None
      /\ fst (RetryService.shouldRetry request_id x2) = Ok true)
  /\ (fault_of x <> None -> Ext.store x1 = Ext.store x).
Proof.
  intros key x1. subst key x1. unfold RetryService.clearRetry.
  rewrite del_spec. split; [done|]. split.
  - intros Hfault Hsame. rewrite Hfault in Hsame. simpl in Hsame.
    rewrite lookup_delete_eq in Hsame.
    assert (Hread : read_key (RetryService.key_of request_id) x2 = None).
    { unfold read_key. by rewrite Hsame. }
    assert (Hcount : counted request_id x2 = Some 0%nat).
    { unfold counted. rewrite Hread. by destruct (fault_of x2). }
    split; [by rewrite getRetryCount_spec, Hcount|]. split.
    + unfold RetryService.getRetryMetadata. rewrite get_spec, Hread.
      by destruct (fault_of x2).
    + unfold RetryService.shouldRetry.
      by rewrite (bind_Ok _ _ _ _ _ (getRetryCount_spec _ _)), Hcount.
  - intros Hfault. simpl. by destruct (fault_of x).
Qed.

(** ** The invariant of the circuit breaker *)

Section CircuitInvariant.

Import CircuitBreakerService.

Lemma sound_fresh : sound fresh.
Proof. unfold sound, fresh, FAILURE_THRESHOLD. simpl. split; [lia | done]. Qed.

Lemma sound_entered c : sound c -> sound (entered c).
Proof.
  unfold sound, entered, SUCCESS_THRESHOLD. destruct c as [[] fc sc lf na];
    simpl; intuition lia.
Qed.

Lemma sound_onSuccess c : sound c -> sound (onSuccess c).
Proof.
  unfold sound, onSuccess, FAILURE_THRESHOLD, SUCCESS_THRESHOLD.
  destruct c as [[] fc sc lf na]; cbn -[Nat.leb]; intros Hsound;
    repeat match goal with
           | |- context [(?n <=? ?m)%nat] =>
               destruct (Nat.leb_spec n m); cbn -[Nat.leb]
           end;
    intuition (try lia; eauto).
Qed.

Lemma sound_onFailure now c : sound c -> sound (onFailure now c).
Proof.
  unfold sound, onFailure, FAILURE_THRESHOLD, SUCCESS_THRESHOLD.
  destruct c as [[] fc sc lf na]; cbn -[Nat.leb]; intros Hsound;
    repeat match goal with
           | |- context [(?n <=? ?m)%nat] =>
               destruct (Nat.leb_spec n m); cbn -[Nat.leb]
           end;
    intuition (try lia; eauto).
Qed.

(** What a segment does to a circuit. *)
Lemma segment_current s circuit_name w :
  let c := current circuit_name w in
  let c' := current circuit_name (snd (segment s w)) in
  c' = c \/ c' = entered c \/ c' = onSuccess c
  \/ c' = onFailure (Ext.clock (World.ext w)) c.
Proof.
  cbn zeta. destruct w as [x cs]. unfold current.
  destruct s as [name|name|name];
    unfold segment, enter, bind, getOrCreateCircuit, update, modify, lift,
      Date_now, gets, throw, ret; simpl.
  - destruct (cs !! name) as [c|] eqn:Hc; simpl.
    + destruct (CircuitBreaker.state c) eqn:Hstate; simpl; try by left.
      destruct (Ext.clock x <? CircuitBreaker.next_attempt_time c); simpl;
        [by left|].
      destruct (decide (circuit_name = name)) as [->|Hne].
      * right. left. rewrite lookup_alter_eq, Hc. simpl.
        unfold entered. by rewrite Hstate.
      * left. by rewrite lookup_alter_ne.
    + left. destruct (decide (circuit_name = name)) as [->|Hne].
      * by rewrite lookup_insert_eq, Hc.
      * by rewrite lookup_insert_ne.
  - destruct (decide (circuit_name = name)) as [->|Hne].
    + rewrite lookup_alter_eq. destruct (cs !! name); simpl; auto.
    + left. by rewrite lookup_alter_ne.
  - destruct (decide (circuit_name = name)) as [->|Hne].
    + rewrite lookup_alter_eq. destruct (cs !! name); simpl; auto.
    + left. by rewrite lookup_alter_ne.
Qed.

Lemma segment_sound s circuit_name w :
  sound (current circuit_name w) ->
  sound (current circuit_name (snd (segment s w))).
Proof.
  intros Hsound.
  destruct (segment_current s circuit_name w) as [-> | [-> | [-> | ->]]];
    [done | by apply sound_entered | by apply sound_onSuccess
    | by apply sound_onFailure].
Qed.

Lemma interleaved_sound segments :
  forall w,
    (forall circuit_name, sound (current circuit_name w)) ->
    forall circuit_name, sound (current circuit_name (interleaved segments w)).
Proof.
  induction segments as [|[between s] rest IH]; intros w Hsound; [done|].
  simpl. apply IH. intros circuit_name. apply segment_sound, Hsound.
Qed.

Context {T : Type}.

(** A call of [execute] that nothing interrupts is its segments, one
    after the other. *)
Lemma enter_spec circuit_name x cs :
  enter circuit_name (World.mk x cs)
  = match cs !! circuit_name with
    | Some c =>
        match CircuitBreaker.state c with
        | OPEN =>
            if Ext.clock x <? CircuitBreaker.next_attempt_time c then
              (Throw (Error ("Circuit breaker is OPEN for " +:+ circuit_name)),
               World.mk x cs)
            else
              (Ok tt,
               World.mk x
                 (alter (fun c =>
                           CircuitBreaker.mk HALF_OPEN
                             (CircuitBreaker.failure_count c) 0
                             (CircuitBreaker.last_failure_time c)
                             (CircuitBreaker.next_attempt_time c))
                    circuit_name cs))
        | _ => (Ok tt, World.mk x cs)
        end
    | None => (Ok tt, World.mk x (<[circuit_name := fresh]> cs))
    end.
Proof.
  unfold enter, bind, getOrCreateCircuit, update, modify, lift, Date_now,
    gets, throw, ret.
  simpl. destruct (cs !! circuit_name) as [c|]; simpl; [|done].
  destruct (CircuitBreaker.state c); simpl; try done.
  by destruct (Ext.clock x <? CircuitBreaker.next_attempt_time c).
Qed.

(** A call of [execute] that nothing interrupts is its segments, one
    after the other. *)
Lemma execute_in_segments (operation : Eff Ext.t T) circuit_name w :
  snd (execute operation circuit_name w)
  = interleaved (segments_of operation circuit_name w) w.
Proof.
  destruct w as [x cs]. unfold segments_of, current.
  cbn [World.ext World.circuits interleaved segment].
  destruct (operation x) as [r x'] eqn:Hop.
  assert (Hsettle :
            forall cs',
              snd (run operation circuit_name (World.mk x cs'))
              = snd (segment
                       match r with
                       | Ok _ => Returns circuit_name
                       | Throw _ => Throws circuit_name
                       end
                       (World.mk x' cs'))).
  { intros cs'.
    unfold run, segment, try_catch, bind, update, modify, lift, Date_now,
      gets, throw, ret.
    simpl. rewrite Hop. by destruct r. }
  unfold execute, bind at 1. rewrite enter_spec.
  destruct (cs !! circuit_name) as [c|].
  - change (default fresh (Some c)) with c.
    destruct (CircuitBreaker.state c);
      [|destruct (Ext.clock x <? CircuitBreaker.next_attempt_time c)|];
      cbn [interleaved snd World.ext World.circuits]; try done;
      apply Hsettle.
  - change (default fresh None) with fresh.
    cbn [CircuitBreaker.state fresh interleaved snd World.ext World.circuits].
    apply Hsettle.
Qed.

(** X9. However the calls of [execute] overlap, on any circuits and
    with any time passing, every circuit stays sound: a CLOSED circuit has
    counted fewer than 5 failures and no success, an OPEN circuit has
    counted no success and has a last failure time, a HALF_OPEN circuit has
    counted fewer than 2 successes and has a last failure time; a circuit
    never seen counts as fresh.  This holds along any order of the pieces
    of the calls that run without interruption, and a call that nothing
    interrupts is its own pieces one after the other. *)
Theorem circuits_stay_sound
    (segments : list ((Ext.t -> Ext.t) * Segment))
    (operation : Eff Ext.t T) (name : string) (w : World.t) :
  (forall circuit_name, sound (current circuit_name w)) ->
  (forall circuit_name,
     sound (current circuit_name (interleaved segments w)))
  /\ snd (execute operation name w)
     = interleaved (segments_of operation name w) w
  /\ forall circuit_name,
       sound (current circuit_name (snd (execute operation name w))).
Proof.
  intros Hsound. split; [by apply interleaved_sound|].
  split; [apply execute_in_segments|].
  rewrite execute_in_segments. by apply interleaved_sound.
Qed.

End CircuitInvariant.

Section CircuitIsolation.

Import CircuitBreakerService.

Context {T : Type}.

(** [execute] touches the circuit it is given, no other. *)
Lemma execute_other (operation : Eff Ext.t T) circuit_name other w :
  other <> circuit_name ->
  World.circuits (snd (execute operation circuit_name w)) !! other
  = World.circuits w !! other.
Proof.
  intros Hne. destruct w as [x cs].
  unfold execute, enter, run, bind, try_catch, getOrCreateCircuit, update,
    modify, lift, Date_now, gets, throw, ret. simpl.
  destruct (cs !! circuit_name) as [c|] eqn:Hc; simpl.
  - destruct (CircuitBreaker.state c); simpl;
      try destruct (Ext.clock x <? CircuitBreaker.next_attempt_time c); simpl;
      try done;
      destruct (operation x) as [[a|e] x']; simpl;
      rewrite ?lookup_alter_ne by done; done.
  - destruct (operation x) as [[a|e] x']; simpl;
      rewrite lookup_alter_ne, lookup_insert_ne by done; done.
Qed.

(** X10. After [resetCircuit], [getCircuitStatus] of the circuit returns
    nothing, the other circuits and the outer world are as before, and the
    next [execute] on the circuit runs the operation on a fresh circuit,
    whatever state the circuit was in. *)
Theorem resetCircuit_forgets_the_circuit
  (operation : Eff Ext.t T) (circuit_name other : string) (w : World.t) :
  let w1 := snd (resetCircuit circuit_name w) in
  let w2 := snd (execute operation circuit_name w1) in
  fst (getCircuitStatus circuit_name w1) = Ok None
  /\ World.ext w1 = World.ext w
  /\ (other <> circuit_name ->
      fst (getCircuitStatus other w1) = fst (getCircuitStatus other w))
  /\ fst (execute operation circuit_name w1) = fst (operation (World.ext w))
  /\ World.ext w2 = snd (operation (World.ext w))
  /\ current circuit_name w2
     = settle (fst (operation (World.ext w))) (World.ext w2) fresh.
Proof.
  intros w1 w2. subst w1 w2. destruct w as [x cs].
  unfold resetCircuit, getCircuitStatus, modify, gets. simpl.
  set (w1 := World.mk x (delete circuit_name cs)).
  assert (Hcur : current circuit_name w1 = fresh).
  { unfold current, w1. simpl. by rewrite lookup_delete_eq. }
  split; [by rewrite lookup_delete_eq|]. split; [done|].
  split; [intros Hne; by rewrite lookup_delete_ne|].
  destruct (operation x) as [r x'] eqn:Hrun.
  assert (Hpass : ~ rejects (current circuit_name w1) (Ext.clock (World.ext w1))).
  { rewrite Hcur. intros [Hopen _]. discriminate Hopen. }
  destruct (execute_through operation circuit_name w1 r x' Hpass Hrun)
    as (w2 & Hex & Hext & Hc).
  rewrite Hex. simpl. rewrite (current_lookup _ _ _ Hc), Hcur, Hext. done.
Qed.

(** X11. [execute] leaves every other circuit alone.  A rejected call throws
    the breaker's error and changes nothing; a call that is let through
    returns or throws what the operation does, leaves the outer world as
    the operation left it, and books the outcome on its circuit. *)
Theorem execute_is_transparent
  (operation : Eff Ext.t T) (circuit_name other : string) (w : World.t) :
  let c := current circuit_name w in
  let w' := snd (execute operation circuit_name w) in
  (other <> circuit_name ->
   World.circuits w' !! other = World.circuits w !! other)
  /\ (rejects c (Ext.clock (World.ext w)) ->
      execute operation circuit_name w
      = (Throw (Error ("Circuit breaker is OPEN for " +:+ circuit_name)), w))
  /\ (~ rejects c (Ext.clock (World.ext w)) ->
      fst (execute operation circuit_name w) = fst (operation (World.ext w))
      /\ World.ext w' = snd (operation (World.ext w))
      /\ World.circuits w' !! circuit_name
         = Some (settle (fst (operation (World.ext w))) (World.ext w')
                   (entered c))).
Proof.
  intros c w'. subst c w'. split; [apply execute_other|].
  split; [apply execute_rejected|]. intros Hpass.
  destruct (operation (World.ext w)) as [r x] eqn:Hrun.
  destruct (execute_through operation circuit_name w r x Hpass Hrun)
    as (w' & Hex & Hext & Hc).
  rewrite Hex. simpl. by rewrite Hc, Hext.
Qed.

End CircuitIsolation.

(** ** Retryable errors and plain text *)

Section Classification.

Lemma prefix_occurs needle hay :
  String.prefix needle hay = true <-> exists after, hay = needle +:+ after.
Proof.
  revert needle. induction hay as [|c' hay IH]; intros [|c needle]; simpl.
  - split; [intros _; by exists "" | done].
  - split; [done | intros [? [=]]].
  - split; [intros _; by exists (String c' hay) | done].
  - destruct (Ascii.ascii_dec c c') as [->|Hne].
    + rewrite IH. split; intros [after H]; exists after.
      * simpl. by rewrite H.
      * simpl in H. by injection H.
    + split; [done | intros [? [=]]; done].
Qed.

Lemma includes_unfold needle hay :
  includes needle hay
  = String.prefix needle hay
    || match hay with
       | EmptyString => false
       | String _ rest => includes needle rest
       end.
Proof.
  destruct hay as [|c hay]; simpl.
  - by destruct (String.prefix needle "").
  - by destruct (String.prefix needle (String c hay)).
Qed.

Lemma includes_occurs needle hay :
  includes needle hay = true <-> occurs_in needle hay.
Proof.
  unfold occurs_in. induction hay as [|c hay IH];
    rewrite includes_unfold, orb_true_iff, prefix_occurs.
  - split.
    + intros [[after ->]|[=]]. by exists "", after.
    + intros ([|? before] & after & H); [|discriminate H].
      left. by exists after.
  - rewrite IH. split.
    + intros [[after ->]|(before & after & ->)].
      * by exists "", after.
      * by exists (String c before), after.
    + intros ([|c' before] & after & H).
      * left. by exists after.
      * right. injection H as -> ->. by exists before, after.
Qed.

(** X12. An error is retryable exactly when its [code] is one of ETIMEDOUT,
    ECONNRESET, ENOTFOUND, ECONNREFUSED and EHOSTUNREACH, or its message
    contains "timeout" or "rate limit", in this very spelling. *)
Theorem isRetryableError_by_code_or_wording (error : JsError.t) :
  EmailSender.isRetryableError error = true
  <-> (exists c,
         JsError.code error = Some c
         /\ In c ["ETIMEDOUT"; "ECONNRESET"; "ENOTFOUND"; "ECONNREFUSED";
                  "EHOSTUNREACH"])
      \/ occurs_in "timeout" (JsError.message error)
      \/ occurs_in "rate limit" (JsError.message error).
Proof.
  unfold EmailSender.isRetryableError.
  rewrite !orb_true_iff, !includes_occurs.
  assert (Hcode : match JsError.code error with
                  | Some c => existsb (String.eqb c) EmailSender.retryableErrors
                  | None => false
                  end = true
                  <-> exists c, JsError.code error = Some c
                                /\ In c EmailSender.retryableErrors).
  { destruct (JsError.code error) as [c|].
    - rewrite existsb_exists. split.
      + intros (c' & Hin & Heq). apply String.eqb_eq in Heq as ->. by exists c'.
      + intros (c' & [= ->] & Hin). exists c'. by rewrite String.eqb_refl.
    - split; [done | intros (? & [=] & _)]. }
  rewrite Hcode. unfold EmailSender.retryableErrors. intuition discriminate.
Qed.

End Classification.

Section StripHtml.

Import EmailSender.

Lemma has_tag_app a b :
  has_tag (a ++ b) = false -> has_tag a = false /\ has_tag b = false.
Proof.
  induction a as [|c a IH]; simpl; [done|].
  rewrite existsb_app, !orb_false_iff, !andb_false_iff, orb_false_iff.
  intros [Hc Hab]. destruct (IH Hab) as [Ha Hb]. intuition.
Qed.

Lemma no_close_no_tag s :
  existsb (N.eqb 62) s = false -> has_tag s = false.
Proof.
  induction s as [|c s IH]; simpl; [done|].
  rewrite !orb_false_iff. intros [_ Hs]. rewrite Hs, (IH Hs).
  by rewrite andb_false_r.
Qed.

Lemma has_tag_spec s :
  has_tag s = false ->
  forall before after, s = (before ++ 60%N :: after)%list -> ~ In 62%N after.
Proof.
  intros Hs before after ->. apply has_tag_app in Hs as [_ Hs].
  simpl in Hs. apply orb_false_iff in Hs as [Hs _]. simpl in Hs.
  intros Hin. assert (existsb (N.eqb 62) after = true); [|congruence].
  apply existsb_exists. exists 62%N. by rewrite N.eqb_refl.
Qed.

Lemma removeTags_tagless inside html :
  has_tag (removeTags inside html) = false.
Proof.
  revert inside. induction html as [|c html IH]; intros inside; simpl.
  - by destruct inside.
  - destruct inside.
    + destruct (c =? 62)%N; apply IH.
    + destruct (c =? 60)%N eqn:Hc.
      * destruct (existsb (N.eqb 62) html) eqn:Hclose; [apply IH|].
        simpl. by rewrite Hc, Hclose, (no_close_no_tag _ Hclose).
      * simpl. by rewrite Hc, IH.
Qed.

Lemma removeTags_plain html :
  has_tag html = false -> removeTags false html = html.
Proof.
  induction html as [|c html IH]; simpl; [done|].
  rewrite orb_false_iff, andb_false_iff. intros [Hc Hrest].
  destruct (c =? 60)%N.
  - destruct Hc as [[=]|Hclose]. by rewrite Hclose.
  - by rewrite (IH Hrest).
Qed.

Lemma removeTags_sublist inside html :
  sublist (removeTags inside html) html.
Proof.
  revert inside. induction html as [|c html IH]; intros inside; simpl.
  - by destruct inside.
  - destruct inside.
    + destruct (c =? 62)%N; apply sublist_cons, IH.
    + destruct (c =? 60)%N.
      * destruct (existsb (N.eqb 62) html); [apply sublist_cons, IH | done].
      * apply sublist_skip, IH.
Qed.

Lemma trimStart_spec s :
  exists blank,
    s = (blank ++ trimStart s)%list
    /\ forallb isWhiteSpace blank = true
    /\ starts_clean (trimStart s) = true.
Proof.
  induction s as [|c s (blank & Hs & Hblank & Hclean)].
  - by exists [].
  - simpl. destruct (isWhiteSpace c) eqn:Hc.
    + exists (c :: blank). simpl. rewrite Hc, Hblank, <- Hs. done.
    + exists []. simpl. by rewrite Hc.
Qed.

Lemma trimStart_clean s :
  starts_clean s = true -> trimStart s = s.
Proof.
  destruct s as [|c s]; simpl; [done|]. by destruct (isWhiteSpace c).
Qed.

Lemma trim_spec s :
  exists before after,
    s = (before ++ trim s ++ after)%list
    /\ forallb isWhiteSpace before = true
    /\ forallb isWhiteSpace after = true
    /\ trimmed (trim s) = true.
Proof.
  unfold trim, trimmed.
  destruct (trimStart_spec s) as (before & Hs & Hbefore & Hclean).
  destruct (trimStart_spec (rev (trimStart s))) as (blank & Hr & Hblank & Hend).
  set (core := trimStart (rev (trimStart s))) in *.
  assert (Ht : trimStart s = (rev core ++ rev blank)%list).
  { by rewrite <- rev_app_distr, <- Hr, rev_involutive. }
  exists before, (rev blank). repeat split.
  - by rewrite <- Ht.
  - done.
  - rewrite forallb_forall in *. intros c Hc. apply Hblank.
    by apply in_rev.
  - rewrite rev_involutive, Hend, andb_true_r.
    rewrite Ht in Hclean. by destruct (rev core).
Qed.

Lemma trim_trimmed s :
  trimmed s = true -> trim s = s.
Proof.
  unfold trimmed, trim. rewrite andb_true_iff. intros [Hstart Hend].
  by rewrite (trimStart_clean _ Hstart), (trimStart_clean _ Hend),
    rev_involutive.
Qed.

(** X13. What [stripHtml] returns holds no tag: no [<] of it has a [>]
    anywhere behind it.  It neither begins nor ends with white space,
    it is made of code units of the input in their order, and [stripHtml]
    leaves it as it is. *)
Theorem stripHtml_leaves_trimmed_tagless_text (html : list N) :
  let text := stripHtml html in
  has_tag text = false
  /\ (forall before after,
        text = (before ++ 60%N :: after)%list -> ~ In 62%N after)
  /\ trimmed text = true
  /\ sublist text html
  /\ stripHtml text = text.
Proof.
  unfold stripHtml.
  destruct (trim_spec (removeTags false html))
    as (before & after & Hsplit & _ & _ & Htrimmed).
  set (text := trim (removeTags false html)) in *. cbn zeta.
  assert (Htagless : has_tag text = false).
  { pose proof (removeTags_tagless false html) as Hno.
    rewrite Hsplit in Hno.
    apply has_tag_app in Hno as [_ Hno]. by apply has_tag_app in Hno as [Hno _]. }
  split; [done|]. split; [by apply has_tag_spec|].
  repeat split; try done.
  - transitivity (removeTags false html); [|apply removeTags_sublist].
    rewrite Hsplit. apply sublist_inserts_l, sublist_inserts_r. done.
  - rewrite (removeTags_plain _ Htagless). by apply trim_trimmed.
Qed.

(** X14. On a text without a tag, a lone [<] or [>] included, [stripHtml]
    only trims: the result is the text without the white space at its two
    ends, and the text itself when there is none. *)
Theorem stripHtml_only_trims_plain_text (html : list N) :
  has_tag html = false ->
  stripHtml html = trim html
  /\ (trimmed html = true -> stripHtml html = html)
  /\ exists before after,
       html = (before ++ stripHtml html ++ after)%list
       /\ forallb isWhiteSpace before = true
       /\ forallb isWhiteSpace after = true.
Proof.
  intros Hplain. unfold stripHtml. rewrite (removeTags_plain _ Hplain).
  repeat split; [apply trim_trimmed|].
  destruct (trim_spec html) as (before & after & Hsplit & Hb & Ha & _).
  by exists before, after.
Qed.

End StripHtml.

(** ** The user and template caches *)

Section Caches.

Lemma user_error_spec (e : JsError.t) (x : Ext.t) :
  match JsError.kind e with
  | AxiosError (Some 404) => ret None
  | _ => throw e
  end x
  = (user_error e, x).
Proof.
  unfold user_error. destruct (JsError.kind e) as [|[[|p|p]|]]; try done.
  do 9 (try destruct p as [p|p|]; try done).
Qed.

Lemma getUserById_spec env user_id x :
  let key := "user:" +:+ user_id in
  UserService.getUserById env user_id x
  = match cached key x with
    | Some d => (Ok (Some d), commanded (RedisGet key) x)
    | None =>
        fetch_and_cache key (HttpGetUser user_id) UserService.CACHE_TTL DUser
          (Env.user_service env user_id) user_error x
    end.
Proof.
  cbn zeta. unfold UserService.getUserById, try_catch.
  rewrite (bind_Ok _ _ _ _ _ (get_spec _ _)). fold (cached ("user:" +:+ user_id) x).
  destruct (cached _ x) as [d|]; [done|].
  unfold fetch_and_cache, asked.
  set (x0 := commanded _ x).
  unfold bind at 1. unfold emit_event at 1. unfold modify at 1.
  fold (emitted (HttpGetUser user_id) x0). set (x1 := emitted _ x0).
  destruct (Env.user_service env user_id) as [user|e].
  - unfold of_res. rewrite (bind_Ok (ret user) _ x1 user x1 eq_refl).
    unfold bind. rewrite set_spec by done.
    destruct (fault_of x1) as [e|]; [|done]. apply user_error_spec.
  - unfold of_res. rewrite (bind_Throw (throw e) _ x1 e x1 eq_refl).
    apply user_error_spec.
Qed.

Lemma getTemplate_spec env template_code x :
  let key := "template:" +:+ template_code in
  TemplateService.getTemplate env template_code x
  = match cached key x with
    | Some d => (Ok (Some d), commanded (RedisGet key) x)
    | None =>
        fetch_and_cache key (HttpGetTemplate template_code)
          TemplateService.CACHE_TTL DTemplate
          (Env.template_service env template_code) (fun _ => Ok None) x
    end.
Proof.
  cbn zeta. unfold TemplateService.getTemplate, try_catch.
  rewrite (bind_Ok _ _ _ _ _ (get_spec _ _)).
  fold (cached ("template:" +:+ template_code) x).
  destruct (cached _ x) as [d|]; [done|].
  unfold fetch_and_cache, asked.
  set (x0 := commanded _ x).
  unfold bind at 1. unfold emit_event at 1. unfold modify at 1.
  fold (emitted (HttpGetTemplate template_code) x0). set (x1 := emitted _ x0).
  destruct (Env.template_service env template_code) as [template|e].
  - unfold of_res. rewrite (bind_Ok (ret template) _ x1 template x1 eq_refl).
    unfold bind. rewrite set_spec by done.
    by destruct (fault_of x1) as [e|].
  - unfold of_res. by rewrite (bind_Throw (throw e) _ x1 e x1 eq_refl).
Qed.

Lemma cached_hit key d x :
  fault_of x = None -> read_key key x = Some d -> cached key x = Some d.
Proof. unfold cached. by intros -> ->. Qed.

Lemma cached_miss key x :
  (fault_of x = None -> read_key key x = None) -> cached key x = None.
Proof. unfold cached. destruct (fault_of x); [done|]. by intros ->. Qed.

(** A value cached at [written] for [ttl] seconds, as a later world with
    the same entry sees it. *)
Lemma read_key_later key d ttl x x2 :
  Ext.store x2 !! key = Ext.store (stored key d ttl x) !! key ->
  read_key key x2
  = if Ext.clock x2 <? Ext.clock x + 1000 * ttl then Some d else None.
Proof.
  unfold read_key, stored. simpl. rewrite lookup_insert_eq. by intros ->.
Qed.

(** X15. On a cache miss, when the user service answers and the cache write
    succeeds, [getUserById] returns the user after one cache read, one
    request and one write with 1800 s to live.  For the next 30 minutes,
    while the entry is untouched and Redis can be read, [getUserById]
    returns that user after the cache read alone, whatever the user service
    would answer; from then on it asks the service again. *)
Theorem getUserById_serves_from_cache_for_thirty_minutes
    (env : Env.t) (user_id : string) (user : UserData.t) (x : Ext.t) :
  let key := "user:" +:+ user_id in
  let first := UserService.getUserById env user_id x in
  cached key x = None ->
  Env.user_service env user_id = Ok user ->
  fault_of (asked key (HttpGetUser user_id) x) = None ->
  fst first = Ok (Some (DUser user))
  /\ Ext.trace (snd first)
     = (Ext.trace x
        ++ [RedisGet key; HttpGetUser user_id;
            RedisSetEx key 1800 (DUser user)])%list
  /\ forall (env' : Env.t) (later : Ext.t),
       Ext.store later !! key = Ext.store (snd first) !! key ->
       fault_of later = None ->
       if Ext.clock later <? Ext.clock x + 1800000 then
         UserService.getUserById env' user_id later
         = (Ok (Some (DUser user)), commanded (RedisGet key) later)
       else
         exists rest,
           Ext.trace (snd (UserService.getUserById env' user_id later))
           = (Ext.trace later
              ++ RedisGet key :: HttpGetUser user_id :: rest)%list.
Proof.
  cbn zeta. intros Hmiss Hfetch Hup.
  rewrite getUserById_spec, Hmiss. unfold fetch_and_cache.
  rewrite Hfetch, Hup. simpl. split; [done|]. split.
  { by rewrite <- !app_assoc. }
  intros env' later Hsame Hlater.
  pose proof (read_key_later _ _ _ _ _ Hsame) as Hread. simpl in Hread.
  change (1000 * UserService.CACHE_TTL) with 1800000 in Hread.
  rewrite getUserById_spec. unfold cached. rewrite Hlater, Hread.
  destruct (Ext.clock later <? Ext.clock x + 1800000); [done|].
  unfold fetch_and_cache.
  destruct (Env.user_service env' user_id) as [user'|e]; simpl.
  - destruct (fault_of (asked _ _ later)); simpl; rewrite <- ?app_assoc;
      by eexists.
  - rewrite <- ?app_assoc; by eexists.
Qed.

(** X16. On a cache miss or a failed cache read, when the request to the
    user service fails, or when it succeeds and the cache write fails,
    [getUserById] returns [null] for an axios error with response status
    404 and throws every other error again; the cache is left as it was. *)
Theorem getUserById_404_is_null_other_errors_are_thrown
    (env : Env.t) (user_id : string) (x : Ext.t) (e : JsError.t) :
  let key := "user:" +:+ user_id in
  let request := HttpGetUser user_id in
  let failed :=
    Env.user_service env user_id = Throw e
    \/ (exists user,
          Env.user_service env user_id = Ok user
          /\ fault_of (asked key request x) = Some e) in
  cached key x = None ->
  failed ->
  let (r, x') := UserService.getUserById env user_id x in
  (JsError.kind e = AxiosError (Some 404) -> r = Ok None)
  /\ (JsError.kind e <> AxiosError (Some 404) -> r = Throw e)
  /\ Ext.store x' = Ext.store x
  /\ exists rest,
       Ext.trace x' = (Ext.trace x ++ RedisGet key :: request :: rest)%list.
Proof.
  cbn zeta. intros Hmiss Hfailed. rewrite getUserById_spec, Hmiss.
  unfold fetch_and_cache.
  assert (Hnull : JsError.kind e = AxiosError (Some 404) ->
                  user_error e = Ok None).
  { unfold user_error. by intros ->. }
  assert (Hthrown : JsError.kind e <> AxiosError (Some 404) ->
                    user_error e = Throw e).
  { unfold user_error. intros Hne.
    destruct (JsError.kind e) as [|[z|]]; try done.
    destruct (decide (z = 404)) as [->|Hz]; [done|].
    destruct z as [|p|p]; try done.
    do 9 (try destruct p as [p|p|]; try done). }
  destruct Hfailed as [->|(user & -> & ->)]; simpl;
    (split; [done|]); (split; [done|]); (split; [done|]);
    rewrite <- ?app_assoc; by eexists.
Qed.

(** X17. [invalidateCache], of [UserService] and of [TemplateService] alike,
    never throws, whether its delete reaches Redis or fails.  When the
    delete reaches Redis, the next lookup under that name, made while the
    key is untouched, asks the service again; when it fails, Redis holds
    what it held. *)
Theorem invalidateCache_forces_a_fetch
    (env : Env.t) (name : string) (x later : Ext.t) :
  let user_key := "user:" +:+ name in
  let template_key := "template:" +:+ name in
  let user_gone := snd (UserService.invalidateCache name x) in
  let template_gone := snd (TemplateService.invalidateCache name x) in
  fst (UserService.invalidateCache name x) = Ok tt
  /\ fst (TemplateService.invalidateCache name x) = Ok tt
  /\ (fault_of x = None ->
      (Ext.store later !! user_key = Ext.store user_gone !! user_key ->
       exists rest,
         Ext.trace (snd (UserService.getUserById env name later))
         = (Ext.trace later
            ++ RedisGet user_key :: HttpGetUser name :: rest)%list)
      /\ (Ext.store later !! template_key
          = Ext.store template_gone !! template_key ->
          exists rest,
            Ext.trace (snd (TemplateService.getTemplate env name later))
            = (Ext.trace later
               ++ RedisGet template_key :: HttpGetTemplate name :: rest)%list))
  /\ (fault_of x <> None ->
      Ext.store user_gone = Ext.store x
      /\ Ext.store template_gone = Ext.store x).
Proof.
  cbn zeta.
  unfold UserService.invalidateCache, TemplateService.invalidateCache.
  rewrite !del_spec. split; [done|]. split; [done|]. split.
  - intros Hup. rewrite Hup. simpl. rewrite !lookup_delete_eq.
    split; intros Hgone.
    + rewrite getUserById_spec.
      rewrite cached_miss by (intros _; unfold read_key; by rewrite Hgone).
      unfold fetch_and_cache.
      destruct (Env.user_service env name) as [user|e]; simpl.
      * destruct (fault_of (asked _ _ later)); simpl; rewrite <- ?app_assoc;
          by eexists.
      * rewrite <- ?app_assoc; by eexists.
    + rewrite getTemplate_spec.
      rewrite cached_miss by (intros _; unfold read_key; by rewrite Hgone).
      unfold fetch_and_cache.
      destruct (Env.template_service env name) as [template|e]; simpl.
      * destruct (fault_of (asked _ _ later)); simpl; rewrite <- ?app_assoc;
          by eexists.
      * rewrite <- ?app_assoc; by eexists.
  - intros Hdown. simpl. by destruct (fault_of x).
Qed.

(** X18. [getTemplate] never throws.  A template it returns was in the cache,
    or has just been fetched and cached with 3600 s to live; it returns
    [null] when the request failed, and also when the template was fetched
    but the cache write failed; the cache is then as it was. *)
Theorem getTemplate_never_throws
    (env : Env.t) (template_code : string) (x : Ext.t) :
  let key := "template:" +:+ template_code in
  let request := HttpGetTemplate template_code in
  let (r, x') := TemplateService.getTemplate env template_code x in
  match r with
  | Throw _ => False
  | Ok (Some d) =>
      (cached key x = Some d /\ x' = commanded (RedisGet key) x)
      \/ (exists template,
            cached key x = None
            /\ Env.template_service env template_code = Ok template
            /\ d = DTemplate template
            /\ read_key key x' = Some d
            /\ Ext.trace x'
               = (Ext.trace x
                  ++ [RedisGet key; request; RedisSetEx key 3600 d])%list)
  | Ok None =>
      cached key x = None
      /\ Ext.store x' = Ext.store x
      /\ ((exists e, Env.template_service env template_code = Throw e)
          \/ (exists e, fault_of (asked key request x) = Some e))
  end.
Proof.
  cbn zeta. rewrite getTemplate_spec.
  destruct (cached _ x) as [d|] eqn:Hcached; [by left|].
  unfold fetch_and_cache.
  destruct (Env.template_service env template_code) as [template|e].
  - destruct (fault_of (asked _ _ x)) as [e|] eqn:Hfault.
    + split; [done|]. split; [done|]. right. by exists e.
    + right. exists template. repeat split.
      * by rewrite read_key_stored.
      * simpl. by rewrite <- !app_assoc.
  - split; [done|]. split; [done|]. left. by exists e.
Qed.

End Caches.

(** ** The paths of a delivery *)

Section Paths.

Import EmailService.

Variable env : Env.t.
Variable payload : EmailNotificationPayload.t.

Let request_id := EmailNotificationPayload.request_id payload.
Let user_id := EmailNotificationPayload.user_id payload.
Let template_code := EmailNotificationPayload.template_code payload.

Lemma after_status_clock notification_id status error x :
  Ext.clock (after_status notification_id status error x) = Ext.clock x.
Proof. unfold after_status. by destruct (fault_of x). Qed.

(** The consumer never throws: it acks a success and nacks a failure
    with the answer of [shouldRetry]. *)
Lemma handle_settles w result w1 :
  processEmailNotification env payload w = (Ok result, w1) ->
  EmailController.handleEmailNotification env payload w
  = (Ok tt, settled payload result w1).
Proof.
  intros Hproc.
  unfold EmailController.handleEmailNotification, try_catch, settled.
  rewrite (bind_Ok _ _ _ _ _ Hproc).
  destruct (EmailSendResult.success result); [done|].
  rewrite (bind_Ok _ _ _ _ _ (lift_run _ _ _ _ (shouldRetry_spec _ _))).
  by destruct (RetryService.js_lt _ _).
Qed.

(** Past the guard and the PENDING status, with the user found. *)
Lemma process_with_user w u x1 :
  fst (checkIdempotency request_id (World.ext w)) = Ok false ->
  UserService.getUserById env user_id (at_lookup payload w)
  = (Ok (Some (DUser u)), x1) ->
  process env payload w
  = (if negb (Preferences.email (UserData.preferences u)) then
       lift (updateStatus request_id FAILED
               (Some "User has email notifications disabled")) ;;
       let* now := lift Date_now in
       ret (EmailSendResult.mk false None
              (Some "User preferences disabled") now)
     else
       let* template :=
         lift (TemplateService.getTemplate env template_code) in
       match template with
       | None => throw (Error ("Template not found: " +:+ template_code))
       | Some template =>
           let* renderedEmail :=
             TemplateService.renderTemplate env template
               (assign "user_name" (SString (UserData.name u))
                  (EmailNotificationPayload.variables payload)) in
           let* result :=
             EmailSender.sendEmail env (payload_of payload u renderedEmail) in
           (if EmailSendResult.success result then
              lift (updateStatus request_id DELIVERED None) ;;
              lift (markAsProcessed request_id result)
            else
              lift (updateStatus request_id FAILED
                      (EmailSendResult.error result))) ;;
           ret result
       end)
      (World.mk x1 (World.circuits w)).
Proof.
  intros Hnew Hlookup. unfold process.
  rewrite (bind_Ok _ _ _ _ _ (lift_run _ _ _ _ (checkIdempotency_spec _ _))).
  rewrite checkIdempotency_spec in Hnew. simpl in Hnew.
  injection Hnew as Hnew. fold request_id. rewrite Hnew. cbv beta iota.
  unfold deliver.
  rewrite (bind_Ok _ _ _ _ _ (lift_run _ _ _ _ (updateStatus_spec _ _ _ _))).
  cbn [World.ext World.circuits]. unfold at_lookup in Hlookup.
  rewrite (bind_Ok _ _ _ _ _ (lift_run_mk _ _ _ _ _ Hlookup)).
  reflexivity.
Qed.

(** X19. For a request not known as processed whose user has email
    notifications off, [processEmailNotification] emits FAILED with "User
    has email notifications disabled" right after the user lookup and
    returns [{success: false, error: "User preferences disabled"}]: no
    template is looked up, nothing is sent and no circuit is touched.  The
    consumer then asks [shouldRetry] and nacks with its answer. *)
Theorem disabled_preferences_end_the_delivery
    (w : World.t) (u : UserData.t) (x1 : Ext.t) :
  let failed :=
    after_status request_id FAILED
      (Some "User has email notifications disabled") x1 in
  let result :=
    EmailSendResult.mk false None (Some "User preferences disabled")
      (Ext.clock x1) in
  fst (checkIdempotency request_id (World.ext w)) = Ok false ->
  UserService.getUserById env user_id (at_lookup payload w)
  = (Ok (Some (DUser u)), x1) ->
  Preferences.email (UserData.preferences u) = false ->
  processEmailNotification env payload w
  = (Ok result, World.mk failed (World.circuits w))
  /\ Ext.trace failed
     = (Ext.trace x1
        ++ [StatusEmit "email.status"
              (StatusUpdate.mk request_id FAILED (Ext.clock x1)
                 (Some "User has email notifications disabled"));
            RedisSetEx ("status:" +:+ request_id) 3600
              (DStatus
                 (StatusUpdate.mk request_id FAILED (Ext.clock x1)
                    (Some "User has email notifications disabled")))])%list
  /\ EmailController.handleEmailNotification env payload w
     = (Ok tt, settled payload result (World.mk failed (World.circuits w))).
Proof.
  cbn zeta. intros Hnew Hlookup Hoff.
  assert (Hproc : processEmailNotification env payload w
                  = (Ok (EmailSendResult.mk false None
                           (Some "User preferences disabled") (Ext.clock x1)),
                     World.mk
                       (after_status request_id FAILED
                          (Some "User has email notifications disabled") x1)
                       (World.circuits w))).
  { unfold processEmailNotification, try_catch.
    rewrite (process_with_user _ _ _ Hnew Hlookup), Hoff. cbn [negb].
    rewrite (bind_Ok _ _ _ _ _ (lift_run_mk _ _ _ _ _ (updateStatus_spec _ _ _ _))).
    unfold bind, lift, Date_now, gets, ret. simpl.
    unfold after_status. by destruct (fault_of x1). }
  split; [done|]. split; [apply after_status_trace|].
  by apply handle_settles.
Qed.

(** X20. For a request not known as processed whose user accepts email, when
    [getTemplate] returns [null], [processEmailNotification] emits FAILED
    with "Template not found: <template_code>" and returns that error:
    nothing is sent and no circuit is touched.  The consumer then asks
    [shouldRetry] and nacks with its answer. *)
Theorem missing_template_fails_before_the_breaker
    (w : World.t) (u : UserData.t) (x1 x2 : Ext.t) :
  let message := "Template not found: " +:+ template_code in
  let failed := after_status request_id FAILED (Some message) x2 in
  let result :=
    EmailSendResult.mk false None (Some message) (Ext.clock x2) in
  fst (checkIdempotency request_id (World.ext w)) = Ok false ->
  UserService.getUserById env user_id (at_lookup payload w)
  = (Ok (Some (DUser u)), x1) ->
  Preferences.email (UserData.preferences u) = true ->
  TemplateService.getTemplate env template_code x1 = (Ok None, x2) ->
  processEmailNotification env payload w
  = (Ok result, World.mk failed (World.circuits w))
  /\ Ext.trace failed
     = (Ext.trace x2
        ++ [StatusEmit "email.status"
              (StatusUpdate.mk request_id FAILED (Ext.clock x2) (Some message));
            RedisSetEx ("status:" +:+ request_id) 3600
              (DStatus
                 (StatusUpdate.mk request_id FAILED (Ext.clock x2)
                    (Some message)))])%list
  /\ EmailController.handleEmailNotification env payload w
     = (Ok tt, settled payload result (World.mk failed (World.circuits w))).
Proof.
  cbn zeta. intros Hnew Hlookup Hon Htemplate.
  assert (Hproc : processEmailNotification env payload w
                  = (Ok (EmailSendResult.mk false None
                           (Some ("Template not found: " +:+ template_code))
                           (Ext.clock x2)),
                     World.mk
                       (after_status request_id FAILED
                          (Some ("Template not found: " +:+ template_code)) x2)
                       (World.circuits w))).
  { unfold processEmailNotification, try_catch.
    rewrite (process_with_user _ _ _ Hnew Hlookup), Hon. cbn [negb].
    rewrite (bind_Ok _ _ _ _ _ (lift_run_mk _ _ _ _ _ Htemplate)).
    unfold throw. by rewrite on_error_spec. }
  split; [done|]. split; [apply after_status_trace|].
  by apply handle_settles.
Qed.

Section Sending.

Variables (w : World.t) (u : UserData.t) (x1 x2 : Ext.t).
Variables (template : EmailTemplate.t) (rendered : Rendered.t).

Let mail := payload_of payload u rendered.

Hypothesis Hnew : fst (checkIdempotency request_id (World.ext w)) = Ok false.
Hypothesis Hlookup :
  UserService.getUserById env user_id (at_lookup payload w)
  = (Ok (Some (DUser u)), x1).
Hypothesis Hon : Preferences.email (UserData.preferences u) = true.
Hypothesis Htemplate :
  TemplateService.getTemplate env template_code x1
  = (Ok (Some (DTemplate template)), x2).
Hypothesis Hrendered :
  Env.render env template
    (assign "user_name" (SString (UserData.name u))
       (EmailNotificationPayload.variables payload))
  = Ok rendered.

(** With the user and the template at hand, what is left is the send and
    what follows it. *)
Lemma process_at_send :
  process env payload w
  = (let* result := EmailSender.sendEmail env mail in
     (if EmailSendResult.success result then
        lift (updateStatus request_id DELIVERED None) ;;
        lift (markAsProcessed request_id result)
      else
        lift (updateStatus request_id FAILED (EmailSendResult.error result))) ;;
     ret result)
      (World.mk x2 (World.circuits w)).
Proof.
  rewrite (process_with_user _ _ _ Hnew Hlookup), Hon. cbn [negb].
  rewrite (bind_Ok _ _ _ _ _ (lift_run_mk _ _ _ _ _ Htemplate)).
  unfold TemplateService.renderTemplate, try_catch. rewrite Hrendered.
  reflexivity.
Qed.

(** The send itself, when the breaker lets it through. *)
Lemma sendEmail_through :
  ~ rejects (current "email_send" w) (Ext.clock x2) ->
  exists w3,
    EmailSender.sendEmail env mail (World.mk x2 (World.circuits w))
    = (Ok (send_result env mail (Ext.clock x2)), w3)
    /\ World.ext w3 = sent env mail x2
    /\ World.circuits w3 !! "email_send"
       = Some (CircuitBreakerService.onSuccess
                 (entered (current "email_send" w))).
Proof.
  intros Hpass.
  destruct (execute_through (EmailSender.operation env mail) "email_send"
              (World.mk x2 (World.circuits w)) _ _ Hpass
              (operation_returns env mail x2))
    as (w3 & Hex & Hext & Hc).
  by exists w3.
Qed.

(** X21. With the user and the template found and the template rendered, when
    the breaker lets the call through, the transporter accepts the mail and
    the write of the processed record succeeds, [processEmailNotification]
    returns [{success: true, message_id}]; after the template lookup it
    sends the mail, emits DELIVERED and stores the result under
    [processed:<request_id>] for 86400 s, in this order; the circuit has
    counted a success, and the consumer acks. *)
Theorem delivered_mail_is_recorded_and_acked (messageId : string) :
  let result :=
    EmailSendResult.mk true (Some messageId) None (Ext.clock x2) in
  let x3 := after_status request_id DELIVERED None (sent env mail x2) in
  let record := RedisSetEx (key_of request_id) 86400 (DResult result) in
  ~ rejects (current "email_send" w) (Ext.clock x2) ->
  Env.transporter env (mail_of env mail) = Ok messageId ->
  fault_of x3 = None ->
  exists w',
    processEmailNotification env payload w = (Ok result, w')
    /\ World.ext w'
       = stored (key_of request_id) (DResult result) 86400
           (commanded record x3)
    /\ read_key (key_of request_id) (World.ext w') = Some (DResult result)
    /\ Ext.trace (World.ext w')
       = (Ext.trace x2
          ++ [SendMail (mail_of env mail);
              StatusEmit "email.status"
                (StatusUpdate.mk request_id DELIVERED (Ext.clock x2) None);
              RedisSetEx ("status:" +:+ request_id) 3600
                (DStatus
                   (StatusUpdate.mk request_id DELIVERED (Ext.clock x2) None));
              record])%list
    /\ World.circuits w' !! "email_send"
       = Some (CircuitBreakerService.onSuccess
                 (entered (current "email_send" w)))
    /\ EmailController.handleEmailNotification env payload w
       = (Ok tt, World.mk (emitted Ack (World.ext w')) (World.circuits w')).
Proof.
  cbn zeta. intros Hpass Hsent Hrecord.
  destruct (sendEmail_through Hpass) as ([x3 cs3] & Hsend & Hext & Hcircuit).
  simpl in Hext, Hcircuit. subst x3.
  unfold send_result in Hsend. rewrite Hsent in Hsend.
  eexists (World.mk _ cs3).
  assert (Hproc : processEmailNotification env payload w
                  = (Ok (EmailSendResult.mk true (Some messageId) None
                           (Ext.clock x2)),
                     World.mk
                       (stored (key_of request_id)
                          (DResult (EmailSendResult.mk true (Some messageId)
                                      None (Ext.clock x2)))
                          86400
                          (commanded
                             (RedisSetEx (key_of request_id) 86400
                                (DResult (EmailSendResult.mk true
                                            (Some messageId) None
                                            (Ext.clock x2))))
                             (after_status request_id DELIVERED None
                                (sent env mail x2))))
                       cs3)).
  { unfold processEmailNotification, try_catch.
    rewrite process_at_send, (bind_Ok _ _ _ _ _ Hsend). cbn [EmailSendResult.success].
    unfold bind at 1.
    rewrite (bind_Ok _ _ _ _ _
               (lift_run_mk _ _ _ _ _ (updateStatus_spec _ _ _ _))).
    unfold markAsProcessed.
    rewrite lift_spec. cbn [World.ext World.circuits].
    rewrite set_spec, Hrecord by done. reflexivity. }
  split; [exact Hproc|]. split; [done|].
  split; [by apply read_key_stored|].
  split; [|split; [done|]].
  - cbn [World.ext stored commanded Ext.trace].
    rewrite after_status_trace. cbn [sent Ext.trace status_of Ext.clock].
    by rewrite <- !app_assoc.
  - by rewrite (handle_settles _ _ _ Hproc).
Qed.

(** X22. With the user and the template found and the template rendered, when
    the mail has gone out and the write of the processed record fails,
    [processEmailNotification] returns [{success: false}] with the write's
    error: the trace holds the mail, the DELIVERED status and then a FAILED
    one, nothing is stored under [processed:<request_id>], and the consumer
    asks [shouldRetry] and nacks with its answer. *)
Theorem sent_mail_is_reported_failed_when_the_record_fails
    (messageId : string) (e : JsError.t) :
  let sent_result :=
    EmailSendResult.mk true (Some messageId) None (Ext.clock x2) in
  let x3 := after_status request_id DELIVERED None (sent env mail x2) in
  let record := RedisSetEx (key_of request_id) 86400 (DResult sent_result) in
  let failed :=
    after_status request_id FAILED (Some (JsError.message e))
      (commanded record x3) in
  let result :=
    EmailSendResult.mk false None (Some (JsError.message e)) (Ext.clock x2) in
  ~ rejects (current "email_send" w) (Ext.clock x2) ->
  Env.transporter env (mail_of env mail) = Ok messageId ->
  fault_of x3 = Some e ->
  exists w',
    processEmailNotification env payload w = (Ok result, w')
    /\ World.ext w' = failed
    /\ Ext.store failed !! key_of request_id = Ext.store x2 !! key_of request_id
    /\ Ext.trace failed
       = (Ext.trace x2
          ++ [SendMail (mail_of env mail);
              StatusEmit "email.status"
                (StatusUpdate.mk request_id DELIVERED (Ext.clock x2) None);
              RedisSetEx ("status:" +:+ request_id) 3600
                (DStatus
                   (StatusUpdate.mk request_id DELIVERED (Ext.clock x2) None));
              record;
              StatusEmit "email.status"
                (StatusUpdate.mk request_id FAILED (Ext.clock x2)
                   (Some (JsError.message e)));
              RedisSetEx ("status:" +:+ request_id) 3600
                (DStatus
                   (StatusUpdate.mk request_id FAILED (Ext.clock x2)
                      (Some (JsError.message e))))])%list
    /\ World.circuits w' !! "email_send"
       = Some (CircuitBreakerService.onSuccess
                 (entered (current "email_send" w)))
    /\ EmailController.handleEmailNotification env payload w
       = (Ok tt, settled payload result w').
Proof.
  cbn zeta. intros Hpass Hsent Hrecord.
  destruct (sendEmail_through Hpass) as ([x3 cs3] & Hsend & Hext & Hcircuit).
  simpl in Hext, Hcircuit. subst x3.
  unfold send_result in Hsend. rewrite Hsent in Hsend.
  eexists (World.mk _ cs3).
  assert (Hproc : processEmailNotification env payload w
                  = (Ok (EmailSendResult.mk false None
                           (Some (JsError.message e)) (Ext.clock x2)),
                     World.mk
                       (after_status request_id FAILED
                          (Some (JsError.message e))
                          (commanded
                             (RedisSetEx (key_of request_id) 86400
                                (DResult (EmailSendResult.mk true
                                            (Some messageId) None
                                            (Ext.clock x2))))
                             (after_status request_id DELIVERED None
                                (sent env mail x2))))
                       cs3)).
  { unfold processEmailNotification, try_catch.
    rewrite process_at_send, (bind_Ok _ _ _ _ _ Hsend).
    cbn [EmailSendResult.success].
    unfold bind at 1.
    rewrite (bind_Ok _ _ _ _ _
               (lift_run_mk _ _ _ _ _ (updateStatus_spec _ _ _ _))).
    unfold markAsProcessed.
    rewrite lift_spec. cbn [World.ext World.circuits].
    rewrite set_spec, Hrecord by done. cbn [fst snd].
    rewrite on_error_spec. cbn [World.ext World.circuits commanded Ext.clock].
    by rewrite after_status_clock. }
  split; [exact Hproc|]. split; [done|].
  split; [|split; [|split; [done|]]].
  - unfold after_status, key_of.
    repeat match goal with
           | |- context [match ?f with Some _ => _ | None => _ end] =>
               destruct f
           end; simpl; rewrite ?lookup_insert_ne; done.
  - rewrite after_status_trace. cbn [commanded Ext.trace].
    rewrite after_status_trace. unfold status_of.
    cbn [sent Ext.trace Ext.clock commanded]. rewrite after_status_clock.
    cbn [sent Ext.clock]. by rewrite <- !app_assoc.
  - by rewrite (handle_settles _ _ _ Hproc).
Qed.

(** X23. With the user and the template found and the template rendered,
    when the [email_send] circuit rejects the call,
    [processEmailNotification] emits FAILED with "Circuit breaker is OPEN
    for email_send" and returns that error; no mail is sent and the
    circuits are as they were.  The consumer then asks [shouldRetry] and
    nacks with its answer. *)
Theorem open_breaker_fails_the_delivery_without_sending :
  let message := "Circuit breaker is OPEN for email_send" in
  let failed := after_status request_id FAILED (Some message) x2 in
  let result :=
    EmailSendResult.mk false None (Some message) (Ext.clock x2) in
  rejects (current "email_send" w) (Ext.clock x2) ->
  processEmailNotification env payload w
  = (Ok result, World.mk failed (World.circuits w))
  /\ Ext.trace failed
     = (Ext.trace x2
        ++ [StatusEmit "email.status"
              (StatusUpdate.mk request_id FAILED (Ext.clock x2) (Some message));
            RedisSetEx ("status:" +:+ request_id) 3600
              (DStatus
                 (StatusUpdate.mk request_id FAILED (Ext.clock x2)
                    (Some message)))])%list
  /\ EmailController.handleEmailNotification env payload w
     = (Ok tt, settled payload result (World.mk failed (World.circuits w))).
Proof.
  cbn zeta. intros Hrej.
  assert (Hproc : processEmailNotification env payload w
                  = (Ok (EmailSendResult.mk false None
                           (Some "Circuit breaker is OPEN for email_send")
                           (Ext.clock x2)),
                     World.mk
                       (after_status request_id FAILED
                          (Some "Circuit breaker is OPEN for email_send") x2)
                       (World.circuits w))).
  { unfold processEmailNotification, try_catch.
    rewrite process_at_send.
    unfold EmailSender.sendEmail.
    rewrite (bind_Throw _ _ _ _ _
               (execute_rejected _ "email_send"
                  (World.mk x2 (World.circuits w)) Hrej)).
    by rewrite on_error_spec. }
  split; [done|]. split; [apply after_status_trace|].
  by apply handle_settles.
Qed.

End Sending.

End Paths.

(** ** What a message may cost *)

Section Budgets.

Lemma calls_app c evs1 evs2 :
  calls_to c (evs1 ++ evs2) = (calls_to c evs1 + calls_to c evs2)%nat.
Proof. unfold calls_to. by rewrite List.filter_app, length_app. Qed.

Lemma within_refl b x : within b x x.
Proof.
  exists []. split; [by rewrite app_nil_r|].
  intros c. unfold calls_to. simpl. lia.
Qed.

Lemma within_trans b1 b2 b x y z :
  (forall c, (b1 c + b2 c <= b c)%nat) ->
  within b1 x y -> within b2 y z -> within b x z.
Proof.
  intros Hb (evs1 & Hxy & H1) (evs2 & Hyz & H2). exists (evs1 ++ evs2)%list.
  split; [by rewrite Hyz, Hxy, app_assoc|].
  intros c. rewrite calls_app. specialize (H1 c). specialize (H2 c).
  specialize (Hb c). lia.
Qed.

Lemma within_mono b1 b x y :
  (forall c, (b1 c <= b c)%nat) -> within b1 x y -> within b x y.
Proof.
  intros Hb (evs & Hxy & H1). exists evs. split; [done|].
  intros c. specialize (H1 c). specialize (Hb c). lia.
Qed.

Context {S : Type} (R : Budget -> S -> S -> Prop) `{!Graded R}.

Lemma R_mono b1 b s1 s2 :
  (forall c, (b1 c <= b c)%nat) -> R b1 s1 s2 -> R b s1 s2.
Proof.
  intros Hb H. apply (graded_trans b1 no_calls b s1 s2 s2); [|done|apply graded_refl].
  intros c. specialize (Hb c). unfold no_calls. lia.
Qed.

Lemma spends_ret {A} b (a : A) : respects (R b) (ret a).
Proof. intros s r s' [= _ <-]. apply graded_refl. Qed.

Lemma spends_throw {A} b e : respects (R b) (@throw S A e).
Proof. intros s r s' [= _ <-]. apply graded_refl. Qed.

Lemma spends_gets {A} b (f : S -> A) : respects (R b) (gets f).
Proof. intros s r s' [= _ <-]. apply graded_refl. Qed.

Lemma spends_of_res {A} b (r : Res A) : respects (R b) (of_res r).
Proof. destruct r; [apply spends_ret | apply spends_throw]. Qed.

Lemma spends_bind {A B} b1 b2 b (c : Eff S A) (k : A -> Eff S B) :
  respects (R b1) c ->
  (forall a, respects (R b2) (k a)) ->
  (forall ch, (b1 ch + b2 ch <= b ch)%nat) ->
  respects (R b) (bind c k).
Proof.
  intros Hc Hk Hb s r s'. unfold bind.
  destruct (c s) as [[a|e] s1] eqn:Hcs.
  - intros Hks. eapply graded_trans; [exact Hb | by eapply Hc | by eapply Hk].
  - intros [= _ <-]. eapply R_mono; [|by eapply Hc].
    intros ch. specialize (Hb ch). lia.
Qed.

Lemma spends_try_catch {A} b1 b2 b (body : Eff S A) handler :
  respects (R b1) body ->
  (forall e, respects (R b2) (handler e)) ->
  (forall ch, (b1 ch + b2 ch <= b ch)%nat) ->
  respects (R b) (try_catch body handler).
Proof.
  intros Hbody Hh Hb s r s'. unfold try_catch.
  destruct (body s) as [[a|e] s1] eqn:Hbs.
  - intros [= _ <-]. eapply R_mono; [|by eapply Hbody].
    intros ch. specialize (Hb ch). lia.
  - intros Hhs. eapply graded_trans; [exact Hb | by eapply Hbody | by eapply Hh].
Qed.

End Budgets.

#[local] Instance within_graded : Graded within.
Proof. split; [apply within_refl | apply within_trans]. Qed.

#[local] Instance withinW_graded : Graded withinW.
Proof.
  split; unfold withinW.
  - intros b w. apply within_refl.
  - intros b1 b2 b w1 w2 w3. apply within_trans.
Qed.

(** Splits a budget between the first part of a program and the rest. *)
Ltac spend b1 :=
  lazymatch goal with
  | |- respects (?R ?b) (bind _ _) =>
      apply (spends_bind R b1 (rest_of b b1) b);
      [ | intros ? | intros []; vm_compute; lia ]
  | |- respects (?R ?b) (try_catch _ _) =>
      apply (spends_try_catch R b1 (rest_of b b1) b);
      [ | intros ? | intros []; vm_compute; lia ]
  end.

Section Spending.

Lemma within_events b evs x x' :
  Ext.trace x' = (Ext.trace x ++ evs)%list ->
  (forall c, (calls_to c evs <= b c)%nat) ->
  within b x x'.
Proof. intros Htrace Hb. by exists evs. Qed.

Lemma spends_less {S A} (R : Budget -> S -> S -> Prop) `{!Graded R}
    b1 b (c : Eff S A) :
  respects (R b1) c ->
  (forall ch, (b1 ch <= b ch)%nat) ->
  respects (R b) c.
Proof.
  intros Hc Hb s r s' Hrun. apply (R_mono R b1 b s s' Hb). by eapply Hc.
Qed.

Lemma spends_get key : respects (within (one_call Redis)) (RedisService.get key).
Proof.
  intros x r x'. rewrite get_spec. intros [= _ <-].
  apply (within_events _ [RedisGet key]); [done|]. by intros [].
Qed.

Lemma spends_set key d ttl :
  respects (within (one_call Redis)) (RedisService.set key d ttl).
Proof.
  intros x r x'. rewrite set_cases.
  destruct (fault_of x) as [e|], (expiring ttl) as [secs|]; intros [= _ <-].
  - apply (within_events _ [RedisSetEx key secs d]); [done|]. by intros [].
  - apply (within_events _ [RedisSet key d]); [done|]. by intros [].
  - apply (within_events _ [RedisSetEx key secs d]); [done|]. by intros [].
  - apply (within_events _ [RedisSet key d]); [done|]. by intros [].
Qed.

Lemma spends_del key : respects (within (one_call Redis)) (RedisService.del key).
Proof.
  intros x r x'. rewrite del_spec. intros [= _ <-].
  apply (within_events _ [RedisDel key]); [|by intros []].
  by destruct (fault_of x).
Qed.

Lemma spends_emit_event ev :
  respects (within (one_call (channel ev))) (emit_event ev).
Proof.
  intros x r x' [= _ <-]. apply (within_events _ [ev]); [done|].
  intros c. unfold calls_to, one_call. simpl.
  destruct (Channel_eqb _ _); simpl; lia.
Qed.

End Spending.

Lemma spends_lift {A} b (c : Eff Ext.t A) :
  respects (within b) c -> respects (withinW b) (lift c).
Proof.
  intros Hc w r w' H. apply lift_inv in H as [H _]. by eapply Hc.
Qed.

(** The circuit breaker spends nothing of its own. *)
Lemma spends_execute {T} b (operation : Eff Ext.t T) circuit_name :
  respects (within b) operation ->
  respects (withinW b) (CircuitBreakerService.execute operation circuit_name).
Proof.
  intros Hop w r w' Hex. unfold withinW.
  destruct (rejects_dec (current circuit_name w) (Ext.clock (World.ext w)))
    as [Hrej|Hpass].
  - rewrite (execute_rejected _ _ _ Hrej) in Hex. injection Hex as _ <-.
    apply within_refl.
  - destruct (operation (World.ext w)) as [r0 x] eqn:Hrun.
    destruct (execute_through _ circuit_name w _ _ Hpass Hrun)
      as (w1 & Hex1 & Hext & _).
    rewrite Hex1 in Hex. injection Hex as _ <-. rewrite Hext.
    by eapply Hop.
Qed.

(** What the first part of a program may spend. *)
Ltac budget_of c :=
  lazymatch c with
  | emit_event ?ev => constr:(one_call (channel ev))
  | RedisService.get _ => constr:(one_call Redis)
  | RedisService.set _ _ _ => constr:(one_call Redis)
  | RedisService.del _ => constr:(one_call Redis)
  | EmailService.updateStatus _ _ _ => constr:(status_budget)
  | EmailService.checkIdempotency _ => constr:(one_call Redis)
  | EmailService.markAsProcessed _ _ => constr:(one_call Redis)
  | EmailService.shouldRetry _ => constr:(one_call Redis)
  | RetryService.getRetryCount _ => constr:(one_call Redis)
  | UserService.getUserById _ _ => constr:(lookup_budget UserApi)
  | TemplateService.getTemplate _ _ => constr:(lookup_budget TemplateApi)
  | EmailSender.sendEmail _ _ => constr:(one_call Smtp)
  | EmailSender.sendMail _ _ => constr:(one_call Smtp)
  | lift ?c' => budget_of c'
  | (if EmailSendResult.success _ then _ else _) =>
      constr:(both status_budget (one_call Redis))
  | _ => constr:(no_calls)
  end.

Ltac spends_weaken lemma b1 :=
  lazymatch goal with
  | |- respects (?R _) _ =>
      apply (spends_less R b1); [apply lemma | intros []; vm_compute; lia]
  end.

Ltac spends_step :=
  lazymatch goal with
  | |- respects (_ _) (bind ?c _) => let b1 := budget_of c in spend b1
  | |- respects (?R _) (ret _) => apply (spends_ret R)
  | |- respects (?R _) (throw _) => apply (spends_throw R)
  | |- respects (?R _) (gets _) => apply (spends_gets R)
  | |- respects (?R _) (of_res _) => apply (spends_of_res R)
  | |- respects (?R _) Date_now => apply (spends_gets R)
  | |- respects _ (lift _) => apply spends_lift
  | |- respects _ (emit_event ?ev) =>
      spends_weaken (spends_emit_event ev) (one_call (channel ev))
  | |- respects _ (RedisService.get ?key) =>
      spends_weaken (spends_get key) (one_call Redis)
  | |- respects _ (RedisService.set ?key ?d ?ttl) =>
      spends_weaken (spends_set key d ttl) (one_call Redis)
  | |- respects _ (RedisService.del ?key) =>
      spends_weaken (spends_del key) (one_call Redis)
  | |- respects _ (match ?t with _ => _ end) => destruct t
  end.

Section Services.

Lemma spends_updateStatus notification_id status error :
  respects (within status_budget)
    (EmailService.updateStatus notification_id status error).
Proof.
  unfold EmailService.updateStatus. spends_step; [spends_step|].
  spend status_budget; repeat spends_step.
Qed.

Lemma spends_checkIdempotency request_id :
  respects (within (one_call Redis)) (EmailService.checkIdempotency request_id).
Proof. unfold EmailService.checkIdempotency. repeat spends_step. Qed.

Lemma spends_markAsProcessed request_id result :
  respects (within (one_call Redis))
    (EmailService.markAsProcessed request_id result).
Proof. unfold EmailService.markAsProcessed. repeat spends_step. Qed.

Lemma spends_getUserById env user_id :
  respects (within (lookup_budget UserApi))
    (UserService.getUserById env user_id).
Proof.
  unfold UserService.getUserById.
  spend (lookup_budget UserApi); repeat spends_step.
Qed.

Lemma spends_getTemplate env template_code :
  respects (within (lookup_budget TemplateApi))
    (TemplateService.getTemplate env template_code).
Proof.
  unfold TemplateService.getTemplate.
  spend (lookup_budget TemplateApi); repeat spends_step.
Qed.

Lemma spends_shouldRetry payload :
  respects (within (one_call Redis)) (EmailService.shouldRetry payload).
Proof.
  unfold EmailService.shouldRetry, RetryService.getRetryCount.
  spend (one_call Redis); repeat spends_step.
Qed.

Lemma spends_sendEmail env mail :
  respects (withinW (one_call Smtp)) (EmailSender.sendEmail env mail).
Proof.
  apply spends_execute. unfold EmailSender.operation.
  spend (one_call Smtp); [|repeat spends_step].
  spends_step; [|repeat spends_step].
  unfold EmailSender.sendMail. repeat spends_step.
Qed.

End Services.

(** The same, with the services above as parts. *)
Ltac spends_service :=
  lazymatch goal with
  | |- respects _ (EmailService.updateStatus ?id ?status ?error) =>
      spends_weaken (spends_updateStatus id status error) status_budget
  | |- respects _ (EmailService.checkIdempotency ?id) =>
      spends_weaken (spends_checkIdempotency id) (one_call Redis)
  | |- respects _ (EmailService.markAsProcessed ?id ?result) =>
      spends_weaken (spends_markAsProcessed id result) (one_call Redis)
  | |- respects _ (EmailService.shouldRetry ?payload) =>
      spends_weaken (spends_shouldRetry payload) (one_call Redis)
  | |- respects _ (UserService.getUserById ?env ?user_id) =>
      spends_weaken (spends_getUserById env user_id) (lookup_budget UserApi)
  | |- respects _ (TemplateService.getTemplate ?env ?code) =>
      spends_weaken (spends_getTemplate env code) (lookup_budget TemplateApi)
  | |- respects _ (EmailSender.sendEmail ?env ?mail) =>
      spends_weaken (spends_sendEmail env mail) (one_call Smtp)
  | |- respects (_ _) (try_catch ?c _) => let b1 := budget_of c in spend b1
  | |- _ => spends_step
  end.

Section Pipeline.

Variable env : Env.t.
Variable payload : EmailNotificationPayload.t.

Lemma spends_deliver :
  respects (withinW deliver_budget) (EmailService.deliver env payload).
Proof.
  unfold EmailService.deliver, EmailService.as_user,
    TemplateService.renderTemplate.
  repeat spends_service.
Qed.

Lemma spends_processEmailNotification :
  respects (withinW process_budget)
    (EmailService.processEmailNotification env payload).
Proof.
  unfold EmailService.processEmailNotification, EmailService.process,
    EmailService.on_error.
  spend (both (one_call Redis) deliver_budget); [|repeat spends_service].
  spends_service; [repeat spends_service|].
  destruct a; [repeat spends_service|].
  spends_weaken spends_deliver deliver_budget.
Qed.

Lemma processEmailNotification_returns w :
  exists result w1,
    EmailService.processEmailNotification env payload w = (Ok result, w1).
Proof.
  unfold EmailService.processEmailNotification, try_catch.
  destruct (EmailService.process env payload w) as [[r|e] w1].
  - by eexists _, _.
  - rewrite on_error_spec. by eexists _, _.
Qed.

(** X24. One call of [processEmailNotification], on any payload and in any
    world, issues at most 9 Redis commands, 1 request to the user service,
    1 request to the template service and 1 mail, emits at most 3 statuses,
    and never acks or nacks. *)
Theorem processEmailNotification_budget (w : World.t) :
  exists evs,
    Ext.trace
      (World.ext (snd (EmailService.processEmailNotification env payload w)))
    = (Ext.trace (World.ext w) ++ evs)%list
    /\ (calls_to Redis evs <= 9)%nat
    /\ (calls_to UserApi evs <= 1)%nat
    /\ (calls_to TemplateApi evs <= 1)%nat
    /\ (calls_to Smtp evs <= 1)%nat
    /\ (calls_to StatusQueue evs <= 3)%nat
    /\ calls_to Broker evs = 0%nat.
Proof.
  destruct (EmailService.processEmailNotification env payload w)
    as [r w'] eqn:Hrun.
  destruct (spends_processEmailNotification _ _ _ Hrun) as (evs & Htrace & Hb).
  exists evs. split; [done|].
  pose proof (Hb Redis). pose proof (Hb UserApi). pose proof (Hb TemplateApi).
  pose proof (Hb Smtp). pose proof (Hb StatusQueue). pose proof (Hb Broker).
  unfold process_budget, deliver_budget, lookup_budget, status_budget, both,
    one_call in *. simpl in *. lia.
Qed.

(** X25. [handleEmailNotification] never throws and settles every message
    exactly once, as the last thing it does: it acks when
    [processEmailNotification] returned success and nacks otherwise, with
    requeue as [shouldRetry] answered.  Nothing before is an ack or a nack,
    and the circuits and what Redis holds are as [processEmailNotification]
    left them. *)
Theorem every_message_is_settled_once_and_last (w : World.t) :
  let (r, w1) := EmailService.processEmailNotification env payload w in
  let (r', w') := EmailController.handleEmailNotification env payload w in
  exists result evs settlement,
    r = Ok result
    /\ r' = Ok tt
    /\ World.circuits w' = World.circuits w1
    /\ Ext.store (World.ext w') = Ext.store (World.ext w1)
    /\ Ext.trace (World.ext w')
       = (Ext.trace (World.ext w) ++ evs ++ [settlement])%list
    /\ calls_to Broker evs = 0%nat
    /\ settlement
       = (if EmailSendResult.success result then Ack
          else Nack (RetryService.js_lt
                       (counted (EmailNotificationPayload.request_id payload)
                          (World.ext w1))
                       EmailService.MAX_RETRY_ATTEMPTS)).
Proof.
  destruct (processEmailNotification_returns w) as (result & w1 & Hproc).
  rewrite Hproc, (handle_settles _ _ _ _ _ Hproc).
  destruct (spends_processEmailNotification _ _ _ Hproc) as (evs & Htrace & Hb).
  pose proof (Hb Broker) as Hbroker.
  assert (Hnone : calls_to Broker evs = 0%nat).
  { unfold process_budget, deliver_budget, lookup_budget, status_budget, both,
      one_call in Hbroker. simpl in Hbroker. lia. }
  unfold settled. unfold withinW in Htrace.
  destruct (EmailSendResult.success result) eqn:Hsuccess.
  - exists result, evs, Ack. simpl. rewrite Htrace, <- app_assoc, Hsuccess.
    done.
  - eexists result,
      (evs ++ [RedisGet (RetryService.key_of
                           (EmailNotificationPayload.request_id payload))])%list,
      _.
    simpl. rewrite Htrace, <- !app_assoc, calls_app, Hnone, Hsuccess. done.
Qed.

End Pipeline.

(** ** The further properties on the samples *)

Section FurtherScenarios.

Import CircuitBreakerService EmailService.

Lemma set_then_get_witness :
  fst (RedisService.get "user:u1" (Sample.at_time 1800999 Sample.ann_cached))
  = Ok (Some (DUser Sample.ann))
  /\ fst (RedisService.get "user:u1"
            (Sample.at_time 1801000 Sample.ann_cached))
     = Ok None.
Proof.
  split.
  - apply (set_then_get "user:u1" (DUser Sample.ann) (Some 1800)
             (asked "user:u1" (HttpGetUser "u1") (World.ext Sample.world))
             Sample.ann_cached
             (Sample.at_time 1800999 Sample.ann_cached));
      [intros t [= <-]; lia | reflexivity | reflexivity | reflexivity].
  - apply (set_then_get "user:u1" (DUser Sample.ann) (Some 1800)
             (asked "user:u1" (HttpGetUser "u1") (World.ext Sample.world))
             Sample.ann_cached
             (Sample.at_time 1801000 Sample.ann_cached));
      [intros t [= <-]; lia | reflexivity | reflexivity | reflexivity].
Defined.

Lemma redis_errors_swallowed_or_rethrown_witness :
  fst (RedisService.get "user:u1" Sample.redis_out) = Ok None
  /\ fst (RedisService.del "user:u1" Sample.redis_out) = Ok tt
  /\ fst (RedisService.set "user:u1" (DUser Sample.ann) None Sample.redis_out)
     = Throw Sample.redis_down.
Proof.
  destruct (redis_errors_swallowed_or_rethrown "user:u1" (DUser Sample.ann)
              None Sample.redis_out Sample.redis_down eq_refl)
    as (Hget & Hdel & Hset & _).
  exact (conj Hget (conj Hdel Hset)).
Defined.

Lemma del_then_get_and_other_keys_witness :
  fst (RedisService.get "user:u1"
         (snd (RedisService.del "user:u1" Sample.ann_cached)))
  = Ok None
  /\ read_key "user:u1" Sample.ann_cached = Some (DUser Sample.ann)
  /\ read_key "user:u1"
       (snd (RedisService.del "template:welcome" Sample.ann_cached))
     = Some (DUser Sample.ann).
Proof.
  destruct (del_then_get_and_other_keys "user:u1" "user:u1" (DUser Sample.ann)
              None Sample.ann_cached
              (snd (RedisService.del "user:u1" Sample.ann_cached)) eq_refl)
    as [Hgone _].
  destruct (del_then_get_and_other_keys "template:welcome" "user:u1"
              (DUser Sample.ann) None Sample.ann_cached Sample.ann_cached
              eq_refl)
    as [_ Hkept].
  split; [by apply Hgone|]. split; [reflexivity|].
  destruct Hkept as [-> _]; [discriminate | reflexivity].
Defined.

Lemma reconnect_gives_up_after_ten_witness :
  (exists delay,
     RedisService.reconnectStrategy 10 = inr delay /\ delay = 1000)
  /\ exists error,
       RedisService.reconnectStrategy 11 = inl error
       /\ JsError.message error = "Max reconnection attempts reached".
Proof.
  pose proof (reconnect_gives_up_after_ten 10) as Hlast.
  pose proof (reconnect_gives_up_after_ten 11) as Hover.
  destruct (RedisService.reconnectStrategy 10) as [error|delay];
    [destruct Hlast; lia|].
  destruct (RedisService.reconnectStrategy 11) as [error|delay'];
    [|destruct Hover; lia].
  split.
  - exists delay. split; [done|]. destruct Hlast as (_ & -> & _); lia.
  - exists error. split; [done|]. destruct Hover as [_ Hmessage]; [lia|].
    exact Hmessage.
Defined.

Lemma recordRetry_bookkeeping_witness :
  exists m,
    Ext.store (snd (RetryService.recordRetry "r1" "refused" Sample.one_third))
    !! "retry:r1"
    = Some (Entry.mk (DRetry m) (Some 86401000))
    /\ RetryMetadata.attempt_count m = 1%nat
    /\ 2000 <= RetryMetadata.next_retry_at m <= 2200.
Proof.
  destruct (recordRetry_bookkeeping "r1" "refused" Sample.one_third)
    as (m & x' & Hrun & Hstore & Hrecord & _ & Hnext).
  - reflexivity.
  - vm_compute. discriminate.
  - vm_compute. reflexivity.
  - intros d Hd. vm_compute in Hd. discriminate Hd.
  - exists m. rewrite Hrun. cbn [snd].
    cbn in Hrecord. destruct Hrecord as (Hcount & _).
    rewrite Hcount in Hnext. split; [exact Hstore|]. split; [exact Hcount|].
    exact Hnext.
Defined.

Lemma retries_are_exhausted_after_three_witness :
  let calls :=
    [(Sample.an_hour_later, "timeout"); (Sample.an_hour_later, "timeout");
     (Sample.an_hour_later, "refused")] in
  let x := recordRetry_all "r1" calls (World.ext Sample.world) in
  fst (RetryService.getRetryCount "r1" x) = Ok (Some 3%nat)
  /\ fst (RetryService.shouldRetry "r1" x) = Ok false
  /\ fst (RetryService.getRetryCount "r1"
            (snd (RetryService.recordRetry "r1" "timeout"
                    (Sample.two_days_later x))))
     = Ok (Some 1%nat).
Proof.
  destruct (retries_are_exhausted_after_three "r1"
              [(Sample.an_hour_later, "timeout");
               (Sample.an_hour_later, "timeout");
               (Sample.an_hour_later, "refused")]
              (World.ext Sample.world))
    as (Hcount & Hretry & _ & Hlate).
  - repeat constructor; simpl; lia.
  - reflexivity.
  - split; [exact Hcount|]. split; [exact Hretry|].
    apply (Hlate "timeout" Sample.two_days_later); [discriminate|].
    intros x. repeat split; simpl; lia.
Defined.

Lemma recordRetry_under_redis_failures_witness :
  (exists m,
     read_key "retry:r1"
       (snd (RetryService.recordRetry "r1" "refused" Sample.redis_out))
     = Some (DRetry m)
     /\ RetryMetadata.attempt_count m = 1%nat)
  /\ fst (RetryService.recordRetry "r1" "refused" Sample.redis_going_out)
     = Throw Sample.redis_down.
Proof.
  destruct (recordRetry_under_redis_failures "r1" "refused" Sample.redis_out
              Sample.redis_down) as [Hrestart _].
  destruct (recordRetry_under_redis_failures "r1" "refused"
              Sample.redis_going_out Sample.redis_down) as [_ Hthrown].
  split.
  - destruct (Hrestart eq_refl) as (x' & Hrun & m & Hread & Hcount & _).
    exists m. rewrite Hrun. exact (conj Hread Hcount).
  - apply Hthrown; [reflexivity|].
    intros d Hd. vm_compute in Hd. discriminate Hd.
Defined.

Lemma clearRetry_resets_the_count_witness :
  let cleared := snd (RetryService.clearRetry "r1" Sample.after_three_failures) in
  fst (RetryService.shouldRetry "r1" Sample.after_three_failures) = Ok false
  /\ fst (RetryService.getRetryCount "r1" cleared) = Ok (Some 0%nat)
  /\ fst (RetryService.shouldRetry "r1" cleared) = Ok true.
Proof.
  destruct (clearRetry_resets_the_count "r1" Sample.after_three_failures
              (snd (RetryService.clearRetry "r1" Sample.after_three_failures)))
    as (_ & Hcleared & _).
  destruct (Hcleared eq_refl eq_refl) as (Hcount & _ & Hretry).
  split; [vm_compute; reflexivity|]. exact (conj Hcount Hretry).
Defined.

Lemma circuits_stay_sound_witness :
  let w := interleaved Sample.overlap Sample.world in
  CircuitBreaker.state (current "smtp" w) = OPEN
  /\ CircuitBreaker.failure_count (current "smtp" w) = 0%nat
  /\ sound (current "smtp" w)
  /\ sound (current "smtp" (snd (execute Sample.boom "smtp" Sample.world))).
Proof.
  destruct (circuits_stay_sound Sample.overlap Sample.boom "smtp"
              Sample.world)
    as (Hsound & _ & Hcall).
  { intros circuit_name. unfold current. simpl. rewrite lookup_empty. simpl.
    unfold sound, FAILURE_THRESHOLD. simpl. split; [lia | reflexivity]. }
  split; [vm_compute; reflexivity|]. split; [vm_compute; reflexivity|].
  exact (conj (Hsound "smtp") (Hcall "smtp")).
Defined.

Lemma resetCircuit_forgets_the_circuit_witness :
  let w := snd (resetCircuit "email_send" Sample.world_breaker_open) in
  fst (getCircuitStatus "email_send" Sample.world_breaker_open)
  = Ok (Some (CircuitBreaker.mk OPEN 5 0 (Some 1000) 61000))
  /\ fst (getCircuitStatus "email_send" w) = Ok None
  /\ fst (execute (ret tt) "email_send" w) = Ok tt.
Proof.
  destruct (resetCircuit_forgets_the_circuit (ret tt) "email_send" "smtp"
              Sample.world_breaker_open)
    as (Hstatus & _ & _ & Hrun & _).
  split; [reflexivity|]. exact (conj Hstatus Hrun).
Defined.

Lemma execute_is_transparent_witness :
  fst (execute Sample.boom "smtp" Sample.world_breaker_open)
  = Throw (Error "boom")
  /\ World.circuits (snd (execute Sample.boom "smtp" Sample.world_breaker_open))
     !! "email_send"
     = Some (CircuitBreaker.mk OPEN 5 0 (Some 1000) 61000)
  /\ fst (execute Sample.boom "email_send" Sample.world_breaker_open)
     = Throw (Error "Circuit breaker is OPEN for email_send").
Proof.
  destruct (execute_is_transparent Sample.boom "smtp" "email_send"
              Sample.world_breaker_open)
    as (Hother & _ & Hthrough).
  destruct (execute_is_transparent Sample.boom "email_send" "smtp"
              Sample.world_breaker_open)
    as (_ & Hrejected & _).
  destruct Hthrough as (Hresult & _).
  { intros [Hopen _]. vm_compute in Hopen. discriminate Hopen. }
  split; [exact Hresult|]. split.
  - rewrite Hother by discriminate. reflexivity.
  - rewrite Hrejected; [reflexivity|].
    split; [reflexivity | vm_compute; reflexivity].
Defined.

Lemma stripHtml_only_trims_plain_text_witness :
  EmailSender.stripHtml Sample.comparison = [97; 32; 60; 32; 98]%N
  /\ EmailSender.stripHtml Sample.marked_up
     = [72; 105; 32; 116; 104; 101; 114; 101]%N.
Proof.
  destruct (stripHtml_only_trims_plain_text Sample.comparison eq_refl)
    as (Htrim & _).
  split; [rewrite Htrim|]; reflexivity.
Defined.

Lemma getUserById_serves_from_cache_for_thirty_minutes_witness :
  fst (UserService.getUserById Sample.env "u1" (World.ext Sample.world))
  = Ok (Some (DUser Sample.ann))
  /\ UserService.getUserById Sample.env_user_down "u1"
       (Sample.at_time 1800999 Sample.ann_cached)
     = (Ok (Some (DUser Sample.ann)),
        commanded (RedisGet "user:u1")
          (Sample.at_time 1800999 Sample.ann_cached))
  /\ fst (UserService.getUserById Sample.env_user_down "u1"
            (Sample.at_time 1801000 Sample.ann_cached))
     = Throw Sample.refused.
Proof.
  destruct (getUserById_serves_from_cache_for_thirty_minutes
              Sample.env "u1" Sample.ann (World.ext Sample.world)
              eq_refl eq_refl eq_refl)
    as (Hfirst & _ & Hlater).
  split; [exact Hfirst|]. split.
  - apply (Hlater Sample.env_user_down
             (Sample.at_time 1800999 Sample.ann_cached));
      reflexivity.
  - reflexivity.
Defined.

Lemma getUserById_404_is_null_other_errors_are_thrown_witness :
  fst (UserService.getUserById Sample.env_no_user "u1" (World.ext Sample.world))
  = Ok None
  /\ fst (UserService.getUserById Sample.env_user_down "u1"
            (World.ext Sample.world))
     = Throw Sample.refused
  /\ fst (UserService.getUserById Sample.env "u1" Sample.redis_going_out)
     = Throw Sample.redis_down.
Proof.
  pose proof (getUserById_404_is_null_other_errors_are_thrown
                Sample.env_no_user "u1" (World.ext Sample.world)
                Sample.not_found eq_refl (or_introl eq_refl)) as Hnull.
  pose proof (getUserById_404_is_null_other_errors_are_thrown
                Sample.env_user_down "u1" (World.ext Sample.world)
                Sample.refused eq_refl (or_introl eq_refl)) as Hdown.
  pose proof (getUserById_404_is_null_other_errors_are_thrown
                Sample.env "u1" Sample.redis_going_out
                Sample.redis_down eq_refl
                (or_intror (ex_intro _ Sample.ann (conj eq_refl eq_refl))))
    as Hwrite.
  destruct (UserService.getUserById Sample.env_no_user "u1" _) as [r1 x1].
  destruct (UserService.getUserById Sample.env_user_down "u1" _) as [r2 x2].
  destruct (UserService.getUserById Sample.env "u1" _) as [r3 x3].
  destruct Hnull as (Hnull & _). destruct Hdown as (_ & Hdown & _).
  destruct Hwrite as (_ & Hwrite & _). cbn [fst].
  rewrite (Hnull eq_refl), Hdown, Hwrite by discriminate. done.
Defined.

Lemma invalidateCache_forces_a_fetch_witness :
  fst (UserService.invalidateCache "u1" Sample.redis_out) = Ok tt
  /\ fst (UserService.getUserById Sample.env_user_down "u1" Sample.ann_cached)
     = Ok (Some (DUser Sample.ann))
  /\ exists rest,
       Ext.trace
         (snd (UserService.getUserById Sample.env_user_down "u1"
                 (snd (UserService.invalidateCache "u1" Sample.ann_cached))))
       = (Ext.trace (snd (UserService.invalidateCache "u1" Sample.ann_cached))
          ++ RedisGet "user:u1" :: HttpGetUser "u1" :: rest)%list.
Proof.
  destruct (invalidateCache_forces_a_fetch Sample.env_user_down "u1"
              Sample.redis_out Sample.redis_out)
    as (Hreturns & _).
  destruct (invalidateCache_forces_a_fetch Sample.env_user_down "u1"
              Sample.ann_cached
              (snd (UserService.invalidateCache "u1" Sample.ann_cached)))
    as (_ & _ & Hfetch & _).
  split; [exact Hreturns|]. split; [reflexivity|].
  destruct (Hfetch eq_refl) as [Huser _]. by apply Huser.
Defined.

Lemma disabled_preferences_end_the_delivery_witness :
  fst (processEmailNotification Sample.env_preferences_off Sample.r1
         Sample.world)
  = Ok (EmailSendResult.mk false None (Some "User preferences disabled") 1000)
  /\ List.filter settles
       (Ext.trace
          (World.ext
             (snd (EmailController.handleEmailNotification
                     Sample.env_preferences_off Sample.r1 Sample.world))))
     = [StatusEmit "email.status"
          (Sample.status FAILED (Some "User has email notifications disabled"));
        Nack true].
Proof.
  destruct (disabled_preferences_end_the_delivery
              Sample.env_preferences_off Sample.r1 Sample.world Sample.bob
              (Sample.user_found Sample.env_preferences_off Sample.world))
    as (Hproc & _ & Hhandle);
    [vm_compute; reflexivity | vm_compute; reflexivity | reflexivity |].
  rewrite Hproc, Hhandle. split; vm_compute; reflexivity.
Defined.

Lemma missing_template_fails_before_the_breaker_witness :
  fst (processEmailNotification Sample.env_template_down Sample.r1
         Sample.world)
  = Ok (EmailSendResult.mk false None (Some "Template not found: welcome")
          1000)
  /\ World.circuits
       (snd (processEmailNotification Sample.env_template_down Sample.r1
               Sample.world))
     = ∅.
Proof.
  destruct (missing_template_fails_before_the_breaker
              Sample.env_template_down Sample.r1 Sample.world Sample.ann
              (Sample.user_found Sample.env_template_down Sample.world)
              (Sample.template_found Sample.env_template_down Sample.world))
    as (Hproc & _);
    [vm_compute; reflexivity | vm_compute; reflexivity | reflexivity
    | vm_compute; reflexivity |].
  rewrite Hproc. split; reflexivity.
Defined.

Lemma delivered_mail_is_recorded_and_acked_witness :
  fst (processEmailNotification Sample.env Sample.r1 Sample.world)
  = Ok (EmailSendResult.mk true (Some "m1") None 1000)
  /\ List.filter settles
       (Ext.trace
          (World.ext
             (snd (EmailController.handleEmailNotification Sample.env
                     Sample.r1 Sample.world))))
     = [Ack].
Proof.
  destruct (delivered_mail_is_recorded_and_acked
              Sample.env Sample.r1 Sample.world Sample.ann
              (Sample.user_found Sample.env Sample.world)
              (Sample.template_found Sample.env Sample.world)
              Sample.welcome Sample.rendered)
    with (messageId := "m1")
    as (w' & Hproc & Hext & _ & _ & _ & Hhandle);
    [vm_compute; reflexivity | vm_compute; reflexivity | reflexivity
    | vm_compute; reflexivity | reflexivity
    | intros [Hopen _]; vm_compute in Hopen; discriminate Hopen
    | reflexivity | vm_compute; reflexivity |].
  rewrite Hproc, Hhandle. split; [reflexivity|].
  cbn [World.ext snd]. rewrite Hext. vm_compute. reflexivity.
Defined.

Lemma sent_mail_is_reported_failed_when_the_record_fails_witness :
  fst (processEmailNotification Sample.env Sample.r1
         Sample.world_record_fails)
  = Ok (EmailSendResult.mk false None (Some "The client is closed") 1000)
  /\ List.filter
       (fun ev => match ev with SendMail _ | Nack _ => true | _ => false end)
       (Ext.trace
          (World.ext
             (snd (EmailController.handleEmailNotification Sample.env
                     Sample.r1 Sample.world_record_fails))))
     = [SendMail (mail_of Sample.env Sample.mail); Nack true].
Proof.
  destruct (sent_mail_is_reported_failed_when_the_record_fails
              Sample.env Sample.r1 Sample.world_record_fails Sample.ann
              (Sample.user_found Sample.env Sample.world_record_fails)
              (Sample.template_found Sample.env Sample.world_record_fails)
              Sample.welcome Sample.rendered)
    with (messageId := "m1") (e := Sample.redis_down)
    as (w' & Hproc & Hext & _ & _ & _ & Hhandle);
    [vm_compute; reflexivity | vm_compute; reflexivity | reflexivity
    | vm_compute; reflexivity | reflexivity
    | intros [Hopen _]; vm_compute in Hopen; discriminate Hopen
    | reflexivity | vm_compute; reflexivity |].
  rewrite Hproc, Hhandle. split; [reflexivity|].
  unfold settled. cbn [EmailSendResult.success World.ext snd].
  rewrite Hext. vm_compute. reflexivity.
Defined.

Lemma open_breaker_fails_the_delivery_without_sending_witness :
  fst (processEmailNotification Sample.env Sample.r1 Sample.world_breaker_open)
  = Ok (EmailSendResult.mk false None
          (Some "Circuit breaker is OPEN for email_send") 1000)
  /\ World.circuits
       (snd (processEmailNotification Sample.env Sample.r1
               Sample.world_breaker_open))
     = World.circuits Sample.world_breaker_open.
Proof.
  destruct (open_breaker_fails_the_delivery_without_sending
              Sample.env Sample.r1 Sample.world_breaker_open Sample.ann
              (Sample.user_found Sample.env Sample.world_breaker_open)
              (Sample.template_found Sample.env Sample.world_breaker_open)
              Sample.welcome Sample.rendered)
    as (Hproc & _);
    [vm_compute; reflexivity | vm_compute; reflexivity | reflexivity
    | vm_compute; reflexivity | reflexivity
    | split; [reflexivity | vm_compute; reflexivity] |].
  rewrite Hproc. split; reflexivity.
Defined.

End FurtherScenarios.
